(** * packer-post-processor-shell: the shell post-processor

    A shallow embedding of [shell/post-processor.go] (type [PostProcessor],
    methods [Configure] and [PostProcess]) and the properties of its
    configuration validation and of its script execution loop. The first
    generation of the file, the type [ShellPostProcessor], is embedded
    after it, over the same heap, world and trace.

    Go strings are byte strings ([string]); Go slices are headers over
    backing arrays kept in a heap; the operating system, the ui and the
    subprocesses are an abstract world [W] driven through a record of
    system calls, and every call is logged in a trace. *)

From Stdlib Require Import Lia ZArith Ascii String.
From stdpp Require Import base list strings.

(* ===================================================================== *)
(** ** The Go [strings] package, as far as the post-processor uses it     *)
(* ===================================================================== *)

Module Strings.

Definition len (s : string) : nat := String.length s.

(** [s[n:]] *)
Fixpoint skip (n : nat) (s : string) : string :=
  match n, s with
  | S n', String _ s' => skip n' s'
  | _, _ => s
  end.

(** [s[:n]] *)
Fixpoint upto (n : nat) (s : string) : string :=
  match n, s with
  | S n', String c s' => String c (upto n' s')
  | _, _ => EmptyString
  end.

(** [strings.HasPrefix] *)
Fixpoint HasPrefix (s prefix : string) : bool :=
  match prefix, s with
  | EmptyString, _ => true
  | String a p', String b s' => if Ascii.eqb a b then HasPrefix s' p' else false
  | String _ _, EmptyString => false
  end.

(** [strings.Index]: the position of the first instance of [sep]. *)
Fixpoint Index (s sep : string) : option nat :=
  if HasPrefix s sep then Some 0
  else match s with
       | EmptyString => None
       | String _ s' => S <$> Index s' sep
       end.

(** [strings.SplitN(s, sep, n)] for a non-empty [sep] and [n >= 0]: at
    most [n] pieces, the last one being the unsplit remainder. *)
Fixpoint SplitN (s sep : string) (n : nat) : list string :=
  match n with
  | 0 => []
  | S n' =>
      match n' with
      | 0 => [s]
      | S _ =>
          match Index s sep with
          | None => [s]
          | Some m => upto m s :: SplitN (skip (m + len sep) s) sep n'
          end
      end
  end.

(** [strings.Replace(s, old, new, n)] for a non-empty [old]; a negative [n]
    puts no limit on the number of replacements. The recursion is on
    [fuel], one unit per byte of [s]. *)
Fixpoint replace_go (fuel : nat) (s old new : string) (n : option nat) : string :=
  match fuel, s with
  | S fuel', String c s' =>
      match n with
      | Some 0 => s
      | _ =>
          if HasPrefix s old
          then new +:+ replace_go fuel' (skip (len old) s) old new (pred <$> n)
          else String c (replace_go fuel' s' old new n)
      end
  | _, _ => s
  end.

Definition Replace (s old new : string) (n : Z) : string :=
  match old with
  | EmptyString => s
  | _ => replace_go (len s) s old new (if (n <? 0)%Z then None else Some (Z.to_nat n))
  end.

(** [strings.Join] *)
Fixpoint Join (a : list string) (sep : string) : string :=
  match a with
  | [] => ""
  | [x] => x
  | x :: rest => x +:+ sep +:+ Join rest sep
  end.

Definition byte (n : nat) : ascii := ascii_of_nat n.
Fixpoint bytes (l : list nat) : string :=
  match l with
  | [] => EmptyString
  | n :: l' => String (byte n) (bytes l')
  end.

(** The UTF-8 encodings of the code points for which [unicode.IsSpace]
    holds: tab, LF, VT, FF, CR, space, U+0085, U+00A0, U+1680,
    U+2000..U+200A, U+2028, U+2029, U+202F, U+205F, U+3000. *)
Definition space_runes : list string :=
  map bytes
    ([[9]; [10]; [11]; [12]; [13]; [32]; [194; 133]; [194; 160]; [225; 154; 128]]
     ++ map (fun k => [226; 128; 128 + k]) (seq 0 11)
     ++ [[226; 128; 168]; [226; 128; 169]; [226; 128; 175]; [226; 129; 159];
         [227; 128; 128]]).

Fixpoint reverse_string (acc s : string) : string :=
  match s with
  | EmptyString => acc
  | String c s' => reverse_string (String c acc) s'
  end.
Definition rev_string (s : string) : string := reverse_string EmptyString s.

(** Drop leading instances of the given byte patterns. *)
Fixpoint trim_left (fuel : nat) (pats : list string) (s : string) : string :=
  match fuel with
  | 0 => s
  | S fuel' =>
      match List.find (HasPrefix s) pats with
      | Some p =>
          match p with
          | EmptyString => s
          | _ => trim_left fuel' pats (skip (len p) s)
          end
      | None => s
      end
  end.

(** [strings.TrimSpace]: leading and trailing white space removed. The
    last rune of a string is found by matching the reversed encodings on
    the reversed string. *)
Definition TrimSpace (s : string) : string :=
  let l := trim_left (len s) space_runes s in
  rev_string (trim_left (len l) (map rev_string space_runes) (rev_string l)).

End Strings.

(* ===================================================================== *)
(** ** Go slices of strings over a heap of backing arrays                 *)
(* ===================================================================== *)

Module Slices.

(** The heap: backing array number [l] is [h !! l]. *)
Abbreviation heap := (list (list string)).

(** A slice header: backing array ([None] for the nil slice), offset in
    the array, length and capacity. *)
Record slice := Slice {
  s_arr : option nat;
  s_off : nat;
  s_len : nat;
  s_cap : nat }.

Definition nil_slice : slice := Slice None 0 0 0.

(** [s == nil] *)
Definition is_nil (s : slice) : bool :=
  match s_arr s with None => true | Some _ => false end.

(** The header points into a live array that is long enough. *)
Definition slice_ok (h : heap) (s : slice) : bool :=
  match s_arr s with
  | None => (s_len s =? 0) && (s_cap s =? 0)
  | Some l =>
      match h !! l with
      | Some arr => (s_off s + s_cap s <=? length arr) && (s_len s <=? s_cap s)
      | None => false
      end
  end.

(** The elements visible through the slice. *)
Definition elems (h : heap) (s : slice) : list string :=
  match s_arr s with
  | None => []
  | Some l => take (s_len s) (drop (s_off s) (default [] (h !! l)))
  end.

Definition alloc (vs : list string) (h : heap) : nat * heap :=
  (length h, h ++ [vs]).

(** [make([]string, n)] *)
Definition make (n : nat) (h : heap) : slice * heap :=
  let '(l, h') := alloc (replicate n "") h in
  (Slice (Some l) 0 n n, h').

(** [[]string{v1, ..., vn}] *)
Definition literal (vs : list string) (h : heap) : slice * heap :=
  let '(l, h') := alloc vs h in
  (Slice (Some l) 0 (length vs) (length vs), h').

(** [s[i]], [None] when the index is out of range. *)
Definition load (h : heap) (s : slice) (i : nat) : option string :=
  if i <? s_len s then
    match s_arr s with
    | Some l => arr ← h !! l; arr !! (s_off s + i)
    | None => None
    end
  else None.

(** [s[i] = v], [None] when the index is out of range. *)
Definition store (s : slice) (i : nat) (v : string) (h : heap) : option heap :=
  if i <? s_len s then
    match s_arr s with
    | Some l =>
        match h !! l with
        | Some arr =>
            if s_off s + i <? length arr
            then Some (<[l := <[s_off s + i := v]> arr]> h)
            else None
        | None => None
        end
    | None => None
    end
  else None.

(** [s[k:]], [None] when [k] exceeds the length. *)
Definition reslice_from (s : slice) (k : nat) : option slice :=
  if k <=? s_len s
  then Some (Slice (s_arr s) (s_off s + k) (s_len s - k) (s_cap s - k))
  else None.

(** Overwrite [arr] from position [off] with [vs]. *)
Definition write_at (off : nat) (vs arr : list string) : list string :=
  take off arr ++ vs ++ drop (off + length vs) arr.

(** [copy(dst, src)]: the first [min(len(dst), len(src))] elements of
    [src] are read, then written over the start of [dst]; the number of
    elements copied is returned. *)
Definition copy (dst src : slice) (h : heap) : nat * heap :=
  let vs := take (s_len dst `min` s_len src) (elems h src) in
  match s_arr dst with
  | Some l => (length vs, alter (write_at (s_off dst) vs) l h)
  | None => (0, h)
  end.

(** The capacity of the array that [append] moves to when it has to grow
    (the runtime doubles small arrays; the capacity is never observed by
    the post-processor). *)
Definition growslice_cap (old needed : nat) : nat := needed `max` (2 * old).

(** [append(s, vs...)]: in place when the capacity allows it, otherwise
    in a new array holding the old elements followed by [vs]. *)
Definition append (s : slice) (vs : list string) (h : heap) : slice * heap :=
  let n := s_len s + length vs in
  if n <=? s_cap s then
    match s_arr s with
    | Some l =>
        (Slice (Some l) (s_off s) n (s_cap s),
         alter (write_at (s_off s + s_len s) vs) l h)
    | None => (s, h)
    end
  else
    let c := growslice_cap (s_cap s) n in
    let '(l, h') := alloc (elems h s ++ vs ++ replicate (c - n) "") h in
    (Slice (Some l) 0 n c, h').

End Slices.

Import Slices.

(* ===================================================================== *)
(** ** The world outside the process                                      *)
(* ===================================================================== *)

(** What [cmd.Run] leaves behind: the bytes the process wrote on its
    standard output and standard error, and the error of [Run] ([None]
    for exit status 0). *)
Record RunResult := {
  r_stdout : string;
  r_stderr : string;
  r_err : option string }.

(** One entry per call that leaves the process, with its result. *)
Inductive event :=
| EvStat (path : string) (err : option string)
| EvTempFile (dir pattern : string) (res : string + string)
| EvWriteString (file data : string) (err : option string)
| EvFlush (file : string) (err : option string)
| EvClose (file : string)
| EvRemove (name : string)
| EvOpen (name : string) (err : option string)
| EvEnviron (env : list string)
| EvRun (name : string) (args env : list string) (res : RunResult)
| EvSay (msg : string)
| EvMessage (msg : string)
| EvLog (msg : string).

(** [packer.Artifact]: only [Files] is called. *)
Class Artifact (A : Type) := { Files : A -> list string }.

(** [common.PackerConfig] (build name and builder type) and the fields of
    [Config]; [ctx] only matters to the decoder. *)
Record Config := {
  PackerBuildName : string;
  PackerBuilderType : string;
  OutputPath : string;
  KeepInputArtifact : bool;
  Inline : slice;
  InlineShebang : string;
  Script : string;
  Scripts : slice;
  Vars : slice }.

Definition set_Inline (v : slice) (c : Config) : Config :=
  {| PackerBuildName := PackerBuildName c; PackerBuilderType := PackerBuilderType c;
     OutputPath := OutputPath c; KeepInputArtifact := KeepInputArtifact c;
     Inline := v; InlineShebang := InlineShebang c; Script := Script c;
     Scripts := Scripts c; Vars := Vars c |}.

Definition set_InlineShebang (v : string) (c : Config) : Config :=
  {| PackerBuildName := PackerBuildName c; PackerBuilderType := PackerBuilderType c;
     OutputPath := OutputPath c; KeepInputArtifact := KeepInputArtifact c;
     Inline := Inline c; InlineShebang := v; Script := Script c;
     Scripts := Scripts c; Vars := Vars c |}.

Definition set_Scripts (v : slice) (c : Config) : Config :=
  {| PackerBuildName := PackerBuildName c; PackerBuilderType := PackerBuilderType c;
     OutputPath := OutputPath c; KeepInputArtifact := KeepInputArtifact c;
     Inline := Inline c; InlineShebang := InlineShebang c; Script := Script c;
     Scripts := v; Vars := Vars c |}.

Definition set_Vars (v : slice) (c : Config) : Config :=
  {| PackerBuildName := PackerBuildName c; PackerBuilderType := PackerBuilderType c;
     OutputPath := OutputPath c; KeepInputArtifact := KeepInputArtifact c;
     Inline := Inline c; InlineShebang := InlineShebang c; Script := Script c;
     Scripts := Scripts c; Vars := v |}.

(** Go errors: a plain message ([errors.New], [fmt.Errorf], the decoder's
    error) or a [*packer.MultiError] with its [Errors]. *)
Inductive error :=
| errorString (msg : string)
| MultiError (Errors : list string).

(** [packer.MultiErrorAppend(err, e)] on a possibly nil [*MultiError]. *)
Definition MultiErrorAppend (err : option (list string)) (e : string)
  : option (list string) :=
  Some (default [] err ++ [e]).

(** A deferred call, its arguments evaluated when [defer] runs. *)
Inductive deferred :=
| DeferRemove (name : string)     (* defer os.Remove(tf.Name()) *)
| DeferClose (file : string).     (* defer f.Close() *)

Section World.

(** [W]: the state of everything outside the process (file system, ui,
    subprocesses); [Raw]: the raw configuration values given to
    [Configure]. *)
Context {W Raw : Type}.

(** The calls that leave the package. Errors are carried by their
    message. *)
Record Sys := {
  (* config.Decode(&p.config, opts, raws...) *)
  config_Decode : list Raw -> Config -> heap -> option string * (Config * heap);
  os_Stat : string -> W -> option string * W;
  (* ioutil.TempFile(dir, pattern): the new file's name, or an error *)
  ioutil_TempFile : string -> string -> W -> (string + string) * W;
  (* bufio.Writer.WriteString and Flush on the writer of a file *)
  bufio_WriteString : string -> string -> W -> option string * W;
  bufio_Flush : string -> W -> option string * W;
  file_Close : string -> W -> W;
  os_Remove : string -> W -> W;
  os_Open : string -> W -> option string * W;
  os_Environ : W -> list string;
  (* exec.Command(name, args...) with Env set, then Run *)
  cmd_Run : string -> list string -> list string -> W -> RunResult * W }.

(** [packer.Ui]: only [Say] and [Message] are called. *)
Record Ui := {
  ui_Say : string -> W -> W;
  ui_Message : string -> W -> W }.

(** The machine state while a method of [p *PostProcessor] runs: the
    heap, [p.config], the method's local variables, its pending deferred
    calls (latest first), the world and the trace of calls so far. *)
Record state (F : Type) := State {
  heap : Slices.heap;
  config : Config;
  frame : F;
  defers : list deferred;
  world : W;
  trace : list event }.
Arguments State {F}.
Arguments heap {F}.
Arguments config {F}.
Arguments frame {F}.
Arguments defers {F}.
Arguments world {F}.
Arguments trace {F}.

(** A statement continues with a value, returns from the method, or
    panics. *)
Inductive outcome (R A : Type) :=
| Next (a : A)
| Return (r : R)
| Panic (msg : string).
Arguments Next {R A}.
Arguments Return {R A}.
Arguments Panic {R A}.

Definition M (F R A : Type) : Type := state F -> outcome R A * state F.

#[export] Instance M_ret {F R} : MRet (M F R) :=
  fun A a st => (Next a, st).

#[export] Instance M_bind {F R} : MBind (M F R) :=
  fun A B f m st =>
    match m st with
    | (Next a, st') => f a st'
    | (Return r, st') => (Return r, st')
    | (Panic msg, st') => (Panic msg, st')
    end.

Section Statements.
Context {F R : Type}.

Definition skip : M F R unit := mret ().

(** [return r] *)
Definition return_ {A} (r : R) : M F R A := fun st => (Return r, st).

Definition panic {A} (msg : string) : M F R A := fun st => (Panic msg, st).

(** [p.config] *)
Definition p_config : M F R Config := fun st => (Next (config st), st).

Definition assign_config (f : Config -> Config) : M F R unit :=
  fun st => (Next (), State (heap st) (f (config st)) (frame st) (defers st)
                             (world st) (trace st)).

Definition local : M F R F := fun st => (Next (frame st), st).

Definition assign (f : F -> F) : M F R unit :=
  fun st => (Next (), State (heap st) (config st) (f (frame st)) (defers st)
                             (world st) (trace st)).

(** An allocating or writing slice operation. *)
Definition on_heap {A} (op : Slices.heap -> A * Slices.heap) : M F R A :=
  fun st => let '(a, h) := op (heap st) in
            (Next a, State h (config st) (frame st) (defers st)
                           (world st) (trace st)).

(** [s[i]] *)
Definition index (s : slice) (i : nat) : M F R string :=
  fun st => match load (heap st) s i with
            | Some v => (Next v, st)
            | None => (Panic "index out of range", st)
            end.

(** [s[i] = v] *)
Definition index_assign (s : slice) (i : nat) (v : string) : M F R unit :=
  fun st => match store s i v (heap st) with
            | Some h => (Next (), State h (config st) (frame st) (defers st)
                                        (world st) (trace st))
            | None => (Panic "index out of range", st)
            end.

(** [s[k:]] *)
Definition slice_from (s : slice) (k : nat) : M F R slice :=
  match reslice_from s k with
  | Some s' => mret s'
  | None => panic "slice bounds out of range"
  end.

(** The elements of [s], as a variadic argument [s...] reads them. *)
Definition spread (s : slice) : M F R (list string) :=
  fun st => (Next (elems (heap st) s), st).

(** A call into the world, logged with its result. *)
Definition syscall {A} (call : W -> A * W) (ev : A -> event) : M F R A :=
  fun st => let '(a, w) := call (world st) in
            (Next a, State (heap st) (config st) (frame st) (defers st)
                           w (trace st ++ [ev a])).

Definition sysproc (call : W -> W) (ev : event) : M F R unit :=
  syscall (fun w => ((), call w)) (fun _ => ev).

(** [log.Printf] *)
Definition log_Printf (msg : string) : M F R unit :=
  sysproc (fun w => w) (EvLog msg).

(** [defer d] *)
Definition defer (d : deferred) : M F R unit :=
  fun st => (Next (), State (heap st) (config st) (frame st) (d :: defers st)
                             (world st) (trace st)).

(** [for i, v := range s { body }]: the header of [s] is read once, the
    elements as the loop reaches them. *)
Fixpoint range_from (s : slice) (i n : nat) (body : nat -> string -> M F R unit)
  : M F R unit :=
  match n with
  | 0 => skip
  | S n' => v ← index s i; body i v;; range_from s (S i) n' body
  end.

Definition for_range (s : slice) (body : nat -> string -> M F R unit) : M F R unit :=
  range_from s 0 (s_len s) body.

(** [for _, v := range l { body }] over a value that nothing writes. *)
Fixpoint for_each (l : list string) (body : string -> M F R unit) : M F R unit :=
  match l with
  | [] => skip
  | v :: l' => body v;; for_each l' body
  end.

Definition when (b : bool) (m : M F R unit) : M F R unit :=
  if b then m else skip.

End Statements.

Context (sys : Sys).

Definition run_deferred {F} (d : deferred) (st : state F) : state F :=
  match d with
  | DeferRemove name =>
      State (heap st) (config st) (frame st) (defers st)
            (os_Remove sys name (world st)) (trace st ++ [EvRemove name])
  | DeferClose file =>
      State (heap st) (config st) (frame st) (defers st)
            (file_Close sys file (world st)) (trace st ++ [EvClose file])
  end.

(** The deferred calls run when the method leaves, latest first. *)
Fixpoint run_defers {F} (ds : list deferred) (st : state F) : state F :=
  match ds with
  | [] => st
  | d :: ds' => run_defers ds' (run_deferred d st)
  end.

(** A method call: the body runs in a fresh frame up to its [return] (or
    a panic), then the deferred calls run. [None] stands for a panic. *)
Definition call {F R} (locals : F) (body : M F R unit) (st : state ())
  : option R * state () :=
  let '(o, st') := body (State (heap st) (config st) locals [] (world st) (trace st)) in
  let st'' := run_defers (defers st') st' in
  (match o with Return r => Some r | _ => None end,
   State (heap st'') (config st'') () [] (world st'') (trace st'')).


(* =================================================================== *)
(** ** [func (p *PostProcessor) Configure(raws ...interface{}) error]    *)
(* =================================================================== *)

(** The local [errs *packer.MultiError], nil at first. *)
Record ConfigureLocals := { errs : option (list string) }.

Definition errs_append (e : string) : M ConfigureLocals (option error) unit :=
  assign (fun l => {| errs := MultiErrorAppend (errs l) e |}).

Definition decode (raws : list Raw) : M ConfigureLocals (option error) (option string) :=
  fun st => let '(err, (c, h)) := config_Decode sys raws (config st) (heap st) in
            (Next err, State h c (frame st) (defers st) (world st) (trace st)).

(** The replacement for a single quote: ['"'"'] (quote, double quote,
    quote, double quote, quote). *)
Definition quote_escape : string := Strings.bytes [39; 34; 39; 34; 39].

(** The check of one entry of [p.config.Vars] (the body of the last
    loop): [vs := strings.SplitN(kv, "=", 2)], an error when
    [len(vs) != 2 || vs[0] == ""], otherwise the entry is rewritten in
    place with its single quotes replaced. *)
Definition check_var (idx : nat) (kv : string) : M ConfigureLocals (option error) unit :=
  match Strings.SplitN kv "=" 2 with
  | [k; v] =>
      if String.eqb k "" then
        errs_append ("Environment variable not in format 'key=value': " +:+ kv)
      else
        let v' := Strings.Replace v "'" quote_escape (-1) in
        cfg ← p_config;
        index_assign (Vars cfg) idx (k +:+ "=" +:+ v')
  | _ => errs_append ("Environment variable not in format 'key=value': " +:+ kv)
  end.

(** The check of one script path (the body of the loop before). *)
Definition check_script (_ : nat) (path : string) : M ConfigureLocals (option error) unit :=
  err ← syscall (os_Stat sys path) (EvStat path);
  match err with
  | Some e => errs_append ("Bad script '" +:+ path +:+ "': " +:+ e)
  | None => skip
  end.

Definition Configure_body (raws : list Raw) : M ConfigureLocals (option error) unit :=
  err ← decode raws;
  match err with
  | Some e => return_ (Some (errorString e))
  | None => skip
  end;;
  cfg ← p_config;
  when (negb (is_nil (Inline cfg)) && (s_len (Inline cfg) =? 0))
    (assign_config (set_Inline nil_slice));;
  cfg ← p_config;
  when (String.eqb (InlineShebang cfg) "")
    (assign_config (set_InlineShebang "/bin/sh -e"));;
  cfg ← p_config;
  when (is_nil (Scripts cfg))
    (s ← on_heap (make 0); assign_config (set_Scripts s));;
  cfg ← p_config;
  when (is_nil (Vars cfg))
    (s ← on_heap (make 0); assign_config (set_Vars s));;
  cfg ← p_config;
  when (negb (String.eqb (Script cfg) "") && (0 <? s_len (Scripts cfg)))
    (errs_append "Only one of script or scripts can be specified.");;
  cfg ← p_config;
  when (negb (String.eqb (Script cfg) ""))
    (s ← on_heap (literal [Script cfg]); assign_config (set_Scripts s));;
  cfg ← p_config;
  (if (s_len (Scripts cfg) =? 0) && is_nil (Inline cfg) then
     errs_append "Either a script file or inline script must be specified."
   else if (0 <? s_len (Scripts cfg)) && negb (is_nil (Inline cfg)) then
     errs_append "Only a script file or an inline script can be specified, not both."
   else skip);;
  cfg ← p_config;
  for_range (Scripts cfg) check_script;;
  cfg ← p_config;
  for_range (Vars cfg) check_var;;
  l ← local;
  match errs l with
  | Some (e :: es) => return_ (Some (MultiError (e :: es)))
  | _ => return_ None
  end.

Definition Configure (raws : list Raw) (st : state ()) : option (option error) * state () :=
  call {| errs := None |} (Configure_body raws) st.

(* =================================================================== *)
(** ** [func (p *PostProcessor) PostProcess(ui, artifact)]               *)
(* =================================================================== *)

(** The locals that are assigned more than once or shared by the loops:
    the slices [scripts] and [envVars] and the contents of the two
    [bytes.Buffer]s. *)
Record PostProcessLocals := {
  scripts : slice;
  envVars : slice;
  stdout : string;
  stderr : string }.

Definition set_scripts (s : slice) (l : PostProcessLocals) : PostProcessLocals :=
  {| scripts := s; envVars := envVars l; stdout := stdout l; stderr := stderr l |}.
Definition set_envVars (s : slice) (l : PostProcessLocals) : PostProcessLocals :=
  {| scripts := scripts l; envVars := s; stdout := stdout l; stderr := stderr l |}.
Definition set_stdout (b : string) (l : PostProcessLocals) : PostProcessLocals :=
  {| scripts := scripts l; envVars := envVars l; stdout := b; stderr := stderr l |}.
Definition set_stderr (b : string) (l : PostProcessLocals) : PostProcessLocals :=
  {| scripts := scripts l; envVars := envVars l; stdout := stdout l; stderr := b |}.

(** The locals before their declarations run: Go's zero values. *)
Definition zero_locals : PostProcessLocals :=
  {| scripts := nil_slice; envVars := nil_slice; stdout := ""; stderr := "" |}.

Definition nl : string := Strings.bytes [10].

Section PostProcess.
Context {A : Type} `{Artifact A}.

Abbreviation result := (option A * bool * option error)%type.
Abbreviation PP := (M PostProcessLocals result).

Definition failed {B} (msg : string) : PP B :=
  return_ (None, false, Some (errorString msg)).

(** Lines 321-345: the inline commands become a temporary script. *)
Definition inline_script : PP unit :=
  cfg ← p_config;
  when (negb (is_nil (Inline cfg)))
    (r ← syscall (ioutil_TempFile sys "" "packer-shell") (EvTempFile "" "packer-shell");
     match r with
     | inr err => failed ("Error preparing shell script: " +:+ err)
     | inl tf =>
         defer (DeferRemove tf);;
         l ← local;
         s ← on_heap (append (scripts l) [tf]);
         assign (set_scripts s);;
         cfg ← p_config;
         let shebang := "#!" +:+ InlineShebang cfg +:+ nl in
         syscall (bufio_WriteString sys tf shebang) (EvWriteString tf shebang);;
         cfg ← p_config;
         for_range (Inline cfg) (fun _ command =>
           err ← syscall (bufio_WriteString sys tf (command +:+ nl))
                         (EvWriteString tf (command +:+ nl));
           match err with
           | Some e => failed ("Error preparing shell script: " +:+ e)
           | None => skip
           end);;
         err ← syscall (bufio_Flush sys tf) (EvFlush tf);
         match err with
         | Some e => failed ("Error preparing shell script: " +:+ e)
         | None => skip
         end;;
         sysproc (file_Close sys tf) (EvClose tf)
     end).

(** Lines 348-351. *)
Definition build_envVars : PP unit :=
  cfg ← p_config;
  e ← on_heap (make (s_len (Vars cfg) + 2));
  assign (set_envVars e);;
  cfg ← p_config;
  l ← local;
  index_assign (envVars l) 0 ("PACKER_BUILD_NAME='" +:+ PackerBuildName cfg +:+ "'");;
  cfg ← p_config;
  l ← local;
  index_assign (envVars l) 1 ("PACKER_BUILDER_TYPE='" +:+ PackerBuilderType cfg +:+ "'");;
  cfg ← p_config;
  l ← local;
  dst ← slice_from (envVars l) 2;
  on_heap (copy dst (Vars cfg));;
  skip.

(** [strings.Join([]string{path, art}, " ")] *)
Definition command_of (path art : string) : string :=
  Strings.Join [path; art] " ".

(** Lines 359-388: one script on one artifact. The slice that
    [append(os.Environ(), envVars...)] builds is new at every pass and
    reaches nothing but [cmd.Env]; it is kept as the list of its
    elements. The process output lands behind what the buffers
    hold. *)
Definition run_script (ui : Ui) (art : string) (_ : nat) (path : string) : PP unit :=
  assign (set_stdout "");;
  assign (set_stderr "");;
  sysproc (ui_Say ui ("Processing with shell script: " +:+ path))
          (EvSay ("Processing with shell script: " +:+ path));;
  log_Printf ("Opening " +:+ path +:+ " for reading");;
  err ← syscall (os_Open sys path) (EvOpen path);
  match err with
  | Some e => failed ("Error opening shell script: " +:+ e)
  | None => skip
  end;;
  defer (DeferClose path);;
  sysproc (ui_Message ui ("Executing script with artifact: " +:+ art))
          (EvMessage ("Executing script with artifact: " +:+ art));;
  let command := command_of path art in
  log_Printf ("Executing shell command: " +:+ command);;
  ambient ← syscall (fun w => (os_Environ sys w, w)) EvEnviron;
  l ← local;
  explicit ← spread (envVars l);
  let env := ambient ++ explicit in
  res ← syscall (cmd_Run sys "sh" ["-c"; command] env) (EvRun "sh" ["-c"; command] env);
  assign (fun l => set_stdout (stdout l +:+ r_stdout res) l);;
  assign (fun l => set_stderr (stderr l +:+ r_stderr res) l);;
  l ← local;
  let stdoutString := Strings.TrimSpace (stdout l) in
  let stderrString := Strings.TrimSpace (stderr l) in
  match r_err res with
  | Some _ => failed ("Error executing script: " +:+ stderrString)
  | None => skip
  end;;
  log_Printf ("stdout: " +:+ stdoutString);;
  log_Printf ("stderr: " +:+ stderrString).

Definition PostProcess_body (ui : Ui) (artifact : A) : PP unit :=
  cfg ← p_config;
  let keep := KeepInputArtifact cfg in
  cfg ← p_config;
  s ← on_heap (make (s_len (Scripts cfg)));
  assign (set_scripts s);;
  cfg ← p_config;
  l ← local;
  on_heap (copy (scripts l) (Scripts cfg));;
  inline_script;;
  build_envVars;;
  let files := Files artifact in
  for_each files (fun art =>
    l ← local;
    for_range (scripts l) (run_script ui art));;
  return_ (Some artifact, keep, None).

Definition PostProcess (ui : Ui) (artifact : A) (st : state ())
  : option result * state () :=
  call zero_locals (PostProcess_body ui artifact) st.

End PostProcess.

End World.

Arguments State {W F}.
Arguments heap {W F}.
Arguments config {W F}.
Arguments frame {W F}.
Arguments defers {W F}.
Arguments world {W F}.
Arguments trace {W F}.
Arguments Next {R A}.
Arguments Return {R A}.
Arguments Panic {R A}.


(* ===================================================================== *)
(** ** Reading a run of [PostProcess] off the trace                       *)
(* ===================================================================== *)

(** The (artifact, script) pairs in the order of the nested loops:
    artifacts outside, scripts inside. *)
Definition cross (files scr : list string) : list (string * string) :=
  art ← files; path ← scr; [(art, path)].

(** One pass of the inner loop that reached [cmd.Run]: the artifact, the
    script, what [os.Environ] returned and what the process left. *)
Record invocation := {
  i_art : string;
  i_path : string;
  i_ambient : list string;
  i_res : RunResult }.

Definition pair_of (i : invocation) : string * string := (i_art i, i_path i).

(** The calls of a pass up to and including [cmd.Run], when the script
    could be opened; [explicit] is what [envVars] holds. *)
Definition invocation_events (explicit : list string) (i : invocation) : list event :=
  [ EvSay ("Processing with shell script: " +:+ i_path i);
    EvLog ("Opening " +:+ i_path i +:+ " for reading");
    EvOpen (i_path i) None;
    EvMessage ("Executing script with artifact: " +:+ i_art i);
    EvLog ("Executing shell command: " +:+ command_of (i_path i) (i_art i));
    EvEnviron (i_ambient i);
    EvRun "sh" ["-c"; command_of (i_path i) (i_art i)] (i_ambient i ++ explicit) (i_res i) ].

(** The calls of a pass whose process exited with status 0. *)
Definition success_events (explicit : list string) (i : invocation) : list event :=
  invocation_events explicit i
  ++ [ EvLog ("stdout: " +:+ Strings.TrimSpace (r_stdout (i_res i)));
       EvLog ("stderr: " +:+ Strings.TrimSpace (r_stderr (i_res i))) ].

(** The calls of a pass whose script could not be opened. *)
Definition open_failure_events (path e : string) : list event :=
  [ EvSay ("Processing with shell script: " +:+ path);
    EvLog ("Opening " +:+ path +:+ " for reading");
    EvOpen path (Some e) ].

(** How the loops ended. *)
Inductive ending :=
| Completed
| OpenFailed (art path e : string)
| RunFailed (i : invocation).

(** The passes that succeeded, in order, and the ending. *)
Record run_log := {
  done_passes : list invocation;
  fin : ending }.

Definition ending_events (explicit : list string) (f : ending) : list event :=
  match f with
  | Completed => []
  | OpenFailed _ path e => open_failure_events path e
  | RunFailed i => invocation_events explicit i
  end.

Definition ending_pairs (f : ending) : list (string * string) :=
  match f with
  | Completed => []
  | OpenFailed art path _ => [(art, path)]
  | RunFailed i => [pair_of i]
  end.

Definition ending_error (f : ending) : option error :=
  match f with
  | Completed => None
  | OpenFailed _ _ e => Some (errorString ("Error opening shell script: " +:+ e))
  | RunFailed i =>
      Some (errorString ("Error executing script: " +:+ Strings.TrimSpace (r_stderr (i_res i))))
  end.

(** The files the ending leaves to close. *)
Definition ending_opened (f : ending) : list string :=
  match f with
  | RunFailed i => [i_path i]
  | _ => []
  end.

Definition log_events (explicit : list string) (lg : run_log) : list event :=
  (done_passes lg ≫= success_events explicit) ++ ending_events explicit (fin lg).

Definition log_pairs (lg : run_log) : list (string * string) :=
  map pair_of (done_passes lg) ++ ending_pairs (fin lg).

(** The files opened during the loops, in order. *)
Definition log_opened (lg : run_log) : list string :=
  map i_path (done_passes lg) ++ ending_opened (fin lg).

Definition log_ok (lg : run_log) : Prop :=
  Forall (fun i => r_err (i_res i) = None) (done_passes lg)
  ∧ match fin lg with RunFailed i => r_err (i_res i) ≠ None | _ => True end.

(** The commands handed to [exec.Command], in order. *)
Definition runs (evs : list event) : list (string * list string) :=
  ev ← evs; match ev with EvRun name args _ _ => [(name, args)] | _ => [] end.

(** What [PostProcess] runs for a pair. *)
Definition sh_c (p : string * string) : string * list string :=
  ("sh", ["-c"; command_of p.2 p.1]).

(** The names of the temporary files created. *)
Definition temp_files (evs : list event) : list string :=
  ev ← evs; match ev with EvTempFile _ _ (inl name) => [name] | _ => [] end.

(** The calls to [ioutil.TempFile]. *)
Definition temp_calls (evs : list event) : nat :=
  length (ev ← evs; match ev with EvTempFile _ _ _ => [ev] | _ => [] end).

(** The bytes handed to the writer of [file], in order. *)
Definition written (file : string) (evs : list event) : string :=
  foldr String.append ""
        (ev ← evs;
         match ev with
         | EvWriteString f data _ => if String.eqb f file then [data] else []
         | _ => []
         end).

(** The nested loops as one loop over the pairs. *)
Fixpoint for_pairs {W F R} (pairs : list (string * string))
    (body : string -> string -> @M W F R unit) : @M W F R unit :=
  match pairs with
  | [] => skip
  | (art, path) :: rest => body art path;; for_pairs rest body
  end.

(** The events a call added to the trace. *)
Definition added {W F G} (st : @state W F) (st' : @state W G) : list event :=
  drop (length (trace st)) (trace st').

(** The slices of the configuration point into the heap. *)
Definition config_ok (h : Slices.heap) (c : Config) : bool :=
  slice_ok h (Inline c) && slice_ok h (Scripts c) && slice_ok h (Vars c).

(** What a pass of the loops leaves alone. *)
Definition unchanged {W} (st st' : @state W PostProcessLocals) : Prop :=
  heap st' = heap st ∧ config st' = config st
  ∧ scripts (frame st') = scripts (frame st)
  ∧ envVars (frame st') = envVars (frame st).

(** A statement of [PostProcess] goes on, or returns with an error. *)
Definition outcome_of {A} (e : option error)
  : outcome (option A * bool * option error) unit :=
  match e with
  | None => Next ()
  | Some e => Return (None, false, Some e)
  end.

(** The outcome of a statement that ended the way the log says. *)
Definition log_outcome {A} (lg : run_log)
  : outcome (option A * bool * option error) unit :=
  outcome_of (ending_error (fin lg)).

Definition log_app (lg1 lg2 : run_log) : run_log :=
  {| done_passes := done_passes lg1 ++ done_passes lg2; fin := fin lg2 |}.

(** The arrays numbered below [n] are the same in both heaps. *)
Definition agree (n : nat) (h h' : Slices.heap) : Prop :=
  ∀ l, l < n → h' !! l = h !! l.

(** The slice points below [n] (or nowhere). *)
Definition below (n : nat) (s : slice) : Prop :=
  ∀ l, s_arr s = Some l → l < n.

(** The slice points at or above [n] (or nowhere). *)
Definition above (n : nat) (s : slice) : Prop :=
  ∀ l, s_arr s = Some l → n ≤ l.

(** How lines 321-345 went: no inline commands; [ioutil.TempFile] failed;
    the file [tf] was created and the write of a command failed after
    those of [written]; the flush failed; the script was written and
    closed. [r0] is the ignored result of writing the shebang line. *)
Inductive prep :=
| NoInline
| TempFileFailed (e : string)
| WriteFailed (tf : string) (r0 : option string) (written : list string) (cmd e : string)
| FlushFailed (tf : string) (r0 : option string) (e : string)
| Prepared (tf : string) (r0 : option string).

Definition write_events (tf : string) (cmds : list string) : list event :=
  map (fun c => EvWriteString tf (c +:+ nl) None) cmds.

Definition create_events (tf shebang : string) (r0 : option string) : list event :=
  [ EvTempFile "" "packer-shell" (inl tf);
    EvWriteString tf ("#!" +:+ shebang +:+ nl) r0 ].

Definition prep_events (shebang : string) (inline : list string) (p : prep) : list event :=
  match p with
  | NoInline => []
  | TempFileFailed e => [EvTempFile "" "packer-shell" (inr e)]
  | WriteFailed tf r0 written cmd e =>
      create_events tf shebang r0 ++ write_events tf written
      ++ [EvWriteString tf (cmd +:+ nl) (Some e)]
  | FlushFailed tf r0 e =>
      create_events tf shebang r0 ++ write_events tf inline ++ [EvFlush tf (Some e)]
  | Prepared tf r0 =>
      create_events tf shebang r0 ++ write_events tf inline ++ [EvFlush tf None; EvClose tf]
  end.

Definition prep_error (p : prep) : option error :=
  match p with
  | NoInline | Prepared _ _ => None
  | TempFileFailed e | WriteFailed _ _ _ _ e | FlushFailed _ _ e =>
      Some (errorString ("Error preparing shell script: " +:+ e))
  end.

(** The temporary file, once created. *)
Definition prep_temp (p : prep) : list string :=
  match p with
  | NoInline | TempFileFailed _ => []
  | WriteFailed tf _ _ _ _ | FlushFailed tf _ _ | Prepared tf _ => [tf]
  end.

Definition prep_ok (inline : list string) (p : prep) : Prop :=
  match p with
  | WriteFailed _ _ written cmd _ => (written ++ [cmd]) `prefix_of` inline
  | _ => True
  end.

(** What a statement that only talks to the world leaves alone. *)
Definition same_memory {W F} (st st' : @state W F) : Prop :=
  heap st' = heap st ∧ config st' = config st ∧ frame st' = frame st
  ∧ defers st' = defers st.

(** The two derived variables, then the entries of [p.config.Vars]. *)
Definition explicit_env (c : Config) (vars : list string) : list string :=
  [ "PACKER_BUILD_NAME='" +:+ PackerBuildName c +:+ "'";
    "PACKER_BUILDER_TYPE='" +:+ PackerBuilderType c +:+ "'" ] ++ vars.

(** What [PostProcess] returns after a preparation [p] and loops that
    went as [lg] says. *)
Definition final_result {A} (artifact : A) (keep : bool) (p : prep) (lg : run_log)
  : option A * bool * option error :=
  match prep_error p with
  | Some e => (None, false, Some e)
  | None =>
      match ending_error (fin lg) with
      | Some e => (None, false, Some e)
      | None => (Some artifact, keep, None)
      end
  end.

(** The calls made by the deferred calls: the opened scripts are closed,
    latest first, then the temporary file is removed. *)
Definition cleanup_events (lg : run_log) (p : prep) : list event :=
  map EvClose (reverse (log_opened lg)) ++ map EvRemove (prep_temp p).

Definition empty_log : run_log := {| done_passes := []; fin := Completed |}.

(** The call a deferred call makes. *)
Definition deferred_event (d : deferred) : event :=
  match d with
  | DeferRemove name => EvRemove name
  | DeferClose file => EvClose file
  end.

(* ===================================================================== *)
(** ** Reading a run of [Configure]                                       *)
(* ===================================================================== *)

(** An entry of [environment_vars] is [key=value] with a non-empty key. *)
Definition var_ok (kv : string) : bool :=
  match Strings.SplitN kv "=" 2 with
  | [k; _] => negb (String.eqb k "")
  | _ => false
  end.

(** What the last loop of [Configure] leaves in the place of an entry. *)
Definition normalize_var (kv : string) : string :=
  match Strings.SplitN kv "=" 2 with
  | [k; v] =>
      if String.eqb k "" then kv
      else k +:+ "=" +:+ Strings.Replace v "'" quote_escape (-1)
  | _ => kv
  end.

Definition var_error (kv : string) : string :=
  "Environment variable not in format 'key=value': " +:+ kv.

Definition var_errors (vars : list string) : list string :=
  kv ← vars; if var_ok kv then [] else [var_error kv].

Definition script_error (path cause : string) : string :=
  "Bad script '" +:+ path +:+ "': " +:+ cause.

(** The errors for the results of [os.Stat], path by path. *)
Definition script_errors (stats : list (string * option string)) : list string :=
  st ← stats; match st.2 with Some e => [script_error st.1 e] | None => [] end.

Definition stat_events (stats : list (string * option string)) : list event :=
  map (fun st => EvStat st.1 st.2) stats.

(** Inline commands were given: the list is there and not empty. *)
Definition inline_given (c : Config) : bool :=
  negb (is_nil (Inline c)) && negb (s_len (Inline c) =? 0).

(** The script sequence after the single-script field is folded in. *)
Definition resolved_scripts (h : Slices.heap) (c : Config) : list string :=
  if String.eqb (Script c) "" then elems h (Scripts c) else [Script c].

Definition err_one_of : string := "Only one of script or scripts can be specified.".
Definition err_missing : string :=
  "Either a script file or inline script must be specified.".
Definition err_both : string :=
  "Only a script file or an inline script can be specified, not both.".

Definition field_errors (c : Config) : list string :=
  if negb (String.eqb (Script c) "") && (0 <? s_len (Scripts c))
  then [err_one_of] else [].

Definition kind_errors (scr : list string) (inline : bool) : list string :=
  match scr, inline with
  | [], false => [err_missing]
  | _ :: _, true => [err_both]
  | _, _ => []
  end.

(** The aggregated list, in the order [Configure] appends to it. *)
Definition validation_errors (h : Slices.heap) (c : Config)
    (stats : list (string * option string)) : list string :=
  field_errors c
  ++ kind_errors (resolved_scripts h c) (inline_given c)
  ++ script_errors stats
  ++ var_errors (elems h (Vars c)).

(** What [Configure] returns for an aggregated list. *)
Definition errors_result (es : list string) : option error :=
  match es with
  | [] => None
  | _ :: _ => Some (MultiError es)
  end.

(** The [Errors] of a possibly nil [*MultiError]. *)
Definition errs_list (o : option (list string)) : list string := default [] o.

(** What the normalisation steps of [Configure] keep of the decoded
    configuration [c1] in the heap [h1]. *)
Definition cfg_tracks (h1 : Slices.heap) (c1 : Config) (h : Slices.heap) (c : Config) : Prop :=
  agree (length h1) h1 h ∧ length h1 ≤ length h
  ∧ config_ok h c = true
  ∧ Script c = Script c1
  ∧ elems h (Vars c) = elems h1 (Vars c1)
  ∧ KeepInputArtifact c = KeepInputArtifact c1
  ∧ PackerBuildName c = PackerBuildName c1
  ∧ PackerBuilderType c = PackerBuilderType c1.

(* ===================================================================== *)
(** ** What the properties speak about                                    *)
(* ===================================================================== *)

(** [strings.Contains] *)
Definition Contains (s substr : string) : bool :=
  match Strings.Index s substr with
  | Some _ => true
  | None => false
  end.

(** An entry [KEY=VALUE] of an environment. *)
Definition env_key (kv : string) : string :=
  match Strings.Index kv "=" with
  | Some i => Strings.upto i kv
  | None => kv
  end.

Definition env_value (kv : string) : string :=
  match Strings.Index kv "=" with
  | Some i => Strings.skip (S i) kv
  | None => EmptyString
  end.

(** The value a process finds for [key] in the environment it was given,
    the last entry winning over the entries before it. *)
Fixpoint getenv (key : string) (env : list string) : option string :=
  match env with
  | [] => None
  | kv :: rest =>
      match getenv key rest with
      | Some v => Some v
      | None => if String.eqb (env_key kv) key then Some (env_value kv) else None
      end
  end.

(** The text of a script: its lines, one after the other. *)
Definition script_text (shebang : string) (inline : list string) : string :=
  foldr String.append EmptyString
        (("#!" +:+ shebang +:+ nl) :: map (fun c => c +:+ nl) inline).

(** A [cmd.Run] that returned an error. *)
Definition failed_run (ev : event) : bool :=
  match ev with
  | EvRun _ _ _ res => match r_err res with Some _ => true | None => false end
  | _ => false
  end.

(** The environments handed to the processes, in order. *)
Definition run_envs (evs : list event) : list (list string) :=
  ev ← evs; match ev with EvRun _ _ env _ => [env] | _ => [] end.

(** What the processes left, in order. *)
Definition run_results (evs : list event) : list RunResult :=
  ev ← evs; match ev with EvRun _ _ _ res => [res] | _ => [] end.

(** The files removed, in order. *)
Definition removed (evs : list event) : list string :=
  ev ← evs; match ev with EvRemove name => [name] | _ => [] end.

(** The pairs whose process was started. *)
Definition log_ran (lg : run_log) : list (string * string) :=
  map pair_of (done_passes lg)
  ++ match fin lg with RunFailed i => [pair_of i] | _ => [] end.


(* ===================================================================== *)
(** ** A small world to run the post-processor in                         *)
(* ===================================================================== *)

Module Demo.

(** The raw configuration: what the template gives for each option. *)
Record RawConfig := {
  raw_inline : option (list string);
  raw_inline_shebang : string;
  raw_script : string;
  raw_scripts : option (list string);
  raw_environment_vars : option (list string);
  raw_keep_input_artifact : bool;
  raw_build_name : string;
  raw_builder_type : string }.

Definition store_slice (o : option (list string)) (h : Slices.heap) : slice * Slices.heap :=
  match o with
  | None => (nil_slice, h)
  | Some vs => literal vs h
  end.

(** A decoder that takes one raw configuration and allocates its lists. *)
Definition decode (raws : list RawConfig) (c : Config) (h : Slices.heap)
  : option string * (Config * Slices.heap) :=
  match raws with
  | [r] =>
      let '(i, h1) := store_slice (raw_inline r) h in
      let '(s, h2) := store_slice (raw_scripts r) h1 in
      let '(v, h3) := store_slice (raw_environment_vars r) h2 in
      (None,
       ({| PackerBuildName := raw_build_name r;
           PackerBuilderType := raw_builder_type r;
           OutputPath := OutputPath c;
           KeepInputArtifact := raw_keep_input_artifact r;
           Inline := i; InlineShebang := raw_inline_shebang r;
           Script := raw_script r; Scripts := s; Vars := v |}, h3))
  | _ => (Some "expected one raw configuration", (c, h))
  end.

Definition among (x : string) (l : list string) : bool := existsb (String.eqb x) l.

Definition temp_name : string := "/tmp/packer-shell042".

(** The world is the list of the files that exist; the commands of [bad]
    exit with status 1 after printing a line on their standard error. *)
Definition sys (bad : list string) : @Sys (list string) RawConfig :=
  {| config_Decode := decode;
     os_Stat := fun p w =>
       (if among p w then None else Some "no such file or directory", w);
     ioutil_TempFile := fun _ _ w => (inl temp_name, temp_name :: w);
     bufio_WriteString := fun _ _ w => (None, w);
     bufio_Flush := fun _ w => (None, w);
     file_Close := fun _ w => w;
     os_Remove := fun p w => List.filter (fun q => negb (String.eqb p q)) w;
     os_Open := fun p w =>
       (if among p w then None else Some "no such file or directory", w);
     os_Environ := fun _ => ["HOME=/root"; "NAME=ambient"];
     cmd_Run := fun _ args _ w =>
       (if among (List.last args EmptyString) bad
        then {| r_stdout := EmptyString; r_stderr := "boom" +:+ nl;
                r_err := Some "exit status 1" |}
        else {| r_stdout := "done" +:+ nl; r_stderr := EmptyString; r_err := None |},
        w) |}.

Definition ui : @Ui (list string) :=
  {| ui_Say := fun _ w => w; ui_Message := fun _ w => w |}.

(** An artifact that is the list of its files. *)
#[global] Instance files_artifact : Artifact (list string) := {| Files := fun l => l |}.

Definition zero_config : Config :=
  {| PackerBuildName := EmptyString; PackerBuilderType := EmptyString;
     OutputPath := EmptyString; KeepInputArtifact := false;
     Inline := nil_slice; InlineShebang := EmptyString; Script := EmptyString;
     Scripts := nil_slice; Vars := nil_slice |}.

(** A new [PostProcessor] in a world with the scripts [S1] and [S2]. *)
Definition boot : @state (list string) () :=
  State [] zero_config () [] ["S1"; "S2"; "s.sh"] [].

(** [scripts = [S1, S2]], [environment_vars = [NAME=O'Brien]]. *)
Definition two_scripts : RawConfig :=
  {| raw_inline := None; raw_inline_shebang := EmptyString; raw_script := EmptyString;
     raw_scripts := Some ["S1"; "S2"];
     raw_environment_vars := Some ["NAME=O'Brien"];
     raw_keep_input_artifact := true;
     raw_build_name := "b"; raw_builder_type := "t" |}.

(** [inline = [echo hi]]. *)
Definition inline_only : RawConfig :=
  {| raw_inline := Some ["echo hi"]; raw_inline_shebang := EmptyString;
     raw_script := EmptyString; raw_scripts := None;
     raw_environment_vars := None;
     raw_keep_input_artifact := false;
     raw_build_name := "b"; raw_builder_type := "t" |}.

(** [script = s.sh], for an artifact whose path has a space. *)
Definition one_script : RawConfig :=
  {| raw_inline := None; raw_inline_shebang := EmptyString; raw_script := "s.sh";
     raw_scripts := None; raw_environment_vars := None;
     raw_keep_input_artifact := false;
     raw_build_name := "b"; raw_builder_type := "t" |}.

(** A script that is missing and two malformed variables. *)
Definition broken : RawConfig :=
  {| raw_inline := None; raw_inline_shebang := EmptyString; raw_script := EmptyString;
     raw_scripts := Some ["S1"; "missing.sh"];
     raw_environment_vars := Some ["A=1"; "novalue"; "=nokey"];
     raw_keep_input_artifact := false;
     raw_build_name := "b"; raw_builder_type := "t" |}.

(** The state after [Configure] on one raw configuration. *)
Definition configured (bad : list string) (r : RawConfig) : @state (list string) () :=
  (Configure (sys bad) [r] boot).2.

(** What the decoder gives for one raw configuration. *)
Definition decoded (r : RawConfig) : Config * Slices.heap :=
  (decode [r] zero_config []).2.

Definition ready_scripts : @state (list string) () := configured [] two_scripts.
Definition ready_inline : @state (list string) () := configured [] inline_only.
Definition ready_single : @state (list string) () := configured [] one_script.

(** What a failing command leaves. *)
Definition boom : RunResult :=
  {| r_stdout := EmptyString; r_stderr := "boom" +:+ nl; r_err := Some "exit status 1" |}.

(** [NAME=O'Brien] after [Configure]. *)
Definition escaped_value : string := "O" +:+ quote_escape +:+ "Brien".

End Demo.

(* ===================================================================== *)
(** ** Running the statements in a proof                                  *)
(* ===================================================================== *)

(** Unfolds the statements that only pass the state on, so that a proof
    reaches the next call into the world. *)
Ltac run_monad :=
  cbv beta iota zeta delta
    [mbind M_bind mret M_ret skip when return_ failed panic p_config local
     assign assign_config on_heap syscall sysproc log_Printf defer spread
     set_stdout set_stderr set_scripts set_envVars];
  cbn [heap config frame defers world trace scripts envVars stdout stderr fst snd].

Ltac run_monad_in H :=
  cbv beta iota zeta delta
    [mbind M_bind mret M_ret skip when return_ failed panic p_config local
     assign assign_config on_heap syscall sysproc log_Printf defer spread
     set_stdout set_stderr set_scripts set_envVars] in H;
  cbn [heap config frame defers world trace scripts envVars stdout stderr fst snd] in H.


(* ===================================================================== *)
(** ** More readings of a trace, and worlds where calls fail              *)
(* ===================================================================== *)

(** The scripts that [os.Open] opened, in order. *)
Definition opened (evs : list event) : list string :=
  ev ← evs; match ev with EvOpen name None => [name] | _ => [] end.

(** The files closed, in order. *)
Definition closed (evs : list event) : list string :=
  ev ← evs; match ev with EvClose file => [file] | _ => [] end.

(** [scripts] and [environment_vars] have arrays of their own. *)
Definition apart (c : Config) : Prop :=
  ∀ l, s_arr (Scripts c) = Some l → s_arr (Vars c) ≠ Some l.

Module Faults.

(** The system of [Demo] with another [Flush], [TempFile] and decoder. *)
Definition sys (flush : option string) (temp : string + string)
    (dec : option string) : @Sys (list string) Demo.RawConfig :=
  {| config_Decode := fun raws c h =>
       match dec with
       | Some e => (Some e, (c, h))
       | None => Demo.decode raws c h
       end;
     os_Stat := os_Stat (Demo.sys []);
     ioutil_TempFile := fun _ _ w =>
       (temp, match temp with inl name => name :: w | inr _ => w end);
     bufio_WriteString := bufio_WriteString (Demo.sys []);
     bufio_Flush := fun _ w => (flush, w);
     file_Close := file_Close (Demo.sys []);
     os_Remove := os_Remove (Demo.sys []);
     os_Open := os_Open (Demo.sys []);
     os_Environ := os_Environ (Demo.sys []);
     cmd_Run := cmd_Run (Demo.sys []) |}.

(** The disk is full when the temporary script is flushed. *)
Definition disk_full : @Sys (list string) Demo.RawConfig :=
  sys (Some "no space left on device") (inl Demo.temp_name) None.

(** The raw configuration has a key that [Config] does not know. *)
Definition unknown_key : @Sys (list string) Demo.RawConfig :=
  sys None (inl Demo.temp_name) (Some "unknown configuration key").

(** [Demo.ready_scripts] after the script [S1] was deleted. *)
Definition lost_script : @state (list string) () :=
  State (heap Demo.ready_scripts) (config Demo.ready_scripts) () [] ["S2"] [].

(** [script = s.sh] together with [scripts = [S1, S2]]. *)
Definition script_and_scripts : Demo.RawConfig :=
  {| Demo.raw_inline := None; Demo.raw_inline_shebang := EmptyString;
     Demo.raw_script := "s.sh"; Demo.raw_scripts := Some ["S1"; "S2"];
     Demo.raw_environment_vars := Some ["A=1"; "broken"];
     Demo.raw_keep_input_artifact := false;
     Demo.raw_build_name := "b"; Demo.raw_builder_type := "t" |}.

End Faults.

(* ===================================================================== *)
(** ** The first generation of the file: [ShellPostProcessor]             *)
(* ===================================================================== *)

(** Lines 20-184 of [shell/post-processor.go]: the type
    [ShellPostProcessor] with its own [Config], [Configure] and
    [PostProcess]. The receiver's field [p.cfg] travels in the frame of the
    method, beside the locals; the calls into the world, the heap, the
    deferred calls and the trace are those of [PostProcessor]. *)
Module ShellPostProcessor.

Record Config := {
  PackerBuildName : string;
  PackerBuilderType : string;
  Inline : slice;
  InlineShebang : string;
  Script : string;
  Vars : slice;
  Scripts : slice;
  TargetPath : string }.

Definition set_InlineShebang (v : string) (c : Config) : Config :=
  {| PackerBuildName := PackerBuildName c; PackerBuilderType := PackerBuilderType c;
     Inline := Inline c; InlineShebang := v; Script := Script c; Vars := Vars c;
     Scripts := Scripts c; TargetPath := TargetPath c |}.

Definition set_Scripts (v : slice) (c : Config) : Config :=
  {| PackerBuildName := PackerBuildName c; PackerBuilderType := PackerBuilderType c;
     Inline := Inline c; InlineShebang := InlineShebang c; Script := Script c;
     Vars := Vars c; Scripts := v; TargetPath := TargetPath c |}.

Definition set_Vars (v : slice) (c : Config) : Config :=
  {| PackerBuildName := PackerBuildName c; PackerBuilderType := PackerBuilderType c;
     Inline := Inline c; InlineShebang := InlineShebang c; Script := Script c;
     Vars := v; Scripts := Scripts c; TargetPath := TargetPath c |}.

Definition set_TargetPath (v : string) (c : Config) : Config :=
  {| PackerBuildName := PackerBuildName c; PackerBuilderType := PackerBuilderType c;
     Inline := Inline c; InlineShebang := InlineShebang c; Script := Script c;
     Vars := Vars c; Scripts := Scripts c; TargetPath := v |}.

(** The frame of a method of [p *ShellPostProcessor]: [p.cfg] and the
    local variables. *)
Record Method (L : Type) := Frame {
  cfg : Config;
  locals : L }.
Arguments Frame {L}.
Arguments cfg {L}.
Arguments locals {L}.

Section World.
Context {W Raw : Type}.

Section Statements.
Context {L R : Type}.

(** [p.cfg] *)
Definition p_cfg : @M W (Method L) R Config :=
  fun st => (Next (cfg (frame st)), st).

Definition assign_cfg (f : Config -> Config) : @M W (Method L) R unit :=
  assign (fun m => Frame (f (cfg m)) (locals m)).

Definition local_ : @M W (Method L) R L :=
  fun st => (Next (locals (frame st)), st).

Definition assign_local (f : L -> L) : @M W (Method L) R unit :=
  assign (fun m => Frame (cfg m) (f (locals m))).

End Statements.

(** The calls that leave the package are those of [Sys], but for the
    decoder, that fills a [Config] of this generation. *)
Context (sys : @Sys W Raw)
        (Decode : list Raw -> Config -> Slices.heap -> option string * (Config * Slices.heap)).

(** A method call on [p]: the body runs in a fresh frame that holds
    [p.cfg], then the deferred calls run; what [p.cfg] has become is
    returned with the result. *)
Definition call_method {L R} (c : Config) (l : L) (body : @M W (Method L) R unit)
    (st : @state W ()) : option R * Config * @state W () :=
  let '(o, st') := body (State (heap st) (config st) (Frame c l) [] (world st) (trace st)) in
  let st'' := run_defers sys (defers st') st' in
  (match o with Return r => Some r | _ => None end,
   cfg (frame st''),
   State (heap st'') (config st'') () [] (world st'') (trace st'')).

(* ------------------------------------------------------------------- *)
(** *** [func (p *ShellPostProcessor) Configure(raws ...interface{}) error] *)

Definition errs_append (e : string) : @M W (Method ConfigureLocals) (option error) unit :=
  assign_local (fun l => {| errs := MultiErrorAppend (errs l) e |}).

Definition decode (raws : list Raw)
  : @M W (Method ConfigureLocals) (option error) (option string) :=
  fun st => let '(err, (c, h)) := Decode raws (cfg (frame st)) (heap st) in
            (Next err, State h (config st) (Frame c (locals (frame st))) (defers st)
                             (world st) (trace st)).

(** Lines 95-100, the body of the loop. *)
Definition check_script (_ : nat) (path : string)
  : @M W (Method ConfigureLocals) (option error) unit :=
  err ← syscall (os_Stat sys path) (EvStat path);
  match err with
  | Some e => errs_append ("Bad script '" +:+ path +:+ "': " +:+ e)
  | None => skip
  end.

(** Lines 103-109, the body of the loop: the entry is checked and left
    as it is. *)
Definition check_var (_ : nat) (kv : string)
  : @M W (Method ConfigureLocals) (option error) unit :=
  match Strings.SplitN kv "=" 2 with
  | [k; _] =>
      if String.eqb k "" then
        errs_append ("Environment variable not in format 'key=value': " +:+ kv)
      else skip
  | _ => errs_append ("Environment variable not in format 'key=value': " +:+ kv)
  end.

Definition Configure_body (raws : list Raw)
  : @M W (Method ConfigureLocals) (option error) unit :=
  err ← decode raws;
  match err with
  | Some e => return_ (Some (errorString e))
  | None => skip
  end;;
  (* errs := new(packer.MultiError) *)
  assign_local (fun _ => {| errs := Some [] |});;
  c ← p_cfg;
  when (String.eqb (InlineShebang c) "") (assign_cfg (set_InlineShebang "/bin/sh"));;
  c ← p_cfg;
  when (is_nil (Scripts c)) (s ← on_heap (make 0); assign_cfg (set_Scripts s));;
  c ← p_cfg;
  when (is_nil (Vars c)) (s ← on_heap (make 0); assign_cfg (set_Vars s));;
  c ← p_cfg;
  when (negb (String.eqb (Script c) "") && (0 <? s_len (Scripts c)))
    (errs_append "Only one of script or scripts can be specified.");;
  c ← p_cfg;
  when (negb (String.eqb (Script c) ""))
    (s ← on_heap (literal [Script c]); assign_cfg (set_Scripts s));;
  c ← p_cfg;
  when (String.eqb (TargetPath c) "")
    (assign_cfg (set_TargetPath "packer_{{ .BuildName }}_{{.Provider}}"));;
  c ← p_cfg;
  (if (s_len (Scripts c) =? 0) && is_nil (Inline c) then
     errs_append "Either a script file or inline script must be specified."
   else if (0 <? s_len (Scripts c)) && negb (is_nil (Inline c)) then
     errs_append "Only a script file or an inline script can be specified, not both."
   else skip);;
  c ← p_cfg;
  for_range (Scripts c) check_script;;
  c ← p_cfg;
  for_range (Vars c) check_var;;
  l ← local_;
  match errs l with
  | Some (e :: es) => return_ (Some (MultiError (e :: es)))
  | _ => return_ None
  end.

Definition Configure (raws : list Raw) (c : Config) (st : @state W ())
  : option (option error) * Config * @state W () :=
  call_method c {| errs := None |} (Configure_body raws) st.

(* ------------------------------------------------------------------- *)
(** *** [func (p *ShellPostProcessor) PostProcess(ui, artifact)]         *)

Section PostProcess.
Context {A : Type} `{Artifact A}.

Definition failed {B} (msg : string)
  : @M W (Method PostProcessLocals) (option A * bool * option error) B :=
  return_ (None, false, Some (errorString msg)).

(** Lines 122-146. *)
Definition inline_script
  : @M W (Method PostProcessLocals) (option A * bool * option error) unit :=
  c ← p_cfg;
  when (negb (is_nil (Inline c)))
    (r ← syscall (ioutil_TempFile sys "" "packer-shell") (EvTempFile "" "packer-shell");
     match r with
     | inr err => failed ("Error preparing shell script: " +:+ err)
     | inl tf =>
         defer (DeferRemove tf);;
         l ← local_;
         s ← on_heap (append (scripts l) [tf]);
         assign_local (set_scripts s);;
         c ← p_cfg;
         let shebang := "#!" +:+ InlineShebang c +:+ nl in
         syscall (bufio_WriteString sys tf shebang) (EvWriteString tf shebang);;
         c ← p_cfg;
         for_range (Inline c) (fun _ command =>
           err ← syscall (bufio_WriteString sys tf (command +:+ nl))
                         (EvWriteString tf (command +:+ nl));
           match err with
           | Some e => failed ("Error preparing shell script: " +:+ e)
           | None => skip
           end);;
         err ← syscall (bufio_Flush sys tf) (EvFlush tf);
         match err with
         | Some e => failed ("Error preparing shell script: " +:+ e)
         | None => skip
         end;;
         sysproc (file_Close sys tf) (EvClose tf)
     end).

(** Lines 148-151. *)
Definition build_envVars
  : @M W (Method PostProcessLocals) (option A * bool * option error) unit :=
  c ← p_cfg;
  e ← on_heap (make (s_len (Vars c) + 2));
  assign_local (set_envVars e);;
  c ← p_cfg;
  l ← local_;
  index_assign (envVars l) 0 ("PACKER_BUILD_NAME=" +:+ PackerBuildName c);;
  c ← p_cfg;
  l ← local_;
  index_assign (envVars l) 1 ("PACKER_BUILDER_TYPE=" +:+ PackerBuilderType c);;
  c ← p_cfg;
  l ← local_;
  dst ← slice_from (envVars l) 2;
  on_heap (copy dst (Vars c));;
  skip.

(** Lines 159-180: one script on one artifact. [cmd.Env] is the slice
    [envVars], read when the process starts; the process gets the script
    and the artifact as two arguments of [/bin/sh]. *)
Definition run_script (ui : @Ui W) (art : string) (_ : nat) (path : string)
  : @M W (Method PostProcessLocals) (option A * bool * option error) unit :=
  assign_local (set_stderr "");;
  assign_local (set_stdout "");;
  sysproc (ui_Say ui ("Process with shell script: " +:+ path))
          (EvSay ("Process with shell script: " +:+ path));;
  log_Printf ("Opening " +:+ path +:+ " for reading");;
  err ← syscall (os_Open sys path) (EvOpen path);
  match err with
  | Some e => failed ("Error opening shell script: " +:+ e)
  | None => skip
  end;;
  defer (DeferClose path);;
  sysproc (ui_Message ui ("Executing script with artifact: " +:+ art))
          (EvMessage ("Executing script with artifact: " +:+ art));;
  let args := [path; art] in
  l ← local_;
  env ← spread (envVars l);
  res ← syscall (cmd_Run sys "/bin/sh" args env) (EvRun "/bin/sh" args env);
  assign_local (fun l => set_stdout (stdout l +:+ r_stdout res) l);;
  assign_local (fun l => set_stderr (stderr l +:+ r_stderr res) l);;
  l ← local_;
  match r_err res with
  | Some _ => failed ("Unable to execute script: " +:+ stderr l)
  | None => skip
  end;;
  l ← local_;
  sysproc (ui_Message ui (stderr l)) (EvMessage (stderr l)).

Definition PostProcess_body (ui : @Ui W) (artifact : A)
  : @M W (Method PostProcessLocals) (option A * bool * option error) unit :=
  c ← p_cfg;
  s ← on_heap (make (s_len (Scripts c)));
  assign_local (set_scripts s);;
  c ← p_cfg;
  l ← local_;
  on_heap (copy (scripts l) (Scripts c));;
  inline_script;;
  build_envVars;;
  let files := Files artifact in
  for_each files (fun art =>
    l ← local_;
    for_range (scripts l) (run_script ui art));;
  return_ (Some artifact, false, None).

Definition PostProcess (ui : @Ui W) (artifact : A) (c : Config) (st : @state W ())
  : option (option A * bool * option error) * Config * @state W () :=
  call_method c zero_locals (PostProcess_body ui artifact) st.

End PostProcess.

End World.

(* ------------------------------------------------------------------- *)
(** *** Reading a run                                                    *)

(** The slices of the configuration point into the heap. *)
Definition cfg_ok (h : Slices.heap) (c : Config) : bool :=
  slice_ok h (Inline c) && slice_ok h (Scripts c) && slice_ok h (Vars c).

(** The calls of a pass up to and including [cmd.Run], when the script
    could be opened; [env] is what [envVars] holds. No call to
    [os.Environ] is made: [i_ambient] is empty. *)
Definition invocation_events (env : list string) (i : invocation) : list event :=
  [ EvSay ("Process with shell script: " +:+ i_path i);
    EvLog ("Opening " +:+ i_path i +:+ " for reading");
    EvOpen (i_path i) None;
    EvMessage ("Executing script with artifact: " +:+ i_art i);
    EvRun "/bin/sh" [i_path i; i_art i] env (i_res i) ].

Definition success_events (env : list string) (i : invocation) : list event :=
  invocation_events env i ++ [EvMessage (r_stderr (i_res i))].

Definition open_failure_events (path e : string) : list event :=
  [ EvSay ("Process with shell script: " +:+ path);
    EvLog ("Opening " +:+ path +:+ " for reading");
    EvOpen path (Some e) ].

Definition ending_events (env : list string) (f : ending) : list event :=
  match f with
  | Completed => []
  | OpenFailed _ path e => open_failure_events path e
  | RunFailed i => invocation_events env i
  end.

Definition ending_error (f : ending) : option error :=
  match f with
  | Completed => None
  | OpenFailed _ _ e => Some (errorString ("Error opening shell script: " +:+ e))
  | RunFailed i => Some (errorString ("Unable to execute script: " +:+ r_stderr (i_res i)))
  end.

Definition log_events (env : list string) (lg : run_log) : list event :=
  (done_passes lg ≫= success_events env) ++ ending_events env (fin lg).

Definition log_outcome {A} (lg : run_log)
  : outcome (option A * bool * option error) unit :=
  outcome_of (ending_error (fin lg)).

(** The two derived variables, then the entries of [p.cfg.Vars]. *)
Definition explicit_env (c : Config) (vars : list string) : list string :=
  [ "PACKER_BUILD_NAME=" +:+ PackerBuildName c;
    "PACKER_BUILDER_TYPE=" +:+ PackerBuilderType c ] ++ vars.

(** What [PostProcess] returns after a preparation [p] and loops that
    went as [lg] says. *)
Definition final_result {A} (artifact : A) (p : prep) (lg : run_log)
  : option A * bool * option error :=
  match prep_error p with
  | Some e => (None, false, Some e)
  | None =>
      match ending_error (fin lg) with
      | Some e => (None, false, Some e)
      | None => (Some artifact, false, None)
      end
  end.

(** What a pass of the loops leaves alone. *)
Definition unchanged {W} (st st' : @state W (Method PostProcessLocals)) : Prop :=
  heap st' = heap st ∧ cfg (frame st') = cfg (frame st)
  ∧ scripts (locals (frame st')) = scripts (locals (frame st))
  ∧ envVars (locals (frame st')) = envVars (locals (frame st)).

(** What [sh] is asked to run for a pair: the script, with the artifact
    as its argument. *)
Definition sh_argv (p : string * string) : string * list string :=
  ("/bin/sh", [p.2; p.1]).

(** The aggregated errors of [Configure]. *)
Definition inline_present (c : Config) : bool := negb (is_nil (Inline c)).

Definition resolved_scripts (h : Slices.heap) (c : Config) : list string :=
  if String.eqb (Script c) "" then elems h (Scripts c) else [Script c].

Definition field_errors (c : Config) : list string :=
  if negb (String.eqb (Script c) "") && (0 <? s_len (Scripts c))
  then [err_one_of] else [].

Definition validation_errors (h : Slices.heap) (c : Config)
    (stats : list (string * option string)) : list string :=
  field_errors c
  ++ kind_errors (resolved_scripts h c) (inline_present c)
  ++ script_errors stats
  ++ var_errors (elems h (Vars c)).

(** What the first steps of [Configure] keep of the decoded
    configuration [c1] in the heap [h1]. *)
Definition tracks (h1 : Slices.heap) (c1 : Config) (h : Slices.heap) (c : Config) : Prop :=
  agree (length h1) h1 h ∧ length h1 ≤ length h
  ∧ cfg_ok h c = true
  ∧ Script c = Script c1
  ∧ Inline c = Inline c1
  ∧ elems h (Vars c) = elems h1 (Vars c1)
  ∧ PackerBuildName c = PackerBuildName c1
  ∧ PackerBuilderType c = PackerBuilderType c1.

End ShellPostProcessor.

(** Unfolds the statements of a method of [p *ShellPostProcessor] that
    only pass the state on. *)
Ltac run_method :=
  cbv beta iota zeta delta
    [mbind M_bind mret M_ret skip when return_ ShellPostProcessor.failed panic
     ShellPostProcessor.p_cfg ShellPostProcessor.local_
     ShellPostProcessor.assign_local ShellPostProcessor.assign_cfg
     assign on_heap syscall sysproc log_Printf defer spread
     set_stdout set_stderr set_scripts set_envVars];
  cbn [heap config frame defers world trace scripts envVars stdout stderr fst snd
       ShellPostProcessor.cfg ShellPostProcessor.locals].

Ltac run_method_in H :=
  cbv beta iota zeta delta
    [mbind M_bind mret M_ret skip when return_ ShellPostProcessor.failed panic
     ShellPostProcessor.p_cfg ShellPostProcessor.local_
     ShellPostProcessor.assign_local ShellPostProcessor.assign_cfg
     assign on_heap syscall sysproc log_Printf defer spread
     set_stdout set_stderr set_scripts set_envVars] in H;
  cbn [heap config frame defers world trace scripts envVars stdout stderr fst snd
       ShellPostProcessor.cfg ShellPostProcessor.locals] in H.

(** A small world for [ShellPostProcessor]: the decoder of [Demo], for
    the [Config] of the first generation. *)
Module ShellDemo.

Definition decode (raws : list Demo.RawConfig) (c : ShellPostProcessor.Config)
    (h : Slices.heap) : option string * (ShellPostProcessor.Config * Slices.heap) :=
  match raws with
  | [r] =>
      let '(i, h1) := Demo.store_slice (Demo.raw_inline r) h in
      let '(s, h2) := Demo.store_slice (Demo.raw_scripts r) h1 in
      let '(v, h3) := Demo.store_slice (Demo.raw_environment_vars r) h2 in
      (None,
       ({| ShellPostProcessor.PackerBuildName := Demo.raw_build_name r;
           ShellPostProcessor.PackerBuilderType := Demo.raw_builder_type r;
           ShellPostProcessor.Inline := i;
           ShellPostProcessor.InlineShebang := Demo.raw_inline_shebang r;
           ShellPostProcessor.Script := Demo.raw_script r;
           ShellPostProcessor.Vars := v;
           ShellPostProcessor.Scripts := s;
           ShellPostProcessor.TargetPath := ShellPostProcessor.TargetPath c |}, h3))
  | _ => (Some "expected one raw configuration", (c, h))
  end.

Definition zero_config : ShellPostProcessor.Config :=
  {| ShellPostProcessor.PackerBuildName := EmptyString;
     ShellPostProcessor.PackerBuilderType := EmptyString;
     ShellPostProcessor.Inline := nil_slice;
     ShellPostProcessor.InlineShebang := EmptyString;
     ShellPostProcessor.Script := EmptyString;
     ShellPostProcessor.Vars := nil_slice;
     ShellPostProcessor.Scripts := nil_slice;
     ShellPostProcessor.TargetPath := EmptyString |}.

Definition decoded (r : Demo.RawConfig) : ShellPostProcessor.Config * Slices.heap :=
  (decode [r] zero_config []).2.

(** [p.cfg] and the state after [Configure] on one raw configuration. *)
Definition ready_cfg (r : Demo.RawConfig) : ShellPostProcessor.Config :=
  (ShellPostProcessor.Configure (Demo.sys []) decode [r] zero_config Demo.boot).1.2.

Definition ready (r : Demo.RawConfig) : @state (list string) () :=
  (ShellPostProcessor.Configure (Demo.sys []) decode [r] zero_config Demo.boot).2.

(** [inline = []], given but empty, and [scripts = [S1]]. *)
Definition empty_inline : Demo.RawConfig :=
  {| Demo.raw_inline := Some []; Demo.raw_inline_shebang := EmptyString;
     Demo.raw_script := EmptyString; Demo.raw_scripts := Some ["S1"];
     Demo.raw_environment_vars := None;
     Demo.raw_keep_input_artifact := false;
     Demo.raw_build_name := "b"; Demo.raw_builder_type := "t" |}.

End ShellDemo.

(* ===================================================================== *)
(** ** The trace read against the world                                   *)
(* ===================================================================== *)

Section Replay.
Context {W Raw : Type} (sys : @Sys W Raw) (ui : @Ui W).

(** The world that the call recorded by [ev] leaves when it is made in
    [w]. *)
Definition effect (ev : event) (w : W) : W :=
  match ev with
  | EvStat path _ => (os_Stat sys path w).2
  | EvTempFile dir pattern _ => (ioutil_TempFile sys dir pattern w).2
  | EvWriteString file data _ => (bufio_WriteString sys file data w).2
  | EvFlush file _ => (bufio_Flush sys file w).2
  | EvClose file => file_Close sys file w
  | EvRemove name => os_Remove sys name w
  | EvOpen name _ => (os_Open sys name w).2
  | EvEnviron _ => w
  | EvRun name args env _ => (cmd_Run sys name args env w).2
  | EvSay msg => ui_Say ui msg w
  | EvMessage msg => ui_Message ui msg w
  | EvLog _ => w
  end.

(** The result recorded by [ev] is the one that the call gives in [w]. *)
Definition answered (ev : event) (w : W) : Prop :=
  match ev with
  | EvStat path err => err = (os_Stat sys path w).1
  | EvTempFile dir pattern res => res = (ioutil_TempFile sys dir pattern w).1
  | EvWriteString file data err => err = (bufio_WriteString sys file data w).1
  | EvFlush file err => err = (bufio_Flush sys file w).1
  | EvOpen name err => err = (os_Open sys name w).1
  | EvEnviron env => env = os_Environ sys w
  | EvRun name args env res => res = (cmd_Run sys name args env w).1
  | EvClose _ | EvRemove _ | EvSay _ | EvMessage _ | EvLog _ => True
  end.

(** The world after the calls of [evs], made one after the other from
    [w]. *)
Fixpoint replay (evs : list event) (w : W) : W :=
  match evs with
  | [] => w
  | ev :: evs' => replay evs' (effect ev w)
  end.

(** Every call of [evs] got, in the world that the calls before it left,
    the result that [evs] records for it. *)
Fixpoint played (evs : list event) (w : W) : Prop :=
  match evs with
  | [] => True
  | ev :: evs' => answered ev w ∧ played evs' (effect ev w)
  end.

(** Since the trace was [tr0] and the world [w0], the trace of [st] grew
    by the calls that took [w0] to the world of [st]. *)
Definition synced {F} (w0 : W) (tr0 : list event) (st : @state W F) : Prop :=
  ∃ evs, trace st = tr0 ++ evs ∧ played evs w0 ∧ world st = replay evs w0.

(** The statement [m] logs every call that it makes on the world. *)
Definition keeps {F R B} (m : @M W F R B) : Prop :=
  ∀ w0 tr0 st, synced w0 tr0 st → synced w0 tr0 (m st).2.

End Replay.

(* ===================================================================== *)
(** ** Facts about slices                                                 *)
(* ===================================================================== *)

Section SliceFacts.

Implicit Types (h : Slices.heap) (s dst src : slice) (vs arr : list string).

Lemma slice_ok_inv h s :
  slice_ok h s = true →
  match s_arr s with
  | None => s_len s = 0 ∧ s_cap s = 0
  | Some l => ∃ arr, h !! l = Some arr ∧ s_off s + s_cap s ≤ length arr ∧ s_len s ≤ s_cap s
  end.
Proof.
  unfold slice_ok. destruct (s_arr s) as [l|].
  - destruct (h !! l) as [arr|]; [|done].
    intros [H1 H2]%andb_prop. exists arr.
    apply Nat.leb_le in H1, H2. done.
  - intros [H1 H2]%andb_prop. apply Nat.eqb_eq in H1, H2. done.
Qed.

Lemma slice_ok_below h s : slice_ok h s = true → below (length h) s.
Proof.
  intros Hok l Hl. apply slice_ok_inv in Hok. rewrite Hl in Hok.
  destruct Hok as (arr & Harr & _). by apply lookup_lt_Some in Harr.
Qed.

Lemma length_elems h s : slice_ok h s = true → length (elems h s) = s_len s.
Proof.
  intros Hok. apply slice_ok_inv in Hok. unfold elems.
  destruct (s_arr s) as [l|]; [|by destruct Hok as [-> _]].
  destruct Hok as (arr & -> & Hcap & Hlen). simpl.
  rewrite length_take, length_drop. lia.
Qed.

Lemma load_elems h s i : load h s i = elems h s !! i.
Proof.
  unfold load, elems. destruct (Nat.ltb_spec i (s_len s)) as [Hlt|Hge].
  - destruct (s_arr s) as [l|]; [|done].
    destruct (h !! l) as [arr|]; simpl.
    + by rewrite lookup_take_lt, lookup_drop.
    + by rewrite drop_nil, take_nil.
  - destruct (s_arr s) as [l|]; [|done].
    symmetry. apply lookup_ge_None. rewrite length_take. lia.
Qed.

Lemma agree_refl n h : agree n h h.
Proof. by intros l _. Qed.

Lemma agree_trans n h1 h2 h3 : agree n h1 h2 → agree n h2 h3 → agree n h1 h3.
Proof. intros H12 H23 l Hl. by rewrite H23, H12. Qed.

Lemma agree_alloc n h vs : n ≤ length h → agree n h (h ++ [vs]).
Proof. intros Hn l Hl. apply lookup_app_l. lia. Qed.

Lemma agree_alter n h (f : list string → list string) l :
  n ≤ l → agree n h (alter f l h).
Proof. intros Hn l' Hl'. apply list_lookup_alter_ne. lia. Qed.

Lemma agree_insert n h arr l : n ≤ l → agree n h (<[l := arr]> h).
Proof. intros Hn l' Hl'. apply list_lookup_insert_ne. lia. Qed.

Lemma elems_agree n h h' s : below n s → agree n h h' → elems h' s = elems h s.
Proof.
  intros Hb Ha. unfold elems. destruct (s_arr s) as [l|] eqn:El; [|done].
  by rewrite (Ha l (Hb l El)).
Qed.

Lemma slice_ok_agree n h h' s : below n s → agree n h h' → slice_ok h' s = slice_ok h s.
Proof.
  intros Hb Ha. unfold slice_ok. destruct (s_arr s) as [l|] eqn:El; [|done].
  by rewrite (Ha l (Hb l El)).
Qed.

(** A slice on a newly allocated array. *)
Lemma elems_fresh h vs k c :
  elems (h ++ [vs]) (Slice (Some (length h)) 0 k c) = take k vs.
Proof. unfold elems. simpl. by rewrite list_lookup_middle. Qed.

Lemma slice_ok_fresh h vs k c :
  k ≤ c → c ≤ length vs → slice_ok (h ++ [vs]) (Slice (Some (length h)) 0 k c) = true.
Proof.
  intros Hk Hc. unfold slice_ok. simpl. rewrite list_lookup_middle by done.
  apply andb_true_intro. split; apply Nat.leb_le; lia.
Qed.

Lemma length_write_at off vs arr :
  off + length vs ≤ length arr → length (write_at off vs arr) = length arr.
Proof.
  intros Hle. unfold write_at.
  rewrite !length_app, length_take, length_drop. lia.
Qed.

(** Reading [k] elements at [off'] after a write at [off], when the write
    covers them, lies behind them, or lies before them. *)
Lemma read_write_at off vs arr k :
  off + length vs ≤ length arr →
  take k (drop off (write_at off vs arr)) = take k (vs ++ drop (off + length vs) arr).
Proof.
  intros Hle. unfold write_at.
  rewrite drop_app_length' by (rewrite length_take; lia). done.
Qed.

Lemma read_before_write_at off off' vs arr k :
  off' + k ≤ off → off ≤ length arr →
  take k (drop off' (write_at off vs arr)) = take k (drop off' arr).
Proof.
  intros Hk Hoff. unfold write_at.
  rewrite drop_app_le by (rewrite length_take; lia).
  rewrite take_app_le by (rewrite length_drop, length_take; lia).
  rewrite <- (take_drop off arr) at 2.
  rewrite drop_app_le by (rewrite length_take; lia).
  rewrite take_app_le by (rewrite length_drop, length_take; lia). done.
Qed.

(** [copy]: what the destination holds afterwards. *)
Lemma elems_copy h dst src :
  slice_ok h dst = true → slice_ok h src = true →
  elems (copy dst src h).2 dst
  = take (s_len dst `min` s_len src) (elems h src)
    ++ drop (s_len dst `min` s_len src) (elems h dst).
Proof.
  intros Hdst Hsrc. pose proof (length_elems _ _ Hsrc) as Hlen.
  apply slice_ok_inv in Hdst.
  set (m := s_len dst `min` s_len src).
  assert (Hm : length (take m (elems h src)) = m)
    by (rewrite length_take; lia).
  assert (Hd : ∀ h', elems h' dst
               = match s_arr dst with
                 | None => []
                 | Some l => take (s_len dst) (drop (s_off dst) (default [] (h' !! l)))
                 end) by done.
  rewrite !Hd. unfold copy. fold m.
  destruct (s_arr dst) as [l|]; simpl.
  - destruct Hdst as (arr & Harr & Hcap & Hle).
    rewrite list_lookup_alter_eq, Harr. simpl.
    rewrite read_write_at by lia. rewrite Hm.
    rewrite take_app_ge by lia. rewrite Hm. f_equal.
    rewrite skipn_firstn_comm, drop_drop. done.
  - destruct Hdst as [Hl _]. subst m. rewrite Hl. done.
Qed.

Lemma length_copy h dst src : length (copy dst src h).2 = length h.
Proof.
  unfold copy. destruct (s_arr dst); simpl; [apply length_alter|done].
Qed.

Lemma agree_copy n h dst src :
  (∀ l, s_arr dst = Some l → n ≤ l) → agree n h (copy dst src h).2.
Proof.
  intros Hn. unfold copy. destruct (s_arr dst) as [l|]; simpl.
  - apply agree_alter. by apply Hn.
  - apply agree_refl.
Qed.

(** [append]: the result holds the old elements followed by the new. *)
Lemma elems_append h s vs :
  slice_ok h s = true →
  elems (append s vs h).2 (append s vs h).1 = elems h s ++ vs.
Proof.
  intros Hok. pose proof (length_elems _ _ Hok) as Hlen.
  apply slice_ok_inv in Hok. unfold append.
  destruct (Nat.leb_spec (s_len s + length vs) (s_cap s)) as [Hfit|Hgrow].
  - destruct (s_arr s) as [l|] eqn:El.
    + destruct Hok as (arr & Harr & Hcap & Hle). unfold elems; simpl.
      rewrite El, list_lookup_alter_eq, Harr. simpl.
      rewrite <- (take_drop (s_len s) (take (s_len s + length vs) _)).
      f_equal.
      * rewrite take_take, Nat.min_l by lia.
        apply read_before_write_at; lia.
      * rewrite skipn_firstn_comm, drop_drop.
        replace (s_len s + length vs - s_len s) with (length vs) by lia.
        rewrite (read_write_at (s_off s + s_len s)) by lia.
        by rewrite take_app_length.
    + destruct Hok as [Hl Hc]. assert (vs = []) as -> by (destruct vs; simpl in *; [done|lia]).
      unfold elems. simpl. rewrite El. done.
  - simpl. rewrite elems_fresh.
    rewrite app_assoc, take_app_length'; [done|].
    rewrite length_app. lia.
Qed.

Lemma agree_append n h s vs :
  n ≤ length h → (∀ l, s_arr s = Some l → n ≤ l) → agree n h (append s vs h).2.
Proof.
  intros Hn Hs. unfold append.
  destruct (s_len s + length vs <=? s_cap s).
  - destruct (s_arr s) as [l|]; simpl; [|apply agree_refl].
    apply agree_alter. by apply Hs.
  - simpl. by apply agree_alloc.
Qed.

Lemma slice_ok_store h s i v h' s' :
  store s i v h = Some h' → slice_ok h' s' = slice_ok h s'.
Proof.
  unfold store. destruct (i <? s_len s); [|done].
  destruct (s_arr s) as [l|]; [|done].
  destruct (h !! l) as [arr|] eqn:Harr; [|done].
  destruct (s_off s + i <? length arr); [|done]. intros [= <-].
  unfold slice_ok. destruct (s_arr s') as [l'|]; [|done].
  destruct (decide (l = l')) as [<-|].
  - rewrite list_lookup_insert_eq by (by apply lookup_lt_Some in Harr).
    by rewrite Harr, length_insert.
  - by rewrite list_lookup_insert_ne.
Qed.

(** [s[i] = v] within the length changes that element only. *)
Lemma store_elems h s i v :
  slice_ok h s = true → i < s_len s →
  ∃ h', store s i v h = Some h' ∧ elems h' s = <[i := v]> (elems h s)
        ∧ length h' = length h
        ∧ (∀ s', slice_ok h' s' = slice_ok h s')
        ∧ (∀ n l, s_arr s = Some l → n ≤ l → agree n h h').
Proof.
  intros Hok Hi. apply slice_ok_inv in Hok.
  assert (∃ h', store s i v h = Some h') as [h' Hst].
  { unfold store. destruct (Nat.ltb_spec i (s_len s)) as [_|]; [|lia].
    destruct (s_arr s) as [l|] eqn:El; [|lia].
    destruct Hok as (arr & Harr & Hcap & Hle). rewrite Harr.
    destruct (Nat.ltb_spec (s_off s + i) (length arr)) as [_|]; [|lia]. by eexists. }
  exists h'. split; [done|].
  assert (Hoks : ∀ s', slice_ok h' s' = slice_ok h s')
    by (intros s'; by apply (slice_ok_store h s i v)).
  revert Hst. unfold store.
  destruct (Nat.ltb_spec i (s_len s)) as [_|]; [|lia].
  destruct (s_arr s) as [l|] eqn:El; [|lia].
  destruct Hok as (arr & Harr & Hcap & Hle). rewrite Harr.
  destruct (Nat.ltb_spec (s_off s + i) (length arr)) as [_|]; [|lia].
  intros [= <-]. split; [|split; [|split; [done|]]].
  - unfold elems. rewrite El, Harr. simpl.
    rewrite list_lookup_insert_eq by (by apply lookup_lt_Some in Harr). simpl.
    rewrite <- take_insert_lt by done. f_equal.
    rewrite drop_insert_ge by lia. f_equal. lia.
  - apply length_insert.
  - intros n l' [= <-] Hn. by apply agree_insert.
Qed.

(** The elements of [s] are its first [k] followed by those of [s[k:]]. *)
Lemma elems_reslice h s k s' :
  reslice_from s k = Some s' →
  elems h s = take k (elems h s) ++ elems h s'.
Proof.
  unfold reslice_from. destruct (Nat.leb_spec k (s_len s)) as [Hk|]; [|done].
  intros [= <-]. unfold elems. simpl.
  destruct (s_arr s) as [l|]; [|by rewrite take_nil].
  rewrite <- (take_drop k (take (s_len s) _)) at 1. f_equal.
  rewrite skipn_firstn_comm, drop_drop. done.
Qed.

Lemma slice_ok_reslice h s k s' :
  slice_ok h s = true → reslice_from s k = Some s' → slice_ok h s' = true.
Proof.
  intros Hok. unfold reslice_from.
  destruct (Nat.leb_spec k (s_len s)) as [Hk|]; [|done].
  intros [= <-]. apply slice_ok_inv in Hok. unfold slice_ok. simpl.
  destruct (s_arr s) as [l|].
  - destruct Hok as (arr & -> & Hcap & Hle).
    apply andb_true_intro. split; apply Nat.leb_le; lia.
  - destruct Hok as [Hl Hc]. rewrite Hl, Hc in *.
    assert (k = 0) as -> by lia. done.
Qed.


(** Writing inside the arrays keeps every header valid. *)
Lemma slice_ok_alter h l (f : list string → list string) s :
  (∀ arr, h !! l = Some arr → length (f arr) = length arr) →
  slice_ok (alter f l h) s = slice_ok h s.
Proof.
  intros Hf. unfold slice_ok. destruct (s_arr s) as [l'|]; [|done].
  rewrite list_lookup_alter. destruct (decide (l = l')) as [<-|]; [|done].
  destruct (h !! l) as [arr|] eqn:Harr; [|done]. simpl. by rewrite Hf.
Qed.

Lemma slice_ok_copy h dst src s :
  slice_ok h dst = true → slice_ok h src = true →
  slice_ok (copy dst src h).2 s = slice_ok h s.
Proof.
  intros Hdst Hsrc. pose proof (length_elems _ _ Hsrc) as Hlen.
  apply slice_ok_inv in Hdst. unfold copy.
  destruct (s_arr dst) as [l|]; [|done]. simpl.
  destruct Hdst as (arr & Harr & Hcap & Hle).
  apply slice_ok_alter. intros arr' Harr'. apply length_write_at.
  rewrite length_take. assert (arr' = arr) as -> by congruence. lia.
Qed.

(** A [copy] into [s[k:]] leaves the first [k] elements of [s] alone. *)
Lemma elems_copy_behind h s k dst src :
  slice_ok h s = true → reslice_from s k = Some dst →
  take k (elems (copy dst src h).2 s) = take k (elems h s).
Proof.
  intros Hok. unfold reslice_from.
  destruct (Nat.leb_spec k (s_len s)) as [Hk|]; [|done]. intros [= <-].
  apply slice_ok_inv in Hok. unfold copy, elems. simpl.
  destruct (s_arr s) as [l|]; [|done]. simpl.
  destruct Hok as (arr & Harr & Hcap & Hle).
  rewrite list_lookup_alter_eq, Harr. simpl.
  rewrite !take_take, !Nat.min_l by done.
  apply read_before_write_at; lia.
Qed.

(** [append] in full: the result is valid, holds the old elements and
    the new ones, and no array below [n] changes when the slice itself
    lies at or above [n]. *)
Lemma append_spec n h s vs :
  slice_ok h s = true → n ≤ length h → (∀ l, s_arr s = Some l → n ≤ l) →
  slice_ok (append s vs h).2 (append s vs h).1 = true
  ∧ elems (append s vs h).2 (append s vs h).1 = elems h s ++ vs
  ∧ agree n h (append s vs h).2
  ∧ length h ≤ length (append s vs h).2
  ∧ (∀ l, s_arr (append s vs h).1 = Some l → n ≤ l).
Proof.
  intros Hok Hn Hs. split; [|split; [by apply elems_append|split; [by apply agree_append|]]].
  - pose proof (length_elems _ _ Hok) as Hlen.
    pose proof (slice_ok_inv _ _ Hok) as Hinv. unfold append.
    destruct (Nat.leb_spec (s_len s + length vs) (s_cap s)) as [Hfit|Hgrow].
    + destruct (s_arr s) as [l|] eqn:El; [|done].
      destruct Hinv as (arr & Harr & Hcap & Hle). simpl.
      unfold slice_ok. simpl. rewrite list_lookup_alter_eq, Harr. simpl.
      rewrite length_write_at by lia.
      apply andb_true_intro. split; apply Nat.leb_le; lia.
    + simpl. apply slice_ok_fresh; unfold growslice_cap; [lia|].
      rewrite !length_app, length_replicate. lia.
  - unfold append.
    destruct (Nat.leb_spec (s_len s + length vs) (s_cap s)) as [Hfit|Hgrow].
    + destruct (s_arr s) as [l|] eqn:El; simpl.
      * rewrite length_alter. split; [done|]. intros l' [= <-]. by apply Hs.
      * split; [done|]. intros l'. rewrite El. done.
    + simpl. rewrite length_app. simpl. split; [lia|]. intros l' [= <-]. done.
Qed.

End SliceFacts.


(* ===================================================================== *)
(** ** Loops                                                              *)
(* ===================================================================== *)

Section Loops.
Context {W F R : Type}.
Implicit Types (st : @state W F) (g : string → @M W F R unit).

Lemma bind_unfold {A B} (m : @M W F R A) (k : A → @M W F R B) st :
  (m ≫= k) st
  = match m st with
    | (Next a, st') => k a st'
    | (Return r, st') => (Return r, st')
    | (Panic msg, st') => (Panic msg, st')
    end.
Proof. done. Qed.

(** A [range] over a slice whose body leaves the heap alone visits the
    elements the slice had at the start. *)
Lemma range_from_for_each s body g n i st :
  (∀ j v, body j v = g v) →
  (∀ v st', heap (g v st').2 = heap st') →
  i + n ≤ length (elems (heap st) s) →
  range_from s i n body st = for_each (take n (drop i (elems (heap st) s))) g st.
Proof.
  intros Hbody Hheap. revert i st. induction n as [|n IH]; intros i st Hn.
  - by rewrite take_0.
  - destruct (lookup_lt_is_Some_2 (elems (heap st) s) i) as [v Hv]; [lia|].
    rewrite (drop_S _ _ _ Hv).
    change (range_from s i (S n) body)
      with (index s i ≫= λ v, body i v;; range_from s (S i) n body).
    change (for_each (take (S n) (v :: drop (S i) (elems (heap st) s))) g)
      with (g v;; for_each (take n (drop (S i) (elems (heap st) s))) g).
    rewrite !bind_unfold. unfold index at 1. rewrite load_elems, Hv, Hbody.
    rewrite bind_unfold.
    specialize (Hheap v st). destruct (g v st) as [[[]| |] st']; try done.
    simpl in Hheap. rewrite IH, Hheap; [done|].
    rewrite Hheap. lia.
Qed.

Lemma for_range_for_each s body g st :
  (∀ j v, body j v = g v) →
  (∀ v st', heap (g v st').2 = heap st') →
  slice_ok (heap st) s = true →
  for_range s body st = for_each (elems (heap st) s) g st.
Proof.
  intros Hbody Hheap Hok. unfold for_range.
  pose proof (length_elems _ _ Hok) as Hlen.
  rewrite (range_from_for_each s body g) by (done || lia).
  rewrite drop_0, take_ge by lia. done.
Qed.

Lemma for_pairs_app pairs1 pairs2 (body : string → string → @M W F R unit) st :
  for_pairs (pairs1 ++ pairs2) body st
  = (for_pairs pairs1 body;; for_pairs pairs2 body) st.
Proof.
  revert st. induction pairs1 as [|[art path] rest IH]; intros st; [done|].
  simpl. rewrite !bind_unfold.
  destruct (body art path st) as [[[]| |] st']; done.
Qed.

Lemma for_each_for_pairs art scr (body : string → string → @M W F R unit) st :
  for_each scr (body art) st = for_pairs (map (pair art) scr) body st.
Proof.
  revert st. induction scr as [|path scr IH]; intros st; [done|].
  simpl. rewrite !bind_unfold.
  destruct (body art path st) as [[[]| |] st']; done.
Qed.

End Loops.


(* ===================================================================== *)
(** ** The loops of [PostProcess]                                         *)
(* ===================================================================== *)

Section RunLogs.

Lemma log_events_app explicit lg1 lg2 :
  fin lg1 = Completed →
  log_events explicit (log_app lg1 lg2)
  = log_events explicit lg1 ++ log_events explicit lg2.
Proof.
  intros Hfin. unfold log_events, log_app. simpl.
  rewrite Hfin, bind_app. simpl. by rewrite app_nil_r, app_assoc.
Qed.

Lemma log_pairs_app lg1 lg2 :
  fin lg1 = Completed →
  log_pairs (log_app lg1 lg2) = log_pairs lg1 ++ log_pairs lg2.
Proof.
  intros Hfin. unfold log_pairs, log_app. simpl.
  rewrite Hfin, map_app. simpl. by rewrite app_nil_r, app_assoc.
Qed.

Lemma log_opened_app lg1 lg2 :
  fin lg1 = Completed →
  log_opened (log_app lg1 lg2) = log_opened lg1 ++ log_opened lg2.
Proof.
  intros Hfin. unfold log_opened, log_app. simpl.
  rewrite Hfin, map_app. simpl. by rewrite app_nil_r, app_assoc.
Qed.

Lemma log_ok_app lg1 lg2 : log_ok lg1 → log_ok lg2 → log_ok (log_app lg1 lg2).
Proof.
  intros [Hd1 _] [Hd2 Hf2]. split; [|done]. by apply Forall_app.
Qed.

Lemma log_outcome_Next {A} lg :
  fin lg = Completed ↔ @log_outcome A lg = Next ().
Proof.
  unfold log_outcome. destruct (fin lg); simpl; split; done.
Qed.

End RunLogs.

Section PostProcessLoops.
Context {W Raw : Type} (sys : @Sys W Raw) {A : Type}.
Implicit Types (st : @state W PostProcessLocals).

(** One pass: the script cannot be opened, or the process fails, or the
    pass succeeds. *)
Lemma run_script_spec (ui : @Ui W) art k path st :
  ∃ lg st',
    run_script sys (A:=A) ui art k path st = (log_outcome lg, st')
    ∧ unchanged st st'
    ∧ trace st' = trace st ++ log_events (elems (heap st) (envVars (frame st))) lg
    ∧ defers st' = map DeferClose (reverse (log_opened lg)) ++ defers st
    ∧ log_ok lg
    ∧ log_pairs lg = [(art, path)].
Proof.
  destruct st as [h c [scr env out err] ds w tr].
  unfold run_script. run_monad.
  destruct (os_Open sys path _) as [[e|] w1] eqn:Hopen.
  - exists {| done_passes := []; fin := OpenFailed art path e |}.
    eexists. split; [reflexivity|]. unfold unchanged, log_ok. simpl.
    rewrite <- !app_assoc. done.
  - destruct (cmd_Run sys _ _ _ _) as [res w2] eqn:Hrun.
    destruct (r_err res) as [e|] eqn:Herr.
    + exists {| done_passes := [];
                fin := RunFailed {| i_art := art; i_path := path;
                                    i_ambient := os_Environ sys
                        (ui_Message ui ("Executing script with artifact: " +:+ art) w1); i_res := res |} |}.
      eexists. split; [reflexivity|]. unfold unchanged, log_ok. simpl.
      rewrite <- !app_assoc, Herr. done.
    + exists {| done_passes := [{| i_art := art; i_path := path;
                                   i_ambient := os_Environ sys
                        (ui_Message ui ("Executing script with artifact: " +:+ art) w1); i_res := res |}];
                fin := Completed |}.
      eexists. split; [reflexivity|]. unfold unchanged, log_ok. simpl.
      rewrite <- !app_assoc. repeat split; try done.
      by apply Forall_singleton.
Qed.


Lemma unchanged_refl st : unchanged st st.
Proof. done. Qed.

Lemma unchanged_trans st1 st2 st3 :
  unchanged st1 st2 → unchanged st2 st3 → unchanged st1 st3.
Proof.
  intros (H1 & H2 & H3 & H4) (K1 & K2 & K3 & K4).
  unfold unchanged. by rewrite K1, K2, K3, K4.
Qed.

(** The loops as a whole: the passes succeed one after the other up to
    the first that fails. *)
Lemma for_pairs_spec (ui : @Ui W) pairs st :
  ∃ lg st',
    for_pairs pairs (λ art path, run_script sys (A:=A) ui art 0 path) st
    = (log_outcome lg, st')
    ∧ unchanged st st'
    ∧ trace st' = trace st ++ log_events (elems (heap st) (envVars (frame st))) lg
    ∧ defers st' = map DeferClose (reverse (log_opened lg)) ++ defers st
    ∧ log_ok lg
    ∧ log_pairs lg `prefix_of` pairs
    ∧ (fin lg = Completed → log_pairs lg = pairs).
Proof.
  revert st. induction pairs as [|[art path] rest IH]; intros st.
  - exists {| done_passes := []; fin := Completed |}, st.
    unfold log_events, log_ok. simpl. rewrite app_nil_r. done.
  - destruct (run_script_spec ui art 0 path st)
      as (lg1 & st1 & Hrun & Hun1 & Htr1 & Hdf1 & Hok1 & Hp1).
    simpl. rewrite bind_unfold, Hrun.
    destruct (fin lg1) eqn:Hfin.
    + replace (log_outcome lg1) with (@Next (option A * bool * option error) _ ())
        by (symmetry; by apply log_outcome_Next).
      destruct (IH st1) as (lg2 & st2 & Hrest & Hun2 & Htr2 & Hdf2 & Hok2 & Hp2 & Hall).
      exists (log_app lg1 lg2), st2.
      pose proof Hun1 as (Hh & Hc & Hs & He).
      rewrite He, Hh in Htr2.
      rewrite log_events_app, log_pairs_app, log_opened_app by done.
      rewrite Hp1, Htr2, Htr1, Hdf2, Hdf1, reverse_app, map_app, <- !app_assoc.
      split; [done|]. split; [by apply (unchanged_trans _ st1)|].
      split; [done|]. split; [done|]. split; [by apply log_ok_app|].
      split; [simpl; by apply prefix_cons|].
      simpl. intros Hf. by rewrite Hall.
    + exists lg1, st1. split.
      { destruct (log_outcome lg1) as [[]| |] eqn:Hout; [|done..].
        apply log_outcome_Next in Hout. congruence. }
      do 4 (split; [done|]). rewrite Hp1.
      split; [by apply prefix_cons, prefix_nil|congruence].
    + exists lg1, st1. split.
      { destruct (log_outcome lg1) as [[]| |] eqn:Hout; [|done..].
        apply log_outcome_Next in Hout. congruence. }
      do 4 (split; [done|]). rewrite Hp1.
      split; [by apply prefix_cons, prefix_nil|congruence].
Qed.

Lemma cross_cons art files scr :
  cross (art :: files) scr = map (pair art) scr ++ cross files scr.
Proof.
  unfold cross. simpl. f_equal.
Qed.

(** The nested loops of [PostProcess] visit the cross product of the
    artifacts and of the elements of [scripts]. *)
Lemma loops_for_pairs (ui : @Ui W) files st :
  slice_ok (heap st) (scripts (frame st)) = true →
  for_each files (λ art, l ← local; for_range (scripts l) (run_script sys (A:=A) ui art)) st
  = for_pairs (cross files (elems (heap st) (scripts (frame st))))
              (λ art path, run_script sys ui art 0 path) st.
Proof.
  revert st. induction files as [|art files IH]; intros st Hok; [done|].
  rewrite cross_cons, for_pairs_app.
  change (for_each (art :: files) ?b) with (b art;; for_each files b).
  rewrite !bind_unfold. unfold local at 1. cbv beta iota.
  rewrite (for_range_for_each _ _ (run_script sys ui art 0)); [|done| |done].
  2:{ intros v st'. destruct (run_script_spec ui art 0 v st')
        as (lg & st2 & -> & (Hh & _) & _). done. }
  rewrite (for_each_for_pairs art _ (λ art path, run_script sys ui art 0 path)).
  destruct (for_pairs_spec ui (map (pair art) (elems (heap st) (scripts (frame st)))) st)
    as (lg & st1 & Hrun & (Hh & Hc & Hs & He) & _).
  rewrite Hrun. destruct (log_outcome lg) as [[]| |]; try done.
  rewrite IH; rewrite Hh, Hs; done.
Qed.

End PostProcessLoops.


(* ===================================================================== *)
(** ** The preparation of [PostProcess]                                   *)
(* ===================================================================== *)

Section PostProcessPrep.
Context {W Raw : Type} (sys : @Sys W Raw) {A : Type}.
Implicit Types (st : @state W PostProcessLocals).

Abbreviation res := (option A * bool * option error)%type.

(** The loop that writes the inline commands. *)
Lemma write_loop_spec tf (inline : list string) st :
  let body := λ command : string,
    (err ← syscall (bufio_WriteString sys tf (command +:+ nl))
                   (EvWriteString tf (command +:+ nl));
     match err with
     | Some e => failed ("Error preparing shell script: " +:+ e)
     | None => skip
     end : M PostProcessLocals res unit) in
  ∃ st', same_memory st st'
    ∧ ((for_each inline body st = (Next (), st')
        ∧ trace st' = trace st ++ write_events tf inline)
       ∨ (∃ written cmd e,
            (written ++ [cmd]) `prefix_of` inline
            ∧ for_each inline body st
              = (outcome_of (Some (errorString ("Error preparing shell script: " +:+ e))), st')
            ∧ trace st' = trace st ++ write_events tf written
                          ++ [EvWriteString tf (cmd +:+ nl) (Some e)])).
Proof.
  intros body. revert st. induction inline as [|c inline IH]; intros st.
  - exists st. split; [done|]. left. simpl. by rewrite app_nil_r.
  - change (for_each (c :: inline) body) with (body c;; for_each inline body).
    rewrite bind_unfold. destruct st as [h cf fr ds w tr].
    unfold body at 1 3. run_monad.
    destruct (bufio_WriteString sys tf (c +:+ nl) w) as [[e|] w1].
    + eexists. split; [|right; exists [], c, e; split; [|split; [reflexivity|]]].
      * done.
      * by apply prefix_cons, prefix_nil.
      * done.
    + destruct (IH (State h cf fr ds w1 (tr ++ [EvWriteString tf (c +:+ nl) None])))
        as (st' & Hsame & [[Hrun Htr]|(written & cmd & e & Hpre & Hrun & Htr)]).
      * exists st'. split; [done|]. left. split; [done|].
        rewrite Htr. simpl. by rewrite <- app_assoc.
      * exists st'. split; [done|]. right. exists (c :: written), cmd, e.
        split; [by apply prefix_cons|]. split; [done|].
        rewrite Htr. simpl. by rewrite <- !app_assoc.
Qed.


(** Lines 321-345. *)
Lemma inline_script_spec n st :
  slice_ok (heap st) (Inline (config st)) = true →
  below n (Inline (config st)) →
  n ≤ length (heap st) →
  slice_ok (heap st) (scripts (frame st)) = true →
  above n (scripts (frame st)) →
  ∃ p st',
    inline_script sys (A:=A) st = (outcome_of (prep_error p), st')
    ∧ config st' = config st
    ∧ trace st' = trace st ++ prep_events (InlineShebang (config st))
                               (elems (heap st) (Inline (config st))) p
    ∧ defers st' = map DeferRemove (prep_temp p) ++ defers st
    ∧ prep_ok (elems (heap st) (Inline (config st))) p
    ∧ (p = NoInline ↔ is_nil (Inline (config st)) = true)
    ∧ slice_ok (heap st') (scripts (frame st')) = true
    ∧ elems (heap st') (scripts (frame st'))
      = elems (heap st) (scripts (frame st)) ++ prep_temp p
    ∧ agree n (heap st) (heap st')
    ∧ length (heap st) ≤ length (heap st').
Proof.
  destruct st as [h c fr ds w tr]. cbn [heap config frame].
  intros Hinl Hbelow Hn Hscr Habove.
  unfold inline_script. run_monad.
  destruct (is_nil (Inline c)) eqn:Hnil; simpl.
  { exists NoInline. eexists. split; [reflexivity|]. simpl.
    rewrite !app_nil_r. split_and!; done. }
  destruct (ioutil_TempFile sys "" "packer-shell" w) as [[tf|e] w1]; run_monad.
  2:{ exists (TempFileFailed e). eexists. split; [reflexivity|]. simpl.
      rewrite !app_nil_r. split_and!; done. }
  destruct (append_spec n h (scripts fr) [tf] Hscr Hn Habove)
    as (Hok' & Hel' & Hag & Hlen & Hab').
  destruct (append (scripts fr) [tf] h) as [s' h']. run_monad.
  cbn [fst snd] in Hok', Hel', Hag, Hlen, Hab'.
  destruct (bufio_WriteString sys tf _ w1) as [r0 w2]. run_monad.
  assert (Hinl' : slice_ok h' (Inline c) = true)
    by (by rewrite (slice_ok_agree n h h')).
  assert (Hel : elems h' (Inline c) = elems h (Inline c))
    by (by apply (elems_agree n)).
  match goal with
  | |- context [for_range ?s ?b ?st0] =>
      destruct (write_loop_spec tf (elems h (Inline c)) st0)
        as (st1 & (Hh & Hc & Hf & Hd) & Hloop);
      erewrite (for_range_for_each s b) by (done || (intros; reflexivity)
                  || (intros v [? ? ? ? ? ?]; run_monad;
                      by destruct (bufio_WriteString sys tf _ _) as [[?|] ?]))
  end.
  cbn [heap] in *. rewrite Hel.
  destruct st1 as [h1 c1 f1 d1 w3 tr1]. cbn [heap config frame defers trace] in *.
  subst h1 c1 f1 d1.
  destruct Hloop as [[Hrun Htr]|(written & cmd & e & Hpre & Hrun & Htr)];
    run_monad_in Hrun; rewrite Hrun; run_monad.
  2:{ exists (WriteFailed tf r0 written cmd e). eexists. split; [reflexivity|].
      simpl. rewrite Htr, <- !app_assoc. split_and!; try done. }
  destruct (bufio_Flush sys tf w3) as [[e|] w4]; run_monad.
  - exists (FlushFailed tf r0 e). eexists. split; [reflexivity|].
    simpl. rewrite Htr, <- !app_assoc. split_and!; try done.
  - exists (Prepared tf r0). eexists. split; [reflexivity|].
    simpl. rewrite Htr, <- !app_assoc. split_and!; try done.
Qed.


(** Lines 348-351: [envVars] holds the two derived variables, then the
    entries of [p.config.Vars]. *)
Lemma build_envVars_spec st :
  slice_ok (heap st) (Vars (config st)) = true →
  ∃ st',
    build_envVars (A:=A) st = (Next (), st')
    ∧ config st' = config st
    ∧ scripts (frame st') = scripts (frame st)
    ∧ trace st' = trace st
    ∧ defers st' = defers st
    ∧ agree (length (heap st)) (heap st) (heap st')
    ∧ length (heap st) ≤ length (heap st')
    ∧ slice_ok (heap st') (envVars (frame st')) = true
    ∧ elems (heap st') (envVars (frame st'))
      = explicit_env (config st) (elems (heap st) (Vars (config st))).
Proof.
  destruct st as [h c fr ds w tr]. cbn [heap config frame defers trace].
  intros Hvars. pose proof (slice_ok_below _ _ Hvars) as Hbelow.
  pose proof (length_elems _ _ Hvars) as Hlen.
  unfold build_envVars, make, alloc, index_assign, slice_from. run_monad.
  replace (s_len (Vars c) + 2) with (S (S (s_len (Vars c)))) by lia.
  set (k := s_len (Vars c)) in *.
  set (e := Slice (Some (length h)) 0 (S (S k)) (S (S k))).
  set (h1 := h ++ [replicate (S (S k)) ""]).
  assert (Hok1 : slice_ok h1 e = true)
    by (apply slice_ok_fresh; [done|by rewrite length_replicate]).
  assert (Hel1 : elems h1 e = replicate (S (S k)) "")
    by (unfold h1, e; rewrite elems_fresh, take_ge; [done|by rewrite length_replicate]).
  destruct (store_elems h1 e 0 ("PACKER_BUILD_NAME='" +:+ PackerBuildName c +:+ "'")
              Hok1 ltac:(simpl; lia)) as (h2 & -> & Hel2 & Hlen2 & Hoks2 & Hag2).
  run_monad.
  assert (Hok2 : slice_ok h2 e = true) by (by rewrite Hoks2).
  destruct (store_elems h2 e 1 ("PACKER_BUILDER_TYPE='" +:+ PackerBuilderType c +:+ "'")
              Hok2 ltac:(simpl; lia)) as (h3 & -> & Hel3 & Hlen3 & Hoks3 & Hag3).
  run_monad.
  assert (Hok3 : slice_ok h3 e = true) by (by rewrite Hoks3).
  assert (Hag : agree (length h) h h3).
  { apply (agree_trans _ _ h1); [by apply agree_alloc|].
    apply (agree_trans _ _ h2); [by apply (Hag2 _ (length h))|by apply (Hag3 _ (length h))]. }
  assert (Hv3 : slice_ok h3 (Vars c) = true)
    by (by rewrite (slice_ok_agree (length h) h h3)).
  set (dst := Slice (Some (length h)) (0 + 2) (S (S k) - 2) (S (S k) - 2)).
  assert (Hre : reslice_from e 2 = Some dst) by done.
  assert (Hokd : slice_ok h3 dst = true) by (by apply (slice_ok_reslice h3 e 2)).
  pose proof (elems_copy h3 dst (Vars c) Hokd Hv3) as Hcp.
  pose proof (elems_copy_behind h3 e 2 dst (Vars c) Hok3 Hre) as Hbh.
  pose proof (length_elems _ _ Hokd) as Hlend.
  pose proof (length_copy h3 dst (Vars c)) as Hlc.
  pose proof (agree_copy (length h) h3 dst (Vars c)) as Hagc.
  pose proof (slice_ok_copy h3 dst (Vars c) e Hokd Hv3) as Hokc.
  rewrite Hre. run_monad.
  destruct (copy dst (Vars c) h3) as [m h4]. cbn [fst snd] in *.
  eexists. split; [reflexivity|]. cbn [heap config frame defers trace scripts envVars].
  split_and!; try done.
  - apply (agree_trans _ _ h3); [done|]. apply Hagc. by intros l [= <-].
  - rewrite Hlc, Hlen3, Hlen2. unfold h1. rewrite length_app. lia.
  - by rewrite Hokc.
  - rewrite (elems_reslice h4 e 2 dst Hre), Hbh, Hcp, Hel3, Hel2, Hel1.
    rewrite (elems_agree (length h) h h3) by done.
    replace (s_len dst) with k in * by (simpl; lia). fold k.
    rewrite Nat.min_id, (take_ge (elems h (Vars c))), drop_ge, app_nil_r by lia.
    done.
Qed.

End PostProcessPrep.


(* ===================================================================== *)
(** ** [PostProcess] as a whole                                           *)
(* ===================================================================== *)

Section PostProcessSpec.
Context {W Raw : Type} (sys : @Sys W Raw) {A : Type} `{Artifact A}.

Lemma run_defers_spec {F} (ds : list deferred) (st : @state W F) :
  heap (run_defers sys ds st) = heap st
  ∧ config (run_defers sys ds st) = config st
  ∧ trace (run_defers sys ds st) = trace st ++ map deferred_event ds.
Proof.
  revert st. induction ds as [|d ds IH]; intros st; simpl.
  - by rewrite app_nil_r.
  - destruct (IH (run_deferred sys d st)) as (-> & -> & ->).
    destruct d; simpl; by rewrite <- app_assoc.
Qed.

Lemma cleanup_events_defers lg p :
  map deferred_event (map DeferClose (reverse (log_opened lg))
                      ++ map DeferRemove (prep_temp p))
  = cleanup_events lg p.
Proof.
  unfold cleanup_events. rewrite map_app, !map_map. done.
Qed.

Lemma config_ok_inv h c :
  config_ok h c = true →
  slice_ok h (Inline c) = true ∧ slice_ok h (Scripts c) = true
  ∧ slice_ok h (Vars c) = true.
Proof.
  unfold config_ok. intros [[H1 H2]%andb_prop H3]%andb_prop. done.
Qed.

(** Every run of the body of [PostProcess] on a well-formed
    configuration: a preparation [p], then the loops as [lg] says. *)
Lemma PostProcess_body_spec (ui : @Ui W) (artifact : A)
    (st : @state W PostProcessLocals) :
  config_ok (heap st) (config st) = true →
  ∃ p lg st',
    PostProcess_body sys ui artifact st
    = (Return (final_result artifact (KeepInputArtifact (config st)) p lg), st')
    ∧ config st' = config st
    ∧ agree (length (heap st)) (heap st) (heap st')
    ∧ trace st'
      = trace st
        ++ prep_events (InlineShebang (config st)) (elems (heap st) (Inline (config st))) p
        ++ log_events (explicit_env (config st) (elems (heap st) (Vars (config st)))) lg
    ∧ defers st'
      = map DeferClose (reverse (log_opened lg)) ++ map DeferRemove (prep_temp p)
        ++ defers st
    ∧ elems (heap st') (scripts (frame st'))
      = elems (heap st) (Scripts (config st)) ++ prep_temp p
    ∧ prep_ok (elems (heap st) (Inline (config st))) p
    ∧ (p = NoInline ↔ is_nil (Inline (config st)) = true)
    ∧ log_ok lg
    ∧ (prep_error p ≠ None → lg = empty_log)
    ∧ log_pairs lg
        `prefix_of` cross (Files artifact)
                          (elems (heap st) (Scripts (config st)) ++ prep_temp p)
    ∧ (prep_error p = None → fin lg = Completed →
       log_pairs lg = cross (Files artifact)
                            (elems (heap st) (Scripts (config st)) ++ prep_temp p)).
Proof.
  destruct st as [h c fr ds w tr]. cbn [heap config trace defers].
  intros (Hinl & Hscr & Hvars)%config_ok_inv.
  pose proof (slice_ok_below _ _ Hinl) as Bi.
  pose proof (slice_ok_below _ _ Hscr) as Bs.
  pose proof (slice_ok_below _ _ Hvars) as Bv.
  pose proof (length_elems _ _ Hscr) as Ls.
  unfold PostProcess_body, make, alloc. run_monad.
  (* scripts := make(...); copy(scripts, p.config.Scripts) *)
  set (k := s_len (Scripts c)) in *.
  set (s0 := Slice (Some (length h)) 0 k k).
  set (h1 := h ++ [replicate k ""]).
  assert (Hok0 : slice_ok h1 s0 = true)
    by (apply slice_ok_fresh; [done|by rewrite length_replicate]).
  assert (Hag1 : agree (length h) h h1) by (by apply agree_alloc).
  assert (Hscr1 : slice_ok h1 (Scripts c) = true)
    by (by rewrite (slice_ok_agree (length h) h h1)).
  pose proof (elems_copy h1 s0 (Scripts c) Hok0 Hscr1) as Hcp.
  pose proof (agree_copy (length h) h1 s0 (Scripts c)) as Hagc.
  pose proof (slice_ok_copy h1 s0 (Scripts c) s0 Hok0 Hscr1) as Hokc.
  pose proof (length_copy h1 s0 (Scripts c)) as Hlc.
  destruct (copy s0 (Scripts c) h1) as [m h2]. cbn [fst snd] in *. run_monad.
  assert (Hag2 : agree (length h) h h2).
  { apply (agree_trans _ _ h1); [done|]. apply Hagc. by intros l [= <-]. }
  assert (Hel2 : elems h2 s0 = elems h (Scripts c)).
  { rewrite Hcp, (elems_agree (length h) h h1) by done.
    replace (s_len s0) with k by done.
    rewrite Nat.min_id, take_ge, drop_ge, app_nil_r; [done| |lia].
    unfold h1, s0. rewrite elems_fresh, length_take, length_replicate. lia. }
  assert (Hlen2 : length h ≤ length h2)
    by (rewrite Hlc; unfold h1; rewrite length_app; lia).
  (* the inline script *)
  match goal with
  | |- context [inline_script sys ?st0] =>
      destruct (inline_script_spec sys (A:=A) (length h) st0)
        as (p & st3 & Hrun3 & Hc3 & Htr3 & Hd3 & Hpok & Hnil & Hok3 & Hel3 & Hag3 & Hlen3)
  end; cbn [heap config frame scripts]; try done.
  { by rewrite (slice_ok_agree (length h) h h2). }
  { by rewrite Hokc. }
  { by intros l [= <-]. }
  cbn [heap config frame scripts trace defers] in *.
  rewrite Hrun3. rewrite (elems_agree (length h) h h2) in Htr3, Hpok by done.
  rewrite Hel2 in Hel3.
  destruct (prep_error p) as [e|] eqn:Hperr; cbn [outcome_of]; run_monad.
  { exists p, empty_log, st3. split.
    { unfold final_result. rewrite Hperr. reflexivity. }
    rewrite Hd3, Htr3. unfold log_events. simpl. rewrite !app_nil_r.
    split_and!; try done; try apply prefix_nil; try congruence.
    by apply (agree_trans _ _ h2). }
  (* envVars *)
  destruct (build_envVars_spec (A:=A) st3)
    as (st4 & Hrun4 & Hc4 & Hs4 & Htr4 & Hd4 & Hag4 & Hlen4 & Hok4 & Hel4).
  { rewrite Hc3. rewrite (slice_ok_agree (length h) h (heap st3)); [done..|].
    by apply (agree_trans _ _ h2). }
  rewrite Hrun4. run_monad.
  assert (Hag04 : agree (length h) h (heap st4)).
  { apply (agree_trans _ _ (heap st3)); [by apply (agree_trans _ _ h2)|].
    intros l Hl. apply Hag4. lia. }
  (* the loops *)
  assert (Hoks4 : slice_ok (heap st4) (scripts (frame st4)) = true).
  { rewrite Hs4. by rewrite (slice_ok_agree _ _ _ _ (slice_ok_below _ _ Hok3) Hag4). }
  assert (Hels4 : elems (heap st4) (scripts (frame st4))
                  = elems h (Scripts c) ++ prep_temp p).
  { rewrite Hs4, (elems_agree _ _ _ _ (slice_ok_below _ _ Hok3) Hag4).
    by rewrite Hel3. }
  match goal with
  | |- context [for_each (Files artifact) ?b st4] =>
      change (for_each (Files artifact) b st4)
        with (for_each (Files artifact)
                (λ art, l ← local; for_range (scripts l) (run_script sys (A:=A) ui art))
                st4)
  end.
  rewrite (loops_for_pairs sys ui (Files artifact) st4 Hoks4), Hels4.
  destruct (for_pairs_spec sys (A:=A) ui
              (cross (Files artifact) (elems h (Scripts c) ++ prep_temp p)) st4)
    as (lg & st5 & Hrun5 & (Hh5 & Hc5 & Hs5 & He5) & Htr5 & Hd5 & Hlok & Hpre & Hall).
  rewrite Hrun5. rewrite Hel4, Hc3 in Htr5.
  rewrite (elems_agree (length h) h (heap st3)) in Htr5
    by (done || by apply (agree_trans _ _ h2)).
  exists p, lg, st5.
  assert (Hfacts : config st5 = c ∧ agree (length h) h (heap st5)
            ∧ trace st5 = tr ++ prep_events (InlineShebang c) (elems h (Inline c)) p
                          ++ log_events (explicit_env c (elems h (Vars c))) lg
            ∧ defers st5 = map DeferClose (reverse (log_opened lg))
                           ++ map DeferRemove (prep_temp p) ++ ds
            ∧ elems (heap st5) (scripts (frame st5)) = elems h (Scripts c) ++ prep_temp p).
  { rewrite Hh5, Hc5, Hs5, Hc4, Hc3, Htr5, Htr4, Htr3, Hd5, Hd4, Hd3, <- !app_assoc.
    done. }
  unfold log_outcome.
  destruct (ending_error (fin lg)) as [e|] eqn:Hend; cbn [outcome_of] in *.
  - split; [unfold final_result; by rewrite Hperr, Hend|].
    split_and!; try tauto; try done.
  - run_monad. split; [unfold final_result; by rewrite Hperr, Hend|].
    split_and!; try tauto; try done.
Qed.

(** Every run of [PostProcess] on a well-formed configuration: the
    body, then the deferred calls. *)
Lemma PostProcess_spec (ui : @Ui W) (artifact : A) (st : @state W ()) :
  config_ok (heap st) (config st) = true →
  ∃ p lg st',
    PostProcess sys ui artifact st
    = (Some (final_result artifact (KeepInputArtifact (config st)) p lg), st')
    ∧ config st' = config st
    ∧ agree (length (heap st)) (heap st) (heap st')
    ∧ trace st'
      = trace st
        ++ prep_events (InlineShebang (config st)) (elems (heap st) (Inline (config st))) p
        ++ log_events (explicit_env (config st) (elems (heap st) (Vars (config st)))) lg
        ++ cleanup_events lg p
    ∧ prep_ok (elems (heap st) (Inline (config st))) p
    ∧ (p = NoInline ↔ is_nil (Inline (config st)) = true)
    ∧ log_ok lg
    ∧ (prep_error p ≠ None → lg = empty_log)
    ∧ log_pairs lg
        `prefix_of` cross (Files artifact)
                          (elems (heap st) (Scripts (config st)) ++ prep_temp p)
    ∧ (prep_error p = None → fin lg = Completed →
       log_pairs lg = cross (Files artifact)
                            (elems (heap st) (Scripts (config st)) ++ prep_temp p)).
Proof.
  intros Hok. unfold PostProcess, call.
  destruct (PostProcess_body_spec ui artifact
              (State (heap st) (config st) zero_locals [] (world st) (trace st)) Hok)
    as (p & lg & st5 & -> & Hc & Hag & Htr & Hd & _ & Hrest).
  cbn [heap config trace defers] in *. rewrite app_nil_r in Hd.
  exists p, lg. eexists. split; [reflexivity|].
  destruct (run_defers_spec (defers st5) st5) as (Hh' & Hc' & Ht').
  cbn [heap config trace]. rewrite Hh', Hc', Ht', Hd, cleanup_events_defers, Htr.
  rewrite <- !app_assoc. done.
Qed.

End PostProcessSpec.


(* ===================================================================== *)
(** ** [Configure] as a whole                                             *)
(* ===================================================================== *)

Section ConfigureSpec.
Context {W Raw : Type} (sys : @Sys W Raw).
Implicit Types (st : @state W ConfigureLocals).

Lemma errs_append_list o e : errs_list (MultiErrorAppend o e) = errs_list o ++ [e].
Proof. done. Qed.

(** One pass of the last loop. *)
Lemma check_var_spec idx kv st :
  slice_ok (heap st) (Vars (config st)) = true →
  elems (heap st) (Vars (config st)) !! idx = Some kv →
  ∃ st',
    check_var idx kv st = (Next (), st')
    ∧ config st' = config st ∧ trace st' = trace st ∧ defers st' = defers st
    ∧ world st' = world st
    ∧ errs_list (errs (frame st'))
      = errs_list (errs (frame st)) ++ (if var_ok kv then [] else [var_error kv])
    ∧ elems (heap st') (Vars (config st))
      = <[idx := normalize_var kv]> (elems (heap st) (Vars (config st)))
    ∧ (∀ s, slice_ok (heap st') s = slice_ok (heap st) s).
Proof.
  destruct st as [h c [er] ds w tr]. cbn [heap config frame defers world trace errs].
  intros Hok Hkv.
  assert (Hidx : idx < s_len (Vars c)).
  { rewrite <- (length_elems h) by done. by apply lookup_lt_Some in Hkv. }
  unfold check_var, var_ok, normalize_var, errs_append, index_assign.
  assert (Hbad : ∃ st', (assign (λ l : ConfigureLocals,
                                  {| errs := MultiErrorAppend (errs l) (var_error kv) |})
                          : M ConfigureLocals (option error) ())
                          (State h c {| errs := er |} ds w tr) = (Next (), st')
            ∧ config st' = c ∧ trace st' = tr ∧ defers st' = ds ∧ world st' = w
            ∧ errs_list (errs (frame st')) = errs_list er ++ [var_error kv]
            ∧ elems (heap st') (Vars c) = <[idx := kv]> (elems h (Vars c))
            ∧ (∀ s, slice_ok (heap st') s = slice_ok h s)).
  { eexists. split; [reflexivity|]. cbn [heap config frame defers world trace errs].
    rewrite list_insert_id by done. done. }
  destruct (Strings.SplitN kv "=" 2) as [|k [|v [|? ?]]]; try exact Hbad.
  destruct (String.eqb k ""); [exact Hbad|]. clear Hbad. run_monad.
  destruct (store_elems h (Vars c) idx (k +:+ "=" +:+ Strings.Replace v "'" quote_escape (-1))
              Hok Hidx) as (h' & -> & Hel & _ & Hoks & _).
  eexists. split; [reflexivity|]. cbn [heap config frame defers world trace errs].
  rewrite app_nil_r. done.
Qed.

(** The last loop: every entry is checked, and rewritten when it is
    well formed. *)
Lemma vars_loop_spec n i st :
  slice_ok (heap st) (Vars (config st)) = true →
  i + n ≤ s_len (Vars (config st)) →
  ∃ st',
    range_from (Vars (config st)) i n check_var st = (Next (), st')
    ∧ config st' = config st ∧ trace st' = trace st ∧ defers st' = defers st
    ∧ world st' = world st
    ∧ errs_list (errs (frame st'))
      = errs_list (errs (frame st))
        ++ var_errors (take n (drop i (elems (heap st) (Vars (config st)))))
    ∧ elems (heap st') (Vars (config st))
      = take i (elems (heap st) (Vars (config st)))
        ++ map normalize_var (take n (drop i (elems (heap st) (Vars (config st)))))
        ++ drop (i + n) (elems (heap st) (Vars (config st)))
    ∧ (∀ s, slice_ok (heap st') s = slice_ok (heap st) s).
Proof.
  revert i st. induction n as [|n IH]; intros i st Hok Hn.
  - exists st. rewrite take_0, Nat.add_0_r. simpl.
    rewrite !app_nil_r, take_drop. done.
  - pose proof (length_elems _ _ Hok) as Hlen.
    destruct (lookup_lt_is_Some_2 (elems (heap st) (Vars (config st))) i)
      as [kv Hkv]; [lia|].
    destruct (check_var_spec i kv st Hok Hkv)
      as (st1 & Hrun & Hc & Htr & Hd & Hw & Her & Hel & Hoks).
    change (range_from ?s i (S n) ?b)
      with (index s i ≫= λ v, b i v;; range_from s (S i) n b).
    rewrite bind_unfold. unfold index at 1. rewrite load_elems, Hkv.
    rewrite bind_unfold, Hrun.
    destruct (IH (S i) st1) as (st2 & Hrun2 & Hc2 & Htr2 & Hd2 & Hw2 & Her2 & Hel2 & Hoks2).
    { by rewrite Hc, Hoks. }
    { rewrite Hc. lia. }
    rewrite Hc in Hrun2, Her2, Hel2. rewrite Hrun2.
    exists st2. split; [done|].
    rewrite Hc2, Htr2, Hd2, Hw2, Her2, Hel2, Her, Hel.
    split_and!; try done.
    + rewrite (drop_S _ _ _ Hkv). rewrite drop_insert_lt by lia.
      simpl. by rewrite <- app_assoc.
    + rewrite (drop_S _ _ _ Hkv). rewrite drop_insert_lt, drop_insert_lt by lia.
      rewrite take_insert_lt by lia. simpl.
      rewrite (take_S_r _ _ kv) by done.
      rewrite insert_app_r_alt by (rewrite length_take; lia).
      rewrite length_take_le by lia. rewrite Nat.sub_diag. simpl.
      rewrite <- app_assoc. simpl. repeat f_equal. lia.
    + intros s. by rewrite Hoks2, Hoks.
Qed.


(** The loop over the script paths: one [os.Stat] per path, one error
    per failure. *)
Lemma stat_loop_spec (paths : list string) st :
  ∃ stats st',
    for_each paths (check_script sys 0) st = (Next (), st')
    ∧ map fst stats = paths
    ∧ heap st' = heap st ∧ config st' = config st ∧ defers st' = defers st
    ∧ trace st' = trace st ++ stat_events stats
    ∧ errs_list (errs (frame st')) = errs_list (errs (frame st)) ++ script_errors stats.
Proof.
  revert st. induction paths as [|path paths IH]; intros st.
  - exists [], st. simpl. by rewrite !app_nil_r.
  - change (for_each (path :: paths) ?b) with (b path;; for_each paths b).
    rewrite bind_unfold. destruct st as [h c [er] ds w tr].
    unfold check_script at 1, errs_append. run_monad.
    destruct (os_Stat sys path w) as [[e|] w1] eqn:Hstat; run_monad.
    + destruct (IH (State h c {| errs := MultiErrorAppend er (script_error path e) |}
                       ds w1 (tr ++ [EvStat path (Some e)])))
        as (stats & st2 & Hrun & Hmap & Hh2 & Hc2 & Hd2 & Htr2 & Her2).
      exists ((path, Some e) :: stats), st2. split; [exact Hrun|].
      rewrite Hh2, Hc2, Hd2, Htr2, Her2. simpl.
      rewrite Hmap, <- !app_assoc. done.
    + destruct (IH (State h c {| errs := er |} ds w1 (tr ++ [EvStat path None])))
        as (stats & st2 & Hrun & Hmap & Hh2 & Hc2 & Hd2 & Htr2 & Her2).
      exists ((path, None) :: stats), st2. split; [exact Hrun|].
      rewrite Hh2, Hc2, Hd2, Htr2, Her2. simpl.
      rewrite Hmap, <- !app_assoc. done.
Qed.


Lemma p_config_eq {F R} (st : @state W F) :
  (p_config : M F R Config) st = (Next (config st), st).
Proof. done. Qed.

Lemma local_eq {F R} (st : @state W F) :
  (local : M F R F) st = (Next (frame st), st).
Proof. done. Qed.

Lemma when_eq {F R} (b : bool) (m : M F R unit) (st : @state W F) :
  when b m st = if b then m st else (Next (), st).
Proof. by destruct b. Qed.

Lemma errors_result_errs (o : option (list string)) (st : @state W ConfigureLocals) :
  (match o with
   | Some (e :: es) => return_ (Some (MultiError (e :: es)))
   | _ => return_ None
   end : M ConfigureLocals (option error) ()) st
  = (Return (errors_result (errs_list o)), st).
Proof. by destruct o as [[|e es]|]. Qed.

Lemma when_assign_config {F R} (b : bool) f (st : @state W F) :
  when b (assign_config f : M F R ()) st
  = (Next (), State (heap st) (if b then f (config st) else config st) (frame st)
                    (defers st) (world st) (trace st)).
Proof. destruct b, st; done. Qed.

Lemma when_alloc {F R} (b : bool) (vs : list string) setf (st : @state W F) :
  when b (s ← on_heap (literal vs); (assign_config (setf s) : M F R ())) st
  = (Next (),
     if b then State (heap st ++ [vs])
                     (setf (Slice (Some (length (heap st))) 0 (length vs) (length vs))
                           (config st))
                     (frame st) (defers st) (world st) (trace st)
     else st).
Proof. destruct b, st; done. Qed.

Lemma when_errs_append (b : bool) e (st : @state W ConfigureLocals) :
  when b (errs_append e) st
  = (Next (), State (heap st) (config st)
                    {| errs := if b then MultiErrorAppend (errs (frame st)) e
                               else errs (frame st) |}
                    (defers st) (world st) (trace st)).
Proof. destruct b, st as [? ? [?] ? ? ?]; done. Qed.

Lemma config_ok_intro h c :
  slice_ok h (Inline c) = true → slice_ok h (Scripts c) = true →
  slice_ok h (Vars c) = true → config_ok h c = true.
Proof. intros H1 H2 H3. unfold config_ok. by rewrite H1, H2, H3. Qed.

Lemma cfg_tracks_refl h c : config_ok h c = true → cfg_tracks h c h c.
Proof. intros Hok. unfold cfg_tracks. split_and!; try done. Qed.

Lemma cfg_tracks_set_Inline h1 c1 h c s :
  cfg_tracks h1 c1 h c → slice_ok h s = true → cfg_tracks h1 c1 h (set_Inline s c).
Proof.
  intros (Hag & Hlen & (Hi & Hs & Hv)%config_ok_inv & Hrest) Hok.
  unfold cfg_tracks. split_and!; try tauto. by apply config_ok_intro.
Qed.

Lemma cfg_tracks_set_InlineShebang h1 c1 h c v :
  cfg_tracks h1 c1 h c → cfg_tracks h1 c1 h (set_InlineShebang v c).
Proof. intros (Hag & Hlen & Hok & Hrest). unfold cfg_tracks. tauto. Qed.

Lemma cfg_tracks_alloc h1 c1 h c vs :
  cfg_tracks h1 c1 h c →
  let s := Slice (Some (length h)) 0 (length vs) (length vs) in
  cfg_tracks h1 c1 (h ++ [vs]) (set_Scripts s c)
  ∧ (is_nil (Vars c) = true → vs = [] → cfg_tracks h1 c1 (h ++ [vs]) (set_Vars s c)).
Proof.
  intros (Hag & Hlen & (Hi & Hs & Hv)%config_ok_inv & HS & HV & Hrest) s.
  assert (Hag' : agree (length h) h (h ++ [vs])) by (by apply agree_alloc).
  assert (Hag1 : agree (length h1) h1 (h ++ [vs])).
  { apply (agree_trans _ _ h); [done|]. intros l Hl. apply Hag'. lia. }
  assert (Hfresh : slice_ok (h ++ [vs]) s = true) by (by apply slice_ok_fresh).
  assert (Hkeep : ∀ s', slice_ok h s' = true → slice_ok (h ++ [vs]) s' = true
                        ∧ elems (h ++ [vs]) s' = elems h s').
  { intros s' Hok'. pose proof (slice_ok_below _ _ Hok') as Hb.
    by rewrite (slice_ok_agree _ _ _ _ Hb Hag'), (elems_agree _ _ _ _ Hb Hag'). }
  destruct (Hkeep _ Hi) as [Hi' _]. destruct (Hkeep _ Hs) as [Hs' _].
  destruct (Hkeep _ Hv) as [Hv' Hev].
  unfold cfg_tracks. rewrite length_app. simpl. split.
  - split_and!; try tauto; try lia; [by apply config_ok_intro|by rewrite Hev].
  - intros Hnil ->. split_and!; try tauto; try lia; [by apply config_ok_intro|].
    rewrite <- HV. change (Vars (set_Vars s c)) with s. unfold s.
    rewrite elems_fresh. simpl.
    unfold elems, is_nil in *. by destruct (s_arr (Vars c)).
Qed.

(** [s[i] = v] leaves the other arrays alone. *)
Lemma store_other h s i v h' l' :
  store s i v h = Some h' → s_arr s ≠ Some l' → h' !! l' = h !! l'.
Proof.
  unfold store. destruct (i <? s_len s); [|done].
  destruct (s_arr s) as [l|]; [|done].
  destruct (h !! l) as [arr|]; [|done].
  destruct (s_off s + i <? length arr); [|done].
  intros [= <-] Hne. apply list_lookup_insert_ne. congruence.
Qed.

(** A pass of the last loop writes to the array of [p.config.Vars]
    only. *)
Lemma check_var_frame idx kv st l' :
  s_arr (Vars (config st)) ≠ Some l' →
  heap (check_var idx kv st).2 !! l' = heap st !! l'
  ∧ config (check_var idx kv st).2 = config st.
Proof.
  destruct st as [h c [er] ds w tr]. cbn [heap config]. intros Hne.
  unfold check_var, errs_append, index_assign.
  destruct (Strings.SplitN kv "=" 2) as [|k [|v [|? ?]]]; try done.
  destruct (String.eqb k ""); [done|]. run_monad.
  destruct (store (Vars c) idx _ h) as [h'|] eqn:Hst; [|done].
  cbn [heap config snd]. split; [|done]. exact (store_other _ _ _ _ _ _ Hst Hne).
Qed.

Lemma vars_loop_frame s n i st l' :
  s_arr (Vars (config st)) ≠ Some l' →
  heap (range_from s i n check_var st).2 !! l' = heap st !! l'
  ∧ config (range_from s i n check_var st).2 = config st.
Proof.
  revert i st. induction n as [|n IH]; intros i st Hne; [done|].
  change (range_from ?s0 i (S n) ?b)
    with (index s0 i ≫= λ v, b i v;; range_from s0 (S i) n b).
  rewrite bind_unfold. unfold index.
  destruct (load (heap st) s i) as [v|]; [|by split].
  rewrite bind_unfold.
  destruct (check_var_frame i v st l' Hne) as [Hh Hc].
  destruct (check_var i v st) as [[[]| |] st1]; cbn [snd] in *; [|by split..].
  destruct (IH (S i) st1) as [Hh' Hc']; [by rewrite Hc|].
  by rewrite Hh', Hc', Hh, Hc.
Qed.

Lemma apart_set_Scripts h c n :
  config_ok h c = true → apart (set_Scripts (Slice (Some (length h)) 0 n n) c).
Proof.
  intros (_ & _ & Hv)%config_ok_inv l [= <-] Hl.
  apply (slice_ok_below _ _ Hv) in Hl. simpl in Hl. lia.
Qed.

Lemma apart_set_Vars h c n :
  config_ok h c = true → apart (set_Vars (Slice (Some (length h)) 0 n n) c).
Proof.
  intros (_ & Hs & _)%config_ok_inv l Hl [= Heq].
  apply (slice_ok_below _ _ Hs) in Hl. simpl in Hl. lia.
Qed.

(** Every run of [Configure] whose decoding succeeds. When the decoder
    gave [scripts] and [environment_vars] arrays of their own, the script
    sequence is still what [Configure] looked up. *)
Lemma Configure_spec_scripts raws (u : @state W ()) c1 h1 :
  config_Decode sys raws (config u) (heap u) = (None, (c1, h1)) →
  config_ok h1 c1 = true →
  ∃ stats u',
    Configure sys raws u
    = (Some (errors_result (validation_errors h1 c1 stats)), u')
    ∧ map fst stats = resolved_scripts h1 c1
    ∧ trace u' = trace u ++ stat_events stats
    ∧ config_ok (heap u') (config u') = true
    ∧ is_nil (Inline (config u')) = negb (inline_given c1)
    ∧ (inline_given c1 = true → Inline (config u') = Inline c1)
    ∧ InlineShebang (config u')
      = (if String.eqb (InlineShebang c1) "" then "/bin/sh -e" else InlineShebang c1)
    ∧ s_len (Scripts (config u')) = length (resolved_scripts h1 c1)
    ∧ elems (heap u') (Vars (config u')) = map normalize_var (elems h1 (Vars c1))
    ∧ KeepInputArtifact (config u') = KeepInputArtifact c1
    ∧ PackerBuildName (config u') = PackerBuildName c1
    ∧ PackerBuilderType (config u') = PackerBuilderType c1
    ∧ (apart c1 → elems (heap u') (Scripts (config u')) = resolved_scripts h1 c1).
Proof.
  destruct u as [h c [] ds w tr]. cbn [heap config trace].
  intros Hdec (Hinl & Hscr & Hvars)%config_ok_inv.
  assert (Hok1 : config_ok h1 c1 = true) by (by apply config_ok_intro).
  pose proof (cfg_tracks_refl h1 c1 Hok1) as T1.
  unfold Configure, call, Configure_body.
  rewrite bind_unfold. unfold decode at 1. cbn [heap config frame defers world trace].
  rewrite Hdec. rewrite bind_unfold. unfold skip at 1.
  change ((mret () : M ConfigureLocals (option error) ()) ?s) with (@Next (option error) _ (), s).
  cbv beta iota.
  (* an empty inline list counts as none *)
  rewrite bind_unfold, p_config_eq; cbv beta iota.
  rewrite bind_unfold, when_assign_config; cbv beta iota.
  cbn [heap config frame defers world trace].
  set (c2 := if negb (is_nil (Inline c1)) && (s_len (Inline c1) =? 0)
             then set_Inline nil_slice c1 else c1).
  assert (T2 : cfg_tracks h1 c1 h1 c2 ∧ Scripts c2 = Scripts c1
               ∧ InlineShebang c2 = InlineShebang c1
               ∧ is_nil (Inline c2) = negb (inline_given c1)
               ∧ (inline_given c1 = true → Inline c2 = Inline c1)
               ∧ (apart c1 → apart c2)).
  { unfold c2, inline_given.
    destruct (is_nil (Inline c1)) eqn:Hn, (s_len (Inline c1) =? 0); simpl;
      rewrite ?Hn; split_and!; try done; by apply cfg_tracks_set_Inline. }
  clearbody c2. destruct T2 as (T2 & S2 & B2 & I2 & J2 & A2).
  (* the default shebang *)
  rewrite bind_unfold, p_config_eq; cbv beta iota.
  rewrite bind_unfold, when_assign_config; cbv beta iota.
  cbn [heap config frame defers world trace].
  set (c3 := if String.eqb (InlineShebang c2) ""
             then set_InlineShebang "/bin/sh -e" c2 else c2).
  assert (T3 : cfg_tracks h1 c1 h1 c3 ∧ Scripts c3 = Scripts c1 ∧ Inline c3 = Inline c2
               ∧ InlineShebang c3
                 = (if String.eqb (InlineShebang c1) "" then "/bin/sh -e"
                    else InlineShebang c1)
               ∧ (apart c1 → apart c3)).
  { unfold c3. rewrite B2. destruct (String.eqb (InlineShebang c1) ""); simpl;
      split_and!; try done; by apply cfg_tracks_set_InlineShebang. }
  clearbody c3. destruct T3 as (T3 & S3 & I3 & B3 & A3). rewrite <- I3 in I2, J2.
  clear c2 T2 S2 B2 I3 A2.
  (* Scripts and Vars are made non-nil *)
  rewrite bind_unfold, p_config_eq; cbv beta iota.
  change (make 0) with (literal []).
  rewrite bind_unfold, when_alloc; cbv beta iota.
  cbn [heap config frame defers world trace length].
  match goal with
  | |- context [if is_nil (Scripts c3) then ?s1 else ?s2] =>
      assert (∃ h4 c4, (if is_nil (Scripts c3) then s1 else s2)
                       = State h4 c4 {| errs := None |} [] w tr
                ∧ cfg_tracks h1 c1 h4 c4 ∧ Inline c4 = Inline c3
                ∧ InlineShebang c4 = InlineShebang c3
                ∧ s_len (Scripts c4) = s_len (Scripts c1)
                ∧ elems h4 (Scripts c4) = elems h1 (Scripts c1)
                ∧ (apart c1 → apart c4))
        as (h4 & c4 & -> & T4 & I4 & B4 & L4 & E4 & A4)
  end.
  { destruct (is_nil (Scripts c3)) eqn:Hn.
    - do 2 eexists. split; [reflexivity|].
      destruct (cfg_tracks_alloc h1 c1 h1 c3 [] T3) as [T _].
      split_and!; try done; unfold is_nil in Hn; rewrite S3 in Hn.
      + apply slice_ok_inv in Hscr. destruct (s_arr (Scripts c1)); [done|].
        simpl. symmetry. apply Hscr.
      + simpl. rewrite elems_fresh. unfold elems.
        by destruct (s_arr (Scripts c1)).
      + intros _. apply apart_set_Scripts. by destruct T3 as (_ & _ & ? & _).
    - do 2 eexists. split; [reflexivity|]. rewrite S3. done. }
  rewrite <- I4 in I2, J2. rewrite <- B4 in B3. clear c3 T3 S3 I4 B4 A3.
  rewrite bind_unfold, p_config_eq; cbv beta iota.
  rewrite bind_unfold, when_alloc; cbv beta iota.
  cbn [heap config frame defers world trace length].
  match goal with
  | |- context [if is_nil (Vars c4) then ?s1 else ?s2] =>
      assert (∃ h5 c5, (if is_nil (Vars c4) then s1 else s2)
                       = State h5 c5 {| errs := None |} [] w tr
                ∧ cfg_tracks h1 c1 h5 c5 ∧ Inline c5 = Inline c4
                ∧ InlineShebang c5 = InlineShebang c4
                ∧ s_len (Scripts c5) = s_len (Scripts c1)
                ∧ elems h5 (Scripts c5) = elems h1 (Scripts c1)
                ∧ (apart c1 → apart c5))
        as (h5 & c5 & -> & T5 & I5 & B5 & L5 & E5 & A5)
  end.
  { destruct (is_nil (Vars c4)) eqn:Hn.
    - do 2 eexists. split; [reflexivity|].
      destruct (cfg_tracks_alloc h1 c1 h4 c4 [] T4) as [_ T].
      split_and!; try done; [by apply T| |].
      + destruct T4 as (_ & _ & (_ & Hs4 & _)%config_ok_inv & _).
        simpl. rewrite <- E4.
        apply (elems_agree (length h4)); [by apply slice_ok_below|by apply agree_alloc].
      + intros _. apply apart_set_Vars. by destruct T4 as (_ & _ & ? & _).
    - do 2 eexists. split; [reflexivity|]. done. }
  rewrite <- I5 in I2, J2. rewrite <- B5 in B3. clear h4 c4 T4 L4 E4 I5 B5 A4.
  (* script and scripts together *)
  pose proof T5 as (_ & _ & _ & HS5 & _).
  rewrite bind_unfold, p_config_eq; cbv beta iota.
  rewrite bind_unfold, when_errs_append; cbv beta iota.
  cbn [heap config frame defers world trace errs]. rewrite HS5, L5.
  match goal with
  | |- context [State h5 c5 {| errs := ?e |} _ _ _] => set (e6 := e)
  end.
  assert (R6 : errs_list e6 = field_errors c1).
  { unfold e6, field_errors.
    by destruct (negb (String.eqb (Script c1) "") && (0 <? s_len (Scripts c1))). }
  clearbody e6.
  (* the single script becomes the sequence *)
  rewrite bind_unfold, p_config_eq; cbv beta iota.
  rewrite bind_unfold, when_alloc; cbv beta iota.
  cbn [heap config frame defers world trace length]. rewrite HS5.
  match goal with
  | |- context [if negb (String.eqb (Script c1) "") then ?s1 else ?s2] =>
      assert (∃ h7 c7, (if negb (String.eqb (Script c1) "") then s1 else s2)
                       = State h7 c7 {| errs := e6 |} [] w tr
                ∧ cfg_tracks h1 c1 h7 c7 ∧ Inline c7 = Inline c5
                ∧ InlineShebang c7 = InlineShebang c5
                ∧ elems h7 (Scripts c7) = resolved_scripts h1 c1
                ∧ (apart c1 → apart c7))
        as (h7 & c7 & -> & T7 & I7 & B7 & E7 & A7)
  end.
  { unfold resolved_scripts. destruct (String.eqb (Script c1) "") eqn:Hn; simpl.
    - do 2 eexists. split; [reflexivity|]. done.
    - do 2 eexists. split; [reflexivity|].
      destruct (cfg_tracks_alloc h1 c1 h5 c5 [Script c1] T5) as [T _].
      split_and!; try done; [simpl; by rewrite elems_fresh|].
      intros _. apply (apart_set_Scripts h5 c5 1). by destruct T5 as (_ & _ & ? & _). }
  rewrite <- I7 in I2, J2. rewrite <- B7 in B3. clear h5 c5 T5 L5 E5 HS5 I7 B7 A5.
  pose proof T7 as (_ & _ & (Hi7 & Hs7 & Hv7)%config_ok_inv & _ & V7 & K7 & N7 & Y7).
  pose proof (length_elems _ _ Hs7) as L7. rewrite E7 in L7.
  (* neither, or both *)
  rewrite bind_unfold, p_config_eq; cbv beta iota.
  rewrite bind_unfold. cbn [heap config frame defers world trace].
  match goal with
  | |- context [(if ?a then ?m1 else ?m2) ?s0] =>
      assert (∃ e8, (if a then m1 else m2) s0
                    = (Next (), State h7 c7 {| errs := e8 |} [] w tr)
                ∧ errs_list e8
                  = errs_list e6 ++ kind_errors (resolved_scripts h1 c1) (inline_given c1))
        as (e8 & -> & R8)
  end.
  { rewrite I2, <- L7. destruct (resolved_scripts h1 c1) as [|x xs];
      destruct (inline_given c1); simpl; eexists; (split; [reflexivity|]);
      simpl; rewrite ?app_nil_r; done. }
  cbv beta iota.
  (* the scripts exist *)
  rewrite bind_unfold, p_config_eq; cbv beta iota.
  rewrite bind_unfold. cbn [heap config frame defers world trace].
  rewrite (for_range_for_each _ _ (check_script sys 0)); [|done| |done].
  2:{ intros v st'. destruct (stat_loop_spec [v] st') as (? & st2 & Hrun & _ & Hh & _).
      revert Hrun. change (for_each [v] ?b) with (b v;; (skip : M ConfigureLocals (option error) ())).
      rewrite bind_unfold. destruct (check_script sys 0 v st') as [[[]| |] st3]; try done.
      intros [= <-]. done. }
  cbn [heap]. rewrite E7.
  match goal with
  | |- context [for_each _ _ ?s0] =>
      destruct (stat_loop_spec (resolved_scripts h1 c1) s0)
        as (stats & st9 & -> & Hmap & Hh9 & Hc9 & Hd9 & Htr9 & R9)
  end.
  cbn [heap config frame defers world trace errs] in *. cbv beta iota.
  (* the environment variables *)
  rewrite bind_unfold, p_config_eq; cbv beta iota.
  rewrite bind_unfold. unfold for_range.
  destruct (vars_loop_spec (s_len (Vars (config st9))) 0 st9)
    as (st10 & Hrun & Hc10 & Htr10 & Hd10 & Hw10 & R10 & E10 & Hoks10);
    [by rewrite Hh9, Hc9|lia|].
  assert (Hframe : ∀ l', s_arr (Vars (config st9)) ≠ Some l' →
                         heap st10 !! l' = heap st9 !! l').
  { intros l' Hne.
    destruct (vars_loop_frame (Vars (config st9)) (s_len (Vars (config st9))) 0 st9 l' Hne)
      as [Hfr _].
    unfold for_range in Hrun. by rewrite Hrun in Hfr. }
  rewrite Hrun. cbv beta iota.
  rewrite bind_unfold, local_eq; cbv beta iota.
  rewrite errors_result_errs.
  assert (Hlv : length (elems (heap st9) (Vars (config st9))) = s_len (Vars (config st9)))
    by (apply length_elems; by rewrite Hh9, Hc9).
  rewrite take_0 in E10. simpl in E10.
  rewrite drop_0, take_ge in R10, E10 by lia.
  rewrite drop_ge, app_nil_r in E10 by lia.
  rewrite Hh9, Hc9 in R10, E10. rewrite V7 in R10, E10.
  exists stats. eexists. split.
  { rewrite Hd10, Hd9. cbn [run_defers]. rewrite R10, R9, R8, R6.
    unfold validation_errors. rewrite <- !app_assoc. reflexivity. }
  cbn [run_defers heap config trace].
  rewrite Hc10, Htr10, Htr9. rewrite Hc9 in *.
  split_and!; try done.
  - apply config_ok_intro; rewrite Hoks10, Hh9; done.
  - intros Hapart%A7. rewrite <- E7. unfold elems.
    destruct (s_arr (Scripts c7)) as [l|] eqn:Hl; [|done].
    rewrite Hframe, Hh9; [done|]. by apply Hapart.
Qed.

Lemma Configure_spec raws (u : @state W ()) c1 h1 :
  config_Decode sys raws (config u) (heap u) = (None, (c1, h1)) →
  config_ok h1 c1 = true →
  ∃ stats u',
    Configure sys raws u
    = (Some (errors_result (validation_errors h1 c1 stats)), u')
    ∧ map fst stats = resolved_scripts h1 c1
    ∧ trace u' = trace u ++ stat_events stats
    ∧ config_ok (heap u') (config u') = true
    ∧ is_nil (Inline (config u')) = negb (inline_given c1)
    ∧ (inline_given c1 = true → Inline (config u') = Inline c1)
    ∧ InlineShebang (config u')
      = (if String.eqb (InlineShebang c1) "" then "/bin/sh -e" else InlineShebang c1)
    ∧ s_len (Scripts (config u')) = length (resolved_scripts h1 c1)
    ∧ elems (heap u') (Vars (config u')) = map normalize_var (elems h1 (Vars c1))
    ∧ KeepInputArtifact (config u') = KeepInputArtifact c1
    ∧ PackerBuildName (config u') = PackerBuildName c1
    ∧ PackerBuilderType (config u') = PackerBuilderType c1.
Proof.
  intros Hdec Hok.
  destruct (Configure_spec_scripts raws u c1 h1 Hdec Hok)
    as (stats & u' & H1 & H2 & H3 & H4 & H5 & H6 & H7 & H8 & H9 & H10 & H11 & H12 & _).
  exists stats, u'. split_and!; done.
Qed.

End ConfigureSpec.


(* ===================================================================== *)
(** ** Reading the traces                                                 *)
(* ===================================================================== *)

Section TraceFacts.

Lemma added_app {W F G} (st : @state W F) (st' : @state W G) evs :
  trace st' = trace st ++ evs → added st st' = evs.
Proof. intros Htr. unfold added. by rewrite Htr, drop_app_length. Qed.

Lemma bind_nil_Forall {B} (f : event → list B) (evs : list event) :
  Forall (λ ev, f ev = []) evs → evs ≫= f = [].
Proof.
  induction 1 as [|ev evs Hev _ IH]; [done|].
  change ((ev :: evs) ≫= f) with (f ev ++ (evs ≫= f)). by rewrite Hev, IH.
Qed.

Lemma write_events_Forall (P : event → Prop) tf cmds :
  (∀ f d r, P (EvWriteString f d r)) → Forall P (write_events tf cmds).
Proof. intros HP. unfold write_events. apply Forall_fmap, Forall_true. intros c. apply HP. Qed.

Lemma prep_events_Forall (P : event → Prop) shebang inline p :
  (∀ d pat r, P (EvTempFile d pat r)) → (∀ f d r, P (EvWriteString f d r)) →
  (∀ f r, P (EvFlush f r)) → (∀ f, P (EvClose f)) →
  Forall P (prep_events shebang inline p).
Proof.
  intros Ht Hw Hf Hc.
  destruct p; simpl; repeat (apply Forall_cons; split; [done|]);
    repeat (apply Forall_app; split; [by apply write_events_Forall|]);
    repeat (apply Forall_cons; split; [done|]); apply Forall_nil_2.
Qed.

Lemma cleanup_events_Forall (P : event → Prop) lg p :
  (∀ f, P (EvClose f)) → (∀ n, P (EvRemove n)) → Forall P (cleanup_events lg p).
Proof.
  intros Hc Hr. unfold cleanup_events. apply Forall_app. split.
  - apply Forall_fmap, Forall_true. intros f. apply Hc.
  - apply Forall_fmap, Forall_true. intros n. apply Hr.
Qed.

(** The events of the loops: everything but the [cmd.Run] calls, and
    those of the passes. *)
Lemma log_events_Forall (P : event → Prop) explicit lg :
  (∀ m, P (EvSay m)) → (∀ m, P (EvLog m)) → (∀ f r, P (EvOpen f r)) →
  (∀ m, P (EvMessage m)) → (∀ e, P (EvEnviron e)) →
  (∀ i, i ∈ done_passes lg ∨ fin lg = RunFailed i →
        P (EvRun "sh" ["-c"; command_of (i_path i) (i_art i)]
                 (i_ambient i ++ explicit) (i_res i))) →
  Forall P (log_events explicit lg).
Proof.
  intros Hs Hl Ho Hm He Hr. unfold log_events. apply Forall_app. split.
  - apply Forall_forall. intros ev (i & Hev & Hi)%list_elem_of_bind.
    revert ev Hev. apply Forall_forall. unfold success_events, invocation_events.
    simpl. repeat (apply Forall_cons; split; [done || (apply Hr; by left)|]).
    apply Forall_nil_2.
  - destruct (fin lg) as [|art path e|i] eqn:Hfin; simpl.
    + apply Forall_nil_2.
    + unfold open_failure_events. repeat (apply Forall_cons; split; [done|]).
      apply Forall_nil_2.
    + unfold invocation_events.
      repeat (apply Forall_cons; split; [done || (apply Hr; by right)|]).
      apply Forall_nil_2.
Qed.

Lemma runs_log explicit lg : runs (log_events explicit lg) = map sh_c (log_ran lg).
Proof.
  unfold runs, log_events, log_ran. rewrite bind_app, map_app. f_equal.
  - induction (done_passes lg) as [|i l IH]; [done|].
    change ((i :: l) ≫= success_events explicit)
      with (success_events explicit i ++ (l ≫= success_events explicit)).
    rewrite bind_app, IH. done.
  - by destruct (fin lg).
Qed.

Lemma log_ran_prefix lg : log_ran lg `prefix_of` log_pairs lg.
Proof.
  unfold log_ran, log_pairs. apply prefix_app.
  destruct (fin lg); [done|apply prefix_nil|done].
Qed.

Lemma log_ran_completed lg : fin lg = Completed → log_ran lg = log_pairs lg.
Proof. unfold log_ran, log_pairs. by intros ->. Qed.

Lemma temp_files_prep shebang inline p :
  temp_files (prep_events shebang inline p) = prep_temp p.
Proof.
  assert (Hw : ∀ tf cmds, temp_files (write_events tf cmds) = []).
  { intros tf cmds. apply bind_nil_Forall. by apply write_events_Forall. }
  unfold temp_files in *.
  destruct p; simpl; try done;
    change (?a :: ?b :: ?l ++ ?k) with ([a; b] ++ l ++ k);
    rewrite !bind_app, Hw; done.
Qed.

Lemma temp_calls_prep shebang inline p :
  temp_calls (prep_events shebang inline p)
  = match p with NoInline => 0 | _ => 1 end.
Proof.
  assert (Hw : ∀ tf cmds,
             write_events tf cmds
             ≫= (λ ev, match ev with EvTempFile _ _ _ => [ev] | _ => [] end) = []).
  { intros tf cmds. apply bind_nil_Forall. by apply write_events_Forall. }
  unfold temp_calls.
  destruct p; simpl; try done;
    change (?a :: ?b :: ?l ++ ?k) with ([a; b] ++ l ++ k);
    rewrite !bind_app, Hw; done.
Qed.

Lemma final_result_ok {A} (artifact : A) keep p lg a k :
  final_result artifact keep p lg = (a, k, None) →
  prep_error p = None ∧ fin lg = Completed ∧ a = Some artifact ∧ k = keep.
Proof.
  unfold final_result. destruct (prep_error p); [done|].
  destruct (fin lg); simpl; [|done..]. by intros [= <- <-].
Qed.

Lemma final_result_error {A} (artifact : A) keep p lg a k e :
  final_result artifact keep p lg = (a, k, Some e) → a = None ∧ k = false.
Proof.
  unfold final_result. destruct (prep_error p); [by intros [= <- <- _]|].
  destruct (ending_error (fin lg)); [by intros [= <- <- _]|done].
Qed.

(** A list splits in one way only around the one element that has [P]. *)
Lemma split_unique {B} (P : B → Prop) (l1 r1 l2 r2 : list B) (x y : B) :
  l1 ++ x :: r1 = l2 ++ y :: r2 →
  Forall (λ z, ¬ P z) l1 → Forall (λ z, ¬ P z) r1 → P y →
  l2 = l1 ∧ y = x ∧ r2 = r1.
Proof.
  revert l2. induction l1 as [|a l1 IH]; intros l2 Heq H1 Hr Hy.
  - destruct l2 as [|b l2]; simpl in Heq.
    + by injection Heq as -> ->.
    + injection Heq as -> ->. exfalso.
      rewrite Forall_forall in Hr. apply (Hr y); [|done].
      apply elem_of_app. right. by left.
  - destruct l2 as [|b l2]; simpl in Heq.
    + injection Heq as <- _. by inversion H1.
    + injection Heq as -> Heq. inversion H1; subst.
      destruct (IH l2) as (-> & -> & ->); done.
Qed.

Lemma getenv_app key (env1 env2 : list string) :
  getenv key (env1 ++ env2)
  = match getenv key env2 with Some v => Some v | None => getenv key env1 end.
Proof.
  induction env1 as [|kv env1 IH]; simpl.
  - by destruct (getenv key env2).
  - rewrite IH. by destruct (getenv key env2).
Qed.

End TraceFacts.


(* ===================================================================== *)
(** ** The calls of the trace are the calls made on the world             *)
(* ===================================================================== *)

Section ReplayFacts.
Context {W Raw : Type} (sys : @Sys W Raw) (ui : @Ui W).

Lemma replay_app evs1 evs2 (w : W) :
  replay sys ui (evs1 ++ evs2) w = replay sys ui evs2 (replay sys ui evs1 w).
Proof. revert w. induction evs1 as [|ev evs1 IH]; intros w; [done|]. simpl. apply IH. Qed.

Lemma played_app evs1 evs2 (w : W) :
  played sys ui (evs1 ++ evs2) w
  ↔ played sys ui evs1 w ∧ played sys ui evs2 (replay sys ui evs1 w).
Proof.
  revert w. induction evs1 as [|ev evs1 IH]; intros w; simpl.
  - tauto.
  - rewrite IH. tauto.
Qed.

Lemma synced_start {F} (st : @state W F) : synced sys ui (world st) (trace st) st.
Proof. exists []. by rewrite app_nil_r. Qed.

Lemma synced_same {F G} w0 tr0 (st : @state W F) (st' : @state W G) :
  synced sys ui w0 tr0 st → trace st' = trace st → world st' = world st →
  synced sys ui w0 tr0 st'.
Proof. intros (evs & Htr & Hp & Hw) Htr' Hw'. exists evs. by rewrite Htr', Hw'. Qed.

Lemma synced_step {F G} w0 tr0 (st : @state W F) (st' : @state W G) ev :
  synced sys ui w0 tr0 st →
  trace st' = trace st ++ [ev] →
  answered sys ev (world st) →
  world st' = effect sys ui ev (world st) →
  synced sys ui w0 tr0 st'.
Proof.
  intros (evs & Htr & Hp & Hw) Htr' Ha Hw'. exists (evs ++ [ev]). split; [|split].
  - by rewrite Htr', Htr, <- app_assoc.
  - apply played_app. split; [done|]. simpl. by rewrite <- Hw.
  - by rewrite replay_app, Hw', Hw.
Qed.

Section Statements.
Context {F R : Type}.
Implicit Types (st : @state W F).

Lemma keeps_bind {B C} (m : @M W F R B) (k : B → @M W F R C) :
  keeps sys ui m → (∀ b, keeps sys ui (k b)) → keeps sys ui (m ≫= k).
Proof.
  intros Hm Hk w0 tr0 st Hs. specialize (Hm w0 tr0 st Hs).
  rewrite bind_unfold. destruct (m st) as [[b|r|msg] st1]; [|done..].
  by apply Hk.
Qed.

(** A statement that makes no call. *)
Lemma keeps_silent {B} (m : @M W F R B) :
  (∀ st, trace (m st).2 = trace st ∧ world (m st).2 = world st) → keeps sys ui m.
Proof.
  intros Hm w0 tr0 st Hs. destruct (Hm st) as [Htr Hw].
  by apply (synced_same w0 tr0 st).
Qed.

Lemma keeps_mret {B} (b : B) : keeps sys ui (mret b : @M W F R B).
Proof. by apply keeps_silent. Qed.

Lemma keeps_skip : keeps sys ui (skip : @M W F R unit).
Proof. by apply keeps_silent. Qed.

Lemma keeps_return {B} (r : R) : keeps sys ui (return_ r : @M W F R B).
Proof. by apply keeps_silent. Qed.

Lemma keeps_panic {B} msg : keeps sys ui (panic msg : @M W F R B).
Proof. by apply keeps_silent. Qed.

Lemma keeps_p_config : keeps sys ui (p_config : @M W F R Config).
Proof. by apply keeps_silent. Qed.

Lemma keeps_local : keeps sys ui (local : @M W F R F).
Proof. by apply keeps_silent. Qed.

Lemma keeps_assign f : keeps sys ui (assign f : @M W F R unit).
Proof. by apply keeps_silent. Qed.

Lemma keeps_assign_config f : keeps sys ui (assign_config f : @M W F R unit).
Proof. by apply keeps_silent. Qed.

Lemma keeps_on_heap {B} (op : Slices.heap → B * Slices.heap) :
  keeps sys ui (on_heap op : @M W F R B).
Proof. apply keeps_silent. intros st. unfold on_heap. by destruct (op (heap st)). Qed.

Lemma keeps_index s i : keeps sys ui (index s i : @M W F R string).
Proof. apply keeps_silent. intros st. unfold index. by destruct (load (heap st) s i). Qed.

Lemma keeps_index_assign s i v : keeps sys ui (index_assign s i v : @M W F R unit).
Proof.
  apply keeps_silent. intros st. unfold index_assign. by destruct (store s i v (heap st)).
Qed.

Lemma keeps_slice_from s k : keeps sys ui (slice_from s k : @M W F R slice).
Proof. apply keeps_silent. intros st. unfold slice_from. by destruct (reslice_from s k). Qed.

Lemma keeps_spread s : keeps sys ui (spread s : @M W F R (list string)).
Proof. by apply keeps_silent. Qed.

Lemma keeps_defer d : keeps sys ui (defer d : @M W F R unit).
Proof. by apply keeps_silent. Qed.

(** A call that is logged as the call it is, with the result it gave. *)
Lemma keeps_syscall {B} (call : W → B * W) (ev : B → event) :
  (∀ w, answered sys (ev (call w).1) w ∧ effect sys ui (ev (call w).1) w = (call w).2) →
  keeps sys ui (syscall call ev : @M W F R B).
Proof.
  intros Hcall w0 tr0 st Hs. destruct (Hcall (world st)) as [Ha He].
  unfold syscall. destruct (call (world st)) as [b w] eqn:Hc.
  by apply (synced_step w0 tr0 st _ (ev b)).
Qed.

Lemma keeps_when b (m : @M W F R unit) : keeps sys ui m → keeps sys ui (when b m).
Proof. intros Hm. destruct b; [done|apply keeps_skip]. Qed.

Lemma keeps_range_from s i n (body : nat → string → @M W F R unit) :
  (∀ j v, keeps sys ui (body j v)) → keeps sys ui (range_from s i n body).
Proof.
  intros Hbody. revert i. induction n as [|n IH]; intros i; simpl.
  - apply keeps_skip.
  - apply keeps_bind; [apply keeps_index|]. intros v.
    apply keeps_bind; [apply Hbody|]. intros _. apply IH.
Qed.

Lemma keeps_for_range s (body : nat → string → @M W F R unit) :
  (∀ j v, keeps sys ui (body j v)) → keeps sys ui (for_range s body).
Proof. apply keeps_range_from. Qed.

Lemma keeps_for_each l (body : string → @M W F R unit) :
  (∀ v, keeps sys ui (body v)) → keeps sys ui (for_each l body).
Proof.
  intros Hbody. induction l as [|v l IH]; simpl.
  - apply keeps_skip.
  - apply keeps_bind; [apply Hbody|]. by intros _.
Qed.

End Statements.

(** The deferred calls are made on the world as they are logged. *)
Lemma run_defers_synced {F} ds w0 tr0 (st : @state W F) :
  synced sys ui w0 tr0 st → synced sys ui w0 tr0 (run_defers sys ds st).
Proof.
  revert st. induction ds as [|d ds IH]; intros st Hs; [done|].
  simpl. apply IH. destruct d as [name|file].
  - by apply (synced_step w0 tr0 st _ (EvRemove name)).
  - by apply (synced_step w0 tr0 st _ (EvClose file)).
Qed.

(** A method call leaves the world that its calls, the deferred ones
    included, lead to. *)
Lemma call_replays {F R} (locals : F) (body : @M W F R unit) (st : @state W ()) :
  keeps sys ui body →
  ∃ evs, trace (call sys locals body st).2 = trace st ++ evs
         ∧ played sys ui evs (world st)
         ∧ world (call sys locals body st).2 = replay sys ui evs (world st).
Proof.
  intros Hbody. unfold call.
  pose proof (Hbody (world st) (trace st)
                (State (heap st) (config st) locals [] (world st) (trace st))
                (synced_start _)) as Hs.
  destruct (body _) as [o st']. cbn [snd] in Hs |- *.
  apply (run_defers_synced (defers st')) in Hs.
  destruct Hs as (evs & Htr & Hp & Hw). by exists evs.
Qed.

Section PostProcessReplay.
Context {A : Type} `{Artifact A}.

Lemma PostProcess_body_keeps (artifact : A) : keeps sys ui (PostProcess_body sys ui artifact).
Proof.
  unfold PostProcess_body, inline_script, build_envVars, run_script, failed,
    sysproc, log_Printf.
  cbv zeta.
  repeat first
    [ apply keeps_bind; [|intros ?]
    | apply keeps_when
    | apply keeps_for_each; intros ?
    | apply keeps_for_range; intros ? ?
    | apply keeps_syscall; intros ?; by split
    | apply keeps_skip
    | apply keeps_return
    | apply keeps_p_config
    | apply keeps_local
    | apply keeps_assign
    | apply keeps_on_heap
    | apply keeps_index_assign
    | apply keeps_slice_from
    | apply keeps_spread
    | apply keeps_defer
    | match goal with |- keeps _ _ (match ?x with _ => _ end) => destruct x end ].
Qed.

(** The calls that a run of [PostProcess] adds to the trace are the calls
    it made: each one got the result that the trace records in the world
    that the calls before it left, and the world of the final state is the
    one that the last of them leaves. *)
Lemma PostProcess_replays (artifact : A) (st : @state W ()) :
  played sys ui (added st (PostProcess sys ui artifact st).2) (world st)
  ∧ world (PostProcess sys ui artifact st).2
    = replay sys ui (added st (PostProcess sys ui artifact st).2) (world st).
Proof.
  destruct (call_replays zero_locals (PostProcess_body sys ui artifact) st
              (PostProcess_body_keeps artifact)) as (evs & Htr & Hp & Hw).
  unfold PostProcess. by rewrite (added_app _ _ _ Htr).
Qed.

End PostProcessReplay.

End ReplayFacts.


(* ===================================================================== *)
(** ** The properties of [PostProcess]                                    *)
(* ===================================================================== *)

Section PostProcessClaims.
Context {W Raw : Type} (sys : @Sys W Raw) {A : Type} `{Artifact A}.

Lemma runs_shape shebang inline p explicit lg :
  runs (prep_events shebang inline p ++ log_events explicit lg ++ cleanup_events lg p)
  = map sh_c (log_ran lg).
Proof.
  unfold runs. rewrite !bind_app. fold (runs (log_events explicit lg)).
  rewrite runs_log.
  rewrite (bind_nil_Forall _ (prep_events _ _ _)) by (by apply prep_events_Forall).
  rewrite (bind_nil_Forall _ (cleanup_events _ _)) by (by apply cleanup_events_Forall).
  by rewrite app_nil_r.
Qed.

Lemma temp_files_shape shebang inline p explicit lg :
  temp_files (prep_events shebang inline p ++ log_events explicit lg
              ++ cleanup_events lg p)
  = prep_temp p.
Proof.
  unfold temp_files. rewrite !bind_app. fold (temp_files (prep_events shebang inline p)).
  rewrite temp_files_prep.
  rewrite (bind_nil_Forall _ (log_events _ _)) by (by apply log_events_Forall).
  rewrite (bind_nil_Forall _ (cleanup_events _ _)) by (by apply cleanup_events_Forall).
  by rewrite app_nil_r.
Qed.

(** C1. The processes that [PostProcess] starts are, in order, [sh -c] on
    the pairs of the cross product of the artifact's files (outer loop) and
    of the working script list (inner loop): the configured scripts followed
    by the temporary script when one was created. The sequence run is always
    a prefix of that cross product, and it is the whole of it when
    [PostProcess] returns no error. *)
Theorem PostProcess_cross_product_order (ui : @Ui W) (artifact : A) (st : @state W ()) :
  config_ok (heap st) (config st) = true →
  let evs := added st (PostProcess sys ui artifact st).2 in
  let working := elems (heap st) (Scripts (config st)) ++ temp_files evs in
  runs evs `prefix_of` map sh_c (cross (Files artifact) working)
  ∧ (∀ a k, (PostProcess sys ui artifact st).1 = Some (a, k, None) →
            runs evs = map sh_c (cross (Files artifact) working)).
Proof.
  intros Hok.
  destruct (PostProcess_spec sys ui artifact st Hok)
    as (p & lg & st' & -> & _ & _ & Htr & _ & _ & _ & _ & Hpre & Hall).
  cbn [fst snd]. rewrite (added_app _ _ _ Htr), runs_shape, temp_files_shape.
  split.
  - destruct Hpre as [rest ->]. rewrite fmap_app.
    apply prefix_app_r. destruct (log_ran_prefix lg) as [rest' ->].
    rewrite fmap_app. by apply prefix_app_r.
  - intros a k [= Hres]. apply final_result_ok in Hres as (Hp & Hfin & _).
    by rewrite log_ran_completed, Hall.
Qed.

(** C2, as amended. When a process started by [PostProcess] fails (its
    [Run] returns an error), [PostProcess] returns the error
    ["Error executing script: "] followed by what that process wrote on its
    standard error, leading and trailing white space trimmed, a nil artifact
    and [false]; and no process is started after it. *)
Theorem PostProcess_first_failure (ui : @Ui W) (artifact : A) (st : @state W ())
    (before after : list event) name args env res e :
  config_ok (heap st) (config st) = true →
  added st (PostProcess sys ui artifact st).2 = before ++ EvRun name args env res :: after →
  r_err res = Some e →
  (PostProcess sys ui artifact st).1
  = Some (None, false,
          Some (errorString ("Error executing script: "
                             +:+ Strings.TrimSpace (r_stderr res))))
  ∧ runs after = [].
Proof.
  intros Hok.
  destruct (PostProcess_spec sys ui artifact st Hok)
    as (p & lg & st' & -> & _ & _ & Htr & _ & _ & [Hdone Hfin] & Hempty & _).
  cbn [fst snd]. rewrite (added_app _ _ _ Htr). intros Hsplit Herr.
  set (P := λ ev : event, failed_run ev = true).
  assert (Hy : P (EvRun name args env res)) by (unfold P; simpl; by rewrite Herr).
  assert (HP : Forall (λ z, ¬ P z)
                 (prep_events (InlineShebang (config st))
                    (elems (heap st) (Inline (config st))) p))
    by (by apply prep_events_Forall).
  assert (HC : Forall (λ z, ¬ P z) (cleanup_events lg p))
    by (by apply cleanup_events_Forall).
  destruct (fin lg) as [|art path e'|i] eqn:Hf.
  - (* no failed run at all *)
    exfalso. assert (Hall : Forall (λ z, ¬ P z) (before ++ EvRun name args env res :: after)).
    { rewrite <- Hsplit. apply Forall_app. split; [done|]. apply Forall_app. split; [|done].
      apply log_events_Forall; try done.
      intros i [Hi|Hi]; [|congruence]. unfold P. simpl.
      rewrite Forall_forall in Hdone. by rewrite (Hdone i Hi). }
    rewrite Forall_app, Forall_cons in Hall. by destruct Hall as (_ & Hx & _).
  - exfalso. assert (Hall : Forall (λ z, ¬ P z) (before ++ EvRun name args env res :: after)).
    { rewrite <- Hsplit. apply Forall_app. split; [done|]. apply Forall_app. split; [|done].
      apply log_events_Forall; try done.
      intros i [Hi|Hi]; [|congruence]. unfold P. simpl.
      rewrite Forall_forall in Hdone. by rewrite (Hdone i Hi). }
    rewrite Forall_app, Forall_cons in Hall. by destruct Hall as (_ & Hx & _).
  - (* the failed run is the last call of the loops *)
    assert (Hperr : prep_error p = None).
    { destruct (prep_error p) eqn:Hp; [|done].
      rewrite Hempty in Hf by done. done. }
    set (explicit := explicit_env (config st) (elems (heap st) (Vars (config st)))) in *.
    set (x := EvRun "sh" ["-c"; command_of (i_path i) (i_art i)]
                    (i_ambient i ++ explicit) (i_res i)).
    set (start := [ EvSay ("Processing with shell script: " +:+ i_path i);
                    EvLog ("Opening " +:+ i_path i +:+ " for reading");
                    EvOpen (i_path i) None;
                    EvMessage ("Executing script with artifact: " +:+ i_art i);
                    EvLog ("Executing shell command: "
                           +:+ command_of (i_path i) (i_art i));
                    EvEnviron (i_ambient i) ]).
    assert (Hshape : prep_events (InlineShebang (config st))
                       (elems (heap st) (Inline (config st))) p
                     ++ log_events explicit lg ++ cleanup_events lg p
                     = (prep_events (InlineShebang (config st))
                          (elems (heap st) (Inline (config st))) p
                        ++ (done_passes lg ≫= success_events explicit) ++ start)
                       ++ x :: cleanup_events lg p).
    { unfold log_events. rewrite Hf. simpl. by rewrite <- !app_assoc. }
    rewrite Hshape in Hsplit.
    apply (split_unique P) in Hsplit as (-> & Hx & ->); try done.
    + injection Hx as _ _ _ ->. split.
      * unfold final_result. rewrite Hperr, Hf. done.
      * simpl. apply bind_nil_Forall. by apply cleanup_events_Forall.
    + repeat (apply Forall_app; split); try done.
      * apply Forall_forall. intros ev (j & Hev & Hj)%list_elem_of_bind.
        revert ev Hev. apply Forall_forall. unfold success_events, invocation_events.
        simpl. repeat (apply Forall_cons; split; [by unfold P|]).
        apply Forall_cons. split.
        { unfold P. simpl. rewrite Forall_forall in Hdone. by rewrite (Hdone j Hj). }
        repeat (apply Forall_cons; split; [by unfold P|]). apply Forall_nil_2.
      * repeat (apply Forall_cons; split; [by unfold P|]). apply Forall_nil_2.
Qed.


(** C5. Every process is given the environment made of what [os.Environ]
    returned, then [PACKER_BUILD_NAME] and [PACKER_BUILDER_TYPE] with their
    values between single quotes, then the entries of [p.config.Vars]; a key
    set by these explicit entries has the same value in the whole
    environment, whatever [os.Environ] holds for it, when the last entry for
    a key wins. *)
Theorem PostProcess_environment (ui : @Ui W) (artifact : A) (st : @state W ())
    (n : nat) name args env res :
  config_ok (heap st) (config st) = true →
  added st (PostProcess sys ui artifact st).2 !! n = Some (EvRun name args env res) →
  let explicit :=
    [ "PACKER_BUILD_NAME='" +:+ PackerBuildName (config st) +:+ "'";
      "PACKER_BUILDER_TYPE='" +:+ PackerBuilderType (config st) +:+ "'" ]
    ++ elems (heap st) (Vars (config st)) in
  ∃ ambient,
    EvEnviron ambient ∈ added st (PostProcess sys ui artifact st).2
    ∧ env = ambient ++ explicit
    ∧ ∀ key v, getenv key explicit = Some v → getenv key env = Some v.
Proof.
  intros Hok.
  destruct (PostProcess_spec sys ui artifact st Hok)
    as (p & lg & st' & -> & _ & _ & Htr & _).
  cbn [fst snd]. rewrite (added_app _ _ _ Htr). intros Hn%list_elem_of_lookup_2.
  change ([ "PACKER_BUILD_NAME='" +:+ PackerBuildName (config st) +:+ "'";
            "PACKER_BUILDER_TYPE='" +:+ PackerBuilderType (config st) +:+ "'" ]
          ++ elems (heap st) (Vars (config st)))
    with (explicit_env (config st) (elems (heap st) (Vars (config st)))).
  set (explicit := explicit_env (config st) (elems (heap st) (Vars (config st)))) in *.
  assert (Hno : ∀ l, Forall (λ ev, ev ≠ EvRun name args env res) l →
                     EvRun name args env res ∈ l → False).
  { intros l Hl Hin. rewrite Forall_forall in Hl. by apply (Hl _ Hin). }
  assert (Hin : ∃ i, EvRun name args env res ∈ invocation_events explicit i
                     ∧ invocation_events explicit i ⊆ log_events explicit lg).
  { apply elem_of_app in Hn as [Hn|Hn].
    { exfalso. revert Hn. apply Hno.
      by apply prep_events_Forall. }
    apply elem_of_app in Hn as [Hn|Hn].
    2:{ exfalso. revert Hn. apply Hno.
        by apply cleanup_events_Forall. }
    unfold log_events in *. apply elem_of_app in Hn as [Hn|Hn].
    - apply list_elem_of_bind in Hn as (i & Hev & Hi). exists i. split.
      + unfold success_events in Hev. apply elem_of_app in Hev as [Hev'|Hev']; [done|].
        exfalso. revert Hev'. apply Hno.
        repeat (apply Forall_cons; split; [done|]). apply Forall_nil_2.
      + intros ev Hev'. apply elem_of_app. left. apply list_elem_of_bind.
        exists i. split; [|done]. unfold success_events. apply elem_of_app. by left.
    - destruct (fin lg) as [|art path e'|i]; simpl in Hn.
      + by apply elem_of_nil in Hn.
      + exfalso. revert Hn. apply Hno.
        unfold open_failure_events.
        repeat (apply Forall_cons; split; [done|]). apply Forall_nil_2.
      + exists i. split; [done|]. intros ev Hev. apply elem_of_app. by right. }
  destruct Hin as (i & Hev & Hsub). exists (i_ambient i).
  assert (Henv : env = i_ambient i ++ explicit).
  { unfold invocation_events in Hev.
    repeat (apply elem_of_cons in Hev as [Hev|Hev]; [try done|]).
    - by injection Hev as _ _ -> _.
    - by apply elem_of_nil in Hev. }
  split; [|split; [done|]].
  - apply elem_of_app. right. apply elem_of_app. left. apply Hsub.
    unfold invocation_events. do 5 apply list_elem_of_further. apply list_elem_of_here.
  - intros key v Hv. by rewrite Henv, getenv_app, Hv.
Qed.

Lemma prep_events_created shebang inline p tf :
  prep_temp p = [tf] →
  ∃ rest, prep_events shebang inline p = EvTempFile "" "packer-shell" (inl tf) :: rest.
Proof.
  destruct p; simpl; intros Hp; try done; injection Hp as ->;
    unfold create_events; simpl; eexists; reflexivity.
Qed.

(** C8. A run of [PostProcess] calls [ioutil.TempFile] once when inline
    commands are configured and never otherwise; when the call created a
    file, that file is the only one created, it is removed once, and its
    removal is the last call of the run, however the run ends. The calls
    of the trace are the calls made on the world: each one got the result
    that the trace records in the world that the calls before it left, and
    the run leaves the world that the last of them leaves. So the file is
    the one that [ioutil.TempFile] gave in the world at the start, in the
    first call of the run; the world that [PostProcess] leaves is the one
    that [os.Remove] of that file gives after all the other calls; and
    whatever [os.Remove] makes false of the file that it is given is
    false of the temporary file in that world. *)
Theorem PostProcess_removes_temp_script (ui : @Ui W) (artifact : A) (st : @state W ()) :
  config_ok (heap st) (config st) = true →
  let st' := (PostProcess sys ui artifact st).2 in
  let evs := added st st' in
  temp_calls evs = (if is_nil (Inline (config st)) then 0 else 1)
  ∧ played sys ui evs (world st)
  ∧ world st' = replay sys ui evs (world st)
  ∧ (temp_files evs = [] ∧ removed evs = []
     ∨ ∃ tf before,
         temp_files evs = [tf] ∧ removed evs = [tf] ∧ evs = before ++ [EvRemove tf]
         ∧ (∃ rest, before = EvTempFile "" "packer-shell" (inl tf) :: rest)
         ∧ (ioutil_TempFile sys "" "packer-shell" (world st)).1 = inl tf
         ∧ world st' = os_Remove sys tf (replay sys ui before (world st))
         ∧ ∀ present : string → W → Prop,
             (∀ name w, ¬ present name (os_Remove sys name w)) →
             ¬ present tf (world st')).
Proof.
  intros Hok.
  destruct (PostProcess_replays sys ui artifact st) as [Hplayed Hworld].
  destruct (PostProcess_spec sys ui artifact st Hok)
    as (p & lg & st' & Heq & _ & _ & Htr & _ & Hnil & _).
  cbv zeta. rewrite Heq in Hplayed, Hworld |- *. cbn [fst snd] in Hplayed, Hworld |- *.
  rewrite (added_app _ _ _ Htr) in Hplayed, Hworld |- *.
  rewrite temp_files_shape.
  assert (Hrm : removed (prep_events (InlineShebang (config st))
                           (elems (heap st) (Inline (config st))) p
                         ++ log_events (explicit_env (config st)
                                          (elems (heap st) (Vars (config st)))) lg
                         ++ cleanup_events lg p) = prep_temp p).
  { unfold removed. rewrite !bind_app.
    rewrite (bind_nil_Forall _ (prep_events _ _ _)) by (by apply prep_events_Forall).
    rewrite (bind_nil_Forall _ (log_events _ _)) by (by apply log_events_Forall).
    unfold cleanup_events. rewrite bind_app.
    rewrite (bind_nil_Forall _ (map EvClose _))
      by (apply Forall_fmap, Forall_true; done).
    by destruct p. }
  rewrite Hrm. split; [|split; [exact Hplayed|split; [exact Hworld|]]].
  - unfold temp_calls. rewrite !bind_app, !length_app.
    fold (temp_calls (prep_events (InlineShebang (config st))
                        (elems (heap st) (Inline (config st))) p)).
    rewrite temp_calls_prep.
    rewrite (bind_nil_Forall _ (log_events _ _)) by (by apply log_events_Forall).
    rewrite (bind_nil_Forall _ (cleanup_events _ _)) by (by apply cleanup_events_Forall).
    simpl. destruct (is_nil (Inline (config st))) eqn:Hn.
    + destruct Hnil as [_ Hnil]. by rewrite Hnil.
    + destruct p; try done. destruct Hnil as [Hnil _]. by specialize (Hnil eq_refl).
  - assert (Hlast : ∀ tf, prep_temp p = [tf] →
              ∃ rest,
                prep_events (InlineShebang (config st))
                  (elems (heap st) (Inline (config st))) p
                ++ log_events (explicit_env (config st)
                                 (elems (heap st) (Vars (config st)))) lg
                ++ cleanup_events lg p
                = (EvTempFile "" "packer-shell" (inl tf)
                   :: rest
                   ++ log_events (explicit_env (config st)
                                    (elems (heap st) (Vars (config st)))) lg
                   ++ map EvClose (reverse (log_opened lg)))
                  ++ [EvRemove tf]).
    { intros tf Hp. unfold cleanup_events. rewrite Hp.
      destruct (prep_events_created (InlineShebang (config st))
                  (elems (heap st) (Inline (config st))) p tf Hp) as [rest ->].
      exists rest. simpl. f_equal. by rewrite <- !app_assoc. }
    destruct (prep_temp p) as [|tf [|]] eqn:Hp; [by left| |by destruct p].
    right. destruct (Hlast tf eq_refl) as [rest Hb].
    rewrite Hb in Hplayed, Hworld |- *.
    exists tf, (EvTempFile "" "packer-shell" (inl tf)
                :: rest
                ++ log_events (explicit_env (config st)
                                 (elems (heap st) (Vars (config st)))) lg
                ++ map EvClose (reverse (log_opened lg))).
    assert (Hw : world st'
                 = os_Remove sys tf
                     (replay sys ui
                        (EvTempFile "" "packer-shell" (inl tf)
                         :: rest
                         ++ log_events (explicit_env (config st)
                                          (elems (heap st) (Vars (config st)))) lg
                         ++ map EvClose (reverse (log_opened lg)))
                        (world st))).
    { by rewrite Hworld, replay_app. }
    split; [done|]. split; [done|]. split; [done|]. split; [by eexists|].
    split; [|split; [exact Hw|]].
    + apply played_app in Hplayed. destruct Hplayed as [[Ha _] _]. by symmetry.
    + intros present Hgone. rewrite Hw. apply Hgone.
Qed.

(** C10. [PostProcess] returns either no error, the artifact it was given
    and the configured [keep_input_artifact], or an error, a nil artifact
    and [false]. *)
Theorem PostProcess_result (ui : @Ui W) (artifact : A) (st : @state W ()) :
  config_ok (heap st) (config st) = true →
  ∃ a k e,
    (PostProcess sys ui artifact st).1 = Some (a, k, e)
    ∧ match e with
      | None => a = Some artifact ∧ k = KeepInputArtifact (config st)
      | Some _ => a = None ∧ k = false
      end.
Proof.
  intros Hok.
  destruct (PostProcess_spec sys ui artifact st Hok) as (p & lg & st' & -> & _).
  cbn [fst]. destruct (final_result artifact (KeepInputArtifact (config st)) p lg)
    as [[a k] [e|]] eqn:Hres.
  - exists a, k, (Some e). split; [done|]. by apply final_result_error in Hres.
  - exists a, k, None. split; [done|]. by apply final_result_ok in Hres as (_ & _ & -> & ->).
Qed.

End PostProcessClaims.


(* ===================================================================== *)
(** ** The properties of [Configure]                                      *)
(* ===================================================================== *)

Section ConfigureClaims.
Context {W Raw : Type} (sys : @Sys W Raw).

Lemma kind_errors_spec (scr : list string) (inline : bool) :
  kind_errors scr inline
  = if (length scr =? 0) && negb inline then [err_missing]
    else if negb (length scr =? 0) && inline then [err_both] else [].
Proof. by destruct scr, inline. Qed.

Lemma errors_result_None (es : list string) : errors_result es = None ↔ es = [].
Proof. by destruct es. Qed.

(** C4. After [Configure], the inline list is non-nil exactly when the
    decoded list was there and not empty. [Configure] returns no error only
    when exactly one of the script sequence (the single-script field folded
    in) and the inline list is populated; with neither it reports the
    missing-specification error, with both the both-kinds error. *)
Theorem Configure_exactly_one_kind (raws : list Raw) (u : @state W ()) c1 h1 :
  config_Decode sys raws (config u) (heap u) = (None, (c1, h1)) →
  config_ok h1 c1 = true →
  let r := (Configure sys raws u).1 in
  let st' := (Configure sys raws u).2 in
  let scripts_given := negb (s_len (Scripts (config st')) =? 0) in
  let inline_present := negb (is_nil (Inline (config st'))) in
  inline_present = inline_given c1
  ∧ (r = Some None → xorb scripts_given inline_present = true)
  ∧ (scripts_given = false → inline_present = false →
     ∃ es, r = Some (Some (MultiError es)) ∧ err_missing ∈ es)
  ∧ (scripts_given = true → inline_present = true →
     ∃ es, r = Some (Some (MultiError es)) ∧ err_both ∈ es).
Proof.
  intros Hdec Hok.
  destruct (Configure_spec sys raws u c1 h1 Hdec Hok)
    as (stats & u' & -> & _ & _ & _ & Hnil & _ & _ & Hlen & _).
  cbn [fst snd]. rewrite Hnil, Hlen, negb_involutive.
  unfold validation_errors. rewrite kind_errors_spec.
  set (n := length (resolved_scripts h1 c1)).
  set (i := inline_given c1).
  set (fe := field_errors c1). set (rest := script_errors stats ++ _).
  split; [done|]. split; [|split].
  - intros [= Hres]. apply errors_result_None in Hres.
    destruct (n =? 0), i; simpl in *; try done.
    + apply app_eq_nil in Hres as [_ Hres]. done.
    + apply app_eq_nil in Hres as [_ Hres]. done.
  - intros ->%negb_false_iff ->. simpl.
    exists (fe ++ [err_missing] ++ rest). split.
    + destruct fe; done.
    + apply elem_of_app. right. apply list_elem_of_here.
  - intros ->%negb_true_iff ->. simpl.
    exists (fe ++ [err_both] ++ rest). split.
    + destruct fe; done.
    + apply elem_of_app. right. apply list_elem_of_here.
Qed.

(** C9. [Configure] calls [os.Stat] on every script path and checks every
    entry of [environment_vars], whatever failed before. It returns the
    list of all the errors found, in the order they were found: every path
    that [os.Stat] refused and every entry that is not [key=value] with a
    non-empty key has its own error, that names it, in that list. It
    returns an error exactly when the list is not empty. *)
Theorem Configure_aggregates_errors (raws : list Raw) (u : @state W ()) c1 h1 :
  config_Decode sys raws (config u) (heap u) = (None, (c1, h1)) →
  config_ok h1 c1 = true →
  ∃ stats es,
    map fst stats = resolved_scripts h1 c1
    ∧ added u (Configure sys raws u).2 = map (λ s, EvStat s.1 s.2) stats
    ∧ es = validation_errors h1 c1 stats
    ∧ (Configure sys raws u).1
      = Some (match es with [] => None | _ :: _ => Some (MultiError es) end)
    ∧ (∀ path e, (path, Some e) ∈ stats →
         ("Bad script '" +:+ path +:+ "': " +:+ e) ∈ es)
    ∧ (∀ kv, kv ∈ elems h1 (Vars c1) → var_ok kv = false →
         ("Environment variable not in format 'key=value': " +:+ kv) ∈ es)
    ∧ ((Configure sys raws u).1 = Some None ↔ es = []).
Proof.
  intros Hdec Hok.
  destruct (Configure_spec sys raws u c1 h1 Hdec Hok)
    as (stats & u' & -> & Hst & Htr & _).
  cbn [fst snd]. exists stats, (validation_errors h1 c1 stats).
  split; [done|]. split; [by apply added_app|]. split; [done|]. split; [done|].
  split; [|split].
  - intros path e Hin. unfold validation_errors.
    apply elem_of_app. right. apply elem_of_app. right. apply elem_of_app. left.
    unfold script_errors. apply list_elem_of_bind. exists (path, Some e).
    split; [|done]. apply list_elem_of_here.
  - intros kv Hin Hbad. unfold validation_errors.
    apply elem_of_app. right. apply elem_of_app. right. apply elem_of_app. right.
    unfold var_errors. apply list_elem_of_bind. exists kv.
    split; [|done]. rewrite Hbad. apply list_elem_of_here.
  - split.
    + intros [= Hres]. by apply errors_result_None.
    + by intros ->.
Qed.

End ConfigureClaims.

(* ===================================================================== *)
(** ** The temporary script                                               *)
(* ===================================================================== *)

Section InlineScript.
Context {W Raw : Type} (sys : @Sys W Raw) {A : Type} `{Artifact A}.







End InlineScript.


(* ===================================================================== *)
(** ** The properties on concrete runs                                    *)
(* ===================================================================== *)

Section Runs.

(** C1 on artifacts [A, B] and scripts [S1, S2]: the processes are
    [S1 A], [S2 A], [S1 B], [S2 B], in this order. *)
Lemma PostProcess_cross_product_order_run :
  config_ok (heap Demo.ready_scripts) (config Demo.ready_scripts) = true
  ∧ runs (added Demo.ready_scripts
            (PostProcess (Demo.sys []) Demo.ui ["A"; "B"] Demo.ready_scripts).2)
    = [ ("sh", ["-c"; "S1 A"]); ("sh", ["-c"; "S2 A"]);
        ("sh", ["-c"; "S1 B"]); ("sh", ["-c"; "S2 B"]) ].
Proof.
  assert (Hok : config_ok (heap Demo.ready_scripts) (config Demo.ready_scripts) = true)
    by (vm_compute; reflexivity).
  split; [exact Hok|].
  pose proof (PostProcess_cross_product_order (Demo.sys []) Demo.ui ["A"; "B"]
                Demo.ready_scripts Hok) as Horder.
  cbv zeta in Horder. destruct Horder as [_ Hall].
  rewrite (Hall (Some ["A"; "B"]) true); vm_compute; reflexivity.
Defined.

(** C2 on the same configuration when [S1 A] fails: the error holds the
    trimmed standard error of [S1 A] and nothing runs after it. *)
Lemma PostProcess_first_failure_run :
  config_ok (heap Demo.ready_scripts) (config Demo.ready_scripts) = true
  ∧ added Demo.ready_scripts
      (PostProcess (Demo.sys ["S1 A"]) Demo.ui ["A"; "B"] Demo.ready_scripts).2
    = [ EvSay "Processing with shell script: S1";
        EvLog "Opening S1 for reading"; EvOpen "S1" None;
        EvMessage "Executing script with artifact: A";
        EvLog "Executing shell command: S1 A";
        EvEnviron ["HOME=/root"; "NAME=ambient"] ]
      ++ EvRun "sh" ["-c"; "S1 A"]
           [ "HOME=/root"; "NAME=ambient"; "PACKER_BUILD_NAME='b'";
             "PACKER_BUILDER_TYPE='t'"; "NAME=" +:+ Demo.escaped_value ]
           Demo.boom
         :: [EvClose "S1"]
  ∧ r_err Demo.boom = Some "exit status 1"
  ∧ (PostProcess (Demo.sys ["S1 A"]) Demo.ui ["A"; "B"] Demo.ready_scripts).1
    = Some (None, false, Some (errorString "Error executing script: boom"))
  ∧ runs [EvClose "S1"] = [].
Proof.
  assert (Hok : config_ok (heap Demo.ready_scripts) (config Demo.ready_scripts) = true)
    by (vm_compute; reflexivity).
  assert (Hev : added Demo.ready_scripts
      (PostProcess (Demo.sys ["S1 A"]) Demo.ui ["A"; "B"] Demo.ready_scripts).2
    = [ EvSay "Processing with shell script: S1";
        EvLog "Opening S1 for reading"; EvOpen "S1" None;
        EvMessage "Executing script with artifact: A";
        EvLog "Executing shell command: S1 A";
        EvEnviron ["HOME=/root"; "NAME=ambient"] ]
      ++ EvRun "sh" ["-c"; "S1 A"]
           [ "HOME=/root"; "NAME=ambient"; "PACKER_BUILD_NAME='b'";
             "PACKER_BUILDER_TYPE='t'"; "NAME=" +:+ Demo.escaped_value ]
           Demo.boom
         :: [EvClose "S1"])
    by (vm_compute; reflexivity).
  assert (Herr : r_err Demo.boom = Some "exit status 1") by reflexivity.
  split; [exact Hok|]. split; [exact Hev|]. split; [exact Herr|].
  destruct (PostProcess_first_failure (Demo.sys ["S1 A"]) Demo.ui ["A"; "B"]
              Demo.ready_scripts _ _ _ _ _ _ _ Hok Hev Herr) as [Hres Hafter].
  split; [|exact Hafter].
  etransitivity; [exact Hres|]. vm_compute. reflexivity.
Defined.

(** C2 as first written: the error returned for the failure of [S1 A] does
    not contain what [S1 A] wrote on its standard error, the line [boom]
    with its newline; it holds [boom] alone. *)
Lemma PostProcess_error_is_trimmed :
  (PostProcess (Demo.sys ["S1 A"]) Demo.ui ["A"; "B"] Demo.ready_scripts).1
  = Some (None, false, Some (errorString "Error executing script: boom"))
  ∧ run_results
      (added Demo.ready_scripts
         (PostProcess (Demo.sys ["S1 A"]) Demo.ui ["A"; "B"] Demo.ready_scripts).2)
    = [ {| r_stdout := EmptyString; r_stderr := "boom" +:+ nl;
           r_err := Some "exit status 1" |} ]
  ∧ Contains "Error executing script: boom" ("boom" +:+ nl) = false
  ∧ Contains "Error executing script: boom" (Strings.TrimSpace ("boom" +:+ nl)) = true.
Proof. vm_compute. done. Qed.

(** C3. [environment_vars = [NAME=O'Brien]]: [Configure] replaces the quote
    by the five bytes of [quote_escape] and adds no quotes around the value;
    [PostProcess] hands the entry as it is to [cmd.Env], so that the script
    finds a value of eleven bytes for [NAME], not [O'Brien]. In the same way
    [PACKER_BUILD_NAME] arrives with its two quotes. *)
Theorem Configure_quote_escape_reaches_script :
  elems (heap Demo.ready_scripts) (Vars (config Demo.ready_scripts))
  = ["NAME=O" +:+ quote_escape +:+ "Brien"]
  ∧ run_envs (added Demo.ready_scripts
                (PostProcess (Demo.sys []) Demo.ui ["A"] Demo.ready_scripts).2)
    = replicate 2 [ "HOME=/root"; "NAME=ambient"; "PACKER_BUILD_NAME='b'";
                    "PACKER_BUILDER_TYPE='t'"; "NAME=O" +:+ quote_escape +:+ "Brien" ]
  ∧ getenv "NAME" [ "HOME=/root"; "NAME=ambient"; "PACKER_BUILD_NAME='b'";
                    "PACKER_BUILDER_TYPE='t'"; "NAME=O" +:+ quote_escape +:+ "Brien" ]
    = Some ("O" +:+ quote_escape +:+ "Brien")
  ∧ Strings.len ("O" +:+ quote_escape +:+ "Brien") = 11
  ∧ String.eqb ("O" +:+ quote_escape +:+ "Brien") "O'Brien" = false
  ∧ getenv "PACKER_BUILD_NAME"
      [ "HOME=/root"; "NAME=ambient"; "PACKER_BUILD_NAME='b'";
        "PACKER_BUILDER_TYPE='t'"; "NAME=O" +:+ quote_escape +:+ "Brien" ]
    = Some "'b'".
Proof. vm_compute. done. Qed.

(** C6. The command handed to [sh -c] is the script path, a space and the
    artifact path. For the script [s.sh] and the artifact [my file] it is
    [s.sh my file], the same command as for the script [s.sh my] and the
    artifact [file]: nothing that reads the command can give back the script
    and its one argument for every pair. *)
Theorem PostProcess_command_is_ambiguous :
  runs (added Demo.ready_single
          (PostProcess (Demo.sys []) Demo.ui ["my file"] Demo.ready_single).2)
  = [("sh", ["-c"; "s.sh my file"])]
  ∧ command_of "s.sh" "my file" = command_of "s.sh my" "file"
  ∧ ¬ ∃ sh : string → string * list string,
        ∀ path art, sh (command_of path art) = (path, [art]).
Proof.
  split; [vm_compute; reflexivity|]. split; [vm_compute; reflexivity|].
  intros [sh Hsh].
  pose proof (Hsh "s.sh" "my file") as H1.
  pose proof (Hsh "s.sh my" "file") as H2.
  assert (Heq : command_of "s.sh" "my file" = command_of "s.sh my" "file")
    by (vm_compute; reflexivity).
  rewrite Heq, H2 in H1. discriminate H1.
Qed.

(** C4 on [scripts = [S1, S2]] and no inline commands. *)
Lemma Configure_exactly_one_kind_run :
  config_Decode (Demo.sys []) [Demo.two_scripts] (config Demo.boot) (heap Demo.boot)
  = (None, ((Demo.decoded Demo.two_scripts).1, (Demo.decoded Demo.two_scripts).2))
  ∧ config_ok (Demo.decoded Demo.two_scripts).2 (Demo.decoded Demo.two_scripts).1 = true
  ∧ (Configure (Demo.sys []) [Demo.two_scripts] Demo.boot).1 = Some None
  ∧ xorb (negb (s_len (Scripts (config Demo.ready_scripts)) =? 0))
         (negb (is_nil (Inline (config Demo.ready_scripts)))) = true.
Proof.
  assert (Hdec : config_Decode (Demo.sys []) [Demo.two_scripts]
                   (config Demo.boot) (heap Demo.boot)
                 = (None, ((Demo.decoded Demo.two_scripts).1,
                           (Demo.decoded Demo.two_scripts).2)))
    by (vm_compute; reflexivity).
  assert (Hok : config_ok (Demo.decoded Demo.two_scripts).2
                  (Demo.decoded Demo.two_scripts).1 = true)
    by (vm_compute; reflexivity).
  assert (Hres : (Configure (Demo.sys []) [Demo.two_scripts] Demo.boot).1 = Some None)
    by (vm_compute; reflexivity).
  split; [exact Hdec|]. split; [exact Hok|]. split; [exact Hres|].
  pose proof (Configure_exactly_one_kind (Demo.sys []) [Demo.two_scripts] Demo.boot
                _ _ Hdec Hok) as Hone.
  cbv zeta in Hone. destruct Hone as (_ & Hxor & _). exact (Hxor Hres).
Defined.

(** C5 on [environment_vars = [NAME=O'Brien]] in an ambient environment
    that has [NAME=ambient]: the process finds the configured entry. *)
Lemma PostProcess_environment_run :
  config_ok (heap Demo.ready_scripts) (config Demo.ready_scripts) = true
  ∧ added Demo.ready_scripts
      (PostProcess (Demo.sys []) Demo.ui ["A"] Demo.ready_scripts).2 !! 6
    = Some (EvRun "sh" ["-c"; "S1 A"]
              [ "HOME=/root"; "NAME=ambient"; "PACKER_BUILD_NAME='b'";
                "PACKER_BUILDER_TYPE='t'"; "NAME=" +:+ Demo.escaped_value ]
              {| r_stdout := "done" +:+ nl; r_stderr := EmptyString; r_err := None |})
  ∧ getenv "NAME"
      [ "HOME=/root"; "NAME=ambient"; "PACKER_BUILD_NAME='b'";
        "PACKER_BUILDER_TYPE='t'"; "NAME=" +:+ Demo.escaped_value ]
    = Some Demo.escaped_value.
Proof.
  assert (Hok : config_ok (heap Demo.ready_scripts) (config Demo.ready_scripts) = true)
    by (vm_compute; reflexivity).
  assert (Hrun : added Demo.ready_scripts
      (PostProcess (Demo.sys []) Demo.ui ["A"] Demo.ready_scripts).2 !! 6
    = Some (EvRun "sh" ["-c"; "S1 A"]
              [ "HOME=/root"; "NAME=ambient"; "PACKER_BUILD_NAME='b'";
                "PACKER_BUILDER_TYPE='t'"; "NAME=" +:+ Demo.escaped_value ]
              {| r_stdout := "done" +:+ nl; r_stderr := EmptyString; r_err := None |}))
    by (vm_compute; reflexivity).
  split; [exact Hok|]. split; [exact Hrun|].
  pose proof (PostProcess_environment (Demo.sys []) Demo.ui ["A"] Demo.ready_scripts
                6 _ _ _ _ Hok Hrun) as Henv.
  cbv zeta in Henv. destruct Henv as (ambient & _ & _ & Hget).
  apply Hget. vm_compute. reflexivity.
Defined.


(** C8 on [inline = [echo hi]] and the artifacts [A, B], when the run on
    [B] fails: the temporary script exists in the world before the last
    call of the run and is gone from the world that the run leaves. *)
Lemma PostProcess_removes_temp_script_run :
  config_ok (heap Demo.ready_inline) (config Demo.ready_inline) = true
  ∧ temp_calls
      (added Demo.ready_inline
         (PostProcess (Demo.sys ["/tmp/packer-shell042 B"]) Demo.ui ["A"; "B"]
            Demo.ready_inline).2)
    = 1
  ∧ last (added Demo.ready_inline
            (PostProcess (Demo.sys ["/tmp/packer-shell042 B"]) Demo.ui ["A"; "B"]
               Demo.ready_inline).2)
    = Some (EvRemove Demo.temp_name)
  ∧ replay (Demo.sys ["/tmp/packer-shell042 B"]) Demo.ui
      (removelast
         (added Demo.ready_inline
            (PostProcess (Demo.sys ["/tmp/packer-shell042 B"]) Demo.ui ["A"; "B"]
               Demo.ready_inline).2))
      (world Demo.ready_inline)
    = [Demo.temp_name; "S1"; "S2"; "s.sh"]
  ∧ world (PostProcess (Demo.sys ["/tmp/packer-shell042 B"]) Demo.ui ["A"; "B"]
             Demo.ready_inline).2
    = ["S1"; "S2"; "s.sh"]
  ∧ Demo.among Demo.temp_name
      (world (PostProcess (Demo.sys ["/tmp/packer-shell042 B"]) Demo.ui ["A"; "B"]
                Demo.ready_inline).2)
    = false.
Proof.
  assert (Hok : config_ok (heap Demo.ready_inline) (config Demo.ready_inline) = true)
    by (vm_compute; reflexivity).
  split; [exact Hok|].
  pose proof (PostProcess_removes_temp_script
                (Demo.sys ["/tmp/packer-shell042 B"]) Demo.ui ["A"; "B"]
                Demo.ready_inline Hok) as Htemp.
  cbv zeta in Htemp. destruct Htemp as (Hcalls & _ & Hworld & _).
  assert (Hleft : world (PostProcess (Demo.sys ["/tmp/packer-shell042 B"]) Demo.ui
                           ["A"; "B"] Demo.ready_inline).2
                  = ["S1"; "S2"; "s.sh"]).
  { etransitivity; [exact Hworld|]. vm_compute. reflexivity. }
  split; [etransitivity; [exact Hcalls|]; vm_compute; reflexivity|].
  split; [vm_compute; reflexivity|].
  split; [vm_compute; reflexivity|].
  split; [exact Hleft|].
  rewrite Hleft. vm_compute. reflexivity.
Defined.

(** C9 on a configuration with a missing script and two malformed
    variables: the three errors are returned together. *)
Lemma Configure_aggregates_errors_run :
  config_Decode (Demo.sys []) [Demo.broken] (config Demo.boot) (heap Demo.boot)
  = (None, ((Demo.decoded Demo.broken).1, (Demo.decoded Demo.broken).2))
  ∧ config_ok (Demo.decoded Demo.broken).2 (Demo.decoded Demo.broken).1 = true
  ∧ (Configure (Demo.sys []) [Demo.broken] Demo.boot).1
    = Some (Some (MultiError
        [ "Bad script 'missing.sh': no such file or directory";
          "Environment variable not in format 'key=value': novalue";
          "Environment variable not in format 'key=value': =nokey" ]))
  ∧ ∃ stats es,
      map fst stats = resolved_scripts (Demo.decoded Demo.broken).2 (Demo.decoded Demo.broken).1
      ∧ added Demo.boot (Configure (Demo.sys []) [Demo.broken] Demo.boot).2
        = map (λ s, EvStat s.1 s.2) stats
      ∧ es = validation_errors (Demo.decoded Demo.broken).2 (Demo.decoded Demo.broken).1 stats
      ∧ (Configure (Demo.sys []) [Demo.broken] Demo.boot).1
        = Some (match es with [] => None | _ :: _ => Some (MultiError es) end)
      ∧ (∀ path e, (path, Some e) ∈ stats →
           ("Bad script '" +:+ path +:+ "': " +:+ e) ∈ es)
      ∧ (∀ kv, kv ∈ elems (Demo.decoded Demo.broken).2 (Vars (Demo.decoded Demo.broken).1) →
           var_ok kv = false →
           ("Environment variable not in format 'key=value': " +:+ kv) ∈ es)
      ∧ ((Configure (Demo.sys []) [Demo.broken] Demo.boot).1 = Some None ↔ es = []).
Proof.
  assert (Hdec : config_Decode (Demo.sys []) [Demo.broken]
                   (config Demo.boot) (heap Demo.boot)
                 = (None, ((Demo.decoded Demo.broken).1, (Demo.decoded Demo.broken).2)))
    by (vm_compute; reflexivity).
  assert (Hok : config_ok (Demo.decoded Demo.broken).2 (Demo.decoded Demo.broken).1 = true)
    by (vm_compute; reflexivity).
  split; [exact Hdec|]. split; [exact Hok|]. split; [vm_compute; reflexivity|].
  exact (Configure_aggregates_errors (Demo.sys []) [Demo.broken] Demo.boot _ _ Hdec Hok).
Defined.

(** C10 on a run that succeeds, with [keep_input_artifact = true]. *)
Lemma PostProcess_result_run :
  config_ok (heap Demo.ready_scripts) (config Demo.ready_scripts) = true
  ∧ (PostProcess (Demo.sys []) Demo.ui ["A"; "B"] Demo.ready_scripts).1
    = Some (Some ["A"; "B"], true, None)
  ∧ ∃ a k e,
      (PostProcess (Demo.sys []) Demo.ui ["A"; "B"] Demo.ready_scripts).1
      = Some (a, k, e)
      ∧ match e with
        | None => a = Some ["A"; "B"]
                  ∧ k = KeepInputArtifact (config Demo.ready_scripts)
        | Some _ => a = None ∧ k = false
        end.
Proof.
  assert (Hok : config_ok (heap Demo.ready_scripts) (config Demo.ready_scripts) = true)
    by (vm_compute; reflexivity).
  split; [exact Hok|]. split; [vm_compute; reflexivity|].
  exact (PostProcess_result (Demo.sys []) Demo.ui ["A"; "B"] Demo.ready_scripts Hok).
Defined.

End Runs.


(* ===================================================================== *)
(** ** [PostProcess]: failures, deferred calls and what is left alone     *)
(* ===================================================================== *)

Section PostProcessPaths.
Context {W Raw : Type} (sys : @Sys W Raw) {A : Type} `{Artifact A}.

Lemma opened_passes explicit (l : list invocation) :
  opened (l ≫= success_events explicit) = map i_path l.
Proof.
  induction l as [|i l IH]; [done|].
  change ((i :: l) ≫= success_events explicit)
    with (success_events explicit i ++ (l ≫= success_events explicit)).
  unfold opened in *. rewrite bind_app, IH. done.
Qed.

Lemma opened_log explicit lg : opened (log_events explicit lg) = log_opened lg.
Proof.
  unfold log_events, log_opened. rewrite <- opened_passes with (explicit := explicit).
  unfold opened. rewrite bind_app. f_equal. by destruct (fin lg).
Qed.

Lemma opened_shape shebang inline p explicit lg :
  opened (prep_events shebang inline p ++ log_events explicit lg ++ cleanup_events lg p)
  = log_opened lg.
Proof.
  unfold opened. rewrite !bind_app. fold (opened (log_events explicit lg)).
  rewrite opened_log.
  rewrite (bind_nil_Forall _ (prep_events _ _ _)) by (by apply prep_events_Forall).
  rewrite (bind_nil_Forall _ (cleanup_events _ _)) by (by apply cleanup_events_Forall).
  by rewrite app_nil_r.
Qed.

Lemma removed_cleanup lg p : removed (cleanup_events lg p) = prep_temp p.
Proof.
  unfold removed, cleanup_events. rewrite bind_app.
  rewrite (bind_nil_Forall _ (map EvClose _)) by (apply Forall_fmap, Forall_true; done).
  by destruct p.
Qed.

Lemma removed_shape shebang inline p explicit lg :
  removed (prep_events shebang inline p ++ log_events explicit lg ++ cleanup_events lg p)
  = prep_temp p.
Proof.
  unfold removed. rewrite !bind_app. fold (removed (cleanup_events lg p)).
  rewrite removed_cleanup.
  rewrite (bind_nil_Forall _ (prep_events _ _ _)) by (by apply prep_events_Forall).
  by rewrite (bind_nil_Forall _ (log_events _ _)) by (by apply log_events_Forall).
Qed.

Lemma closed_map_EvClose l : closed (map EvClose l) = l.
Proof.
  induction l as [|x l IH]; [done|].
  change (closed (map EvClose (x :: l))) with (x :: closed (map EvClose l)).
  by rewrite IH.
Qed.

Lemma closed_shape shebang inline p explicit lg :
  closed (prep_events shebang inline p ++ log_events explicit lg ++ cleanup_events lg p)
  = match p with Prepared tf _ => [tf] | _ => [] end ++ reverse (log_opened lg).
Proof.
  assert (Hw : ∀ tf cmds, closed (write_events tf cmds) = []).
  { intros tf cmds. apply bind_nil_Forall. by apply write_events_Forall. }
  assert (Hp : closed (prep_events shebang inline p)
               = match p with Prepared tf _ => [tf] | _ => [] end).
  { unfold closed in *. destruct p; simpl; try done;
      change (?a :: ?b :: ?l ++ ?k) with ([a; b] ++ l ++ k);
      rewrite !bind_app, Hw; done. }
  unfold closed in *. rewrite !bind_app, Hp. f_equal.
  rewrite (bind_nil_Forall _ (log_events _ _)) by (by apply log_events_Forall).
  unfold cleanup_events. rewrite bind_app.
  fold (closed (map EvClose (reverse (log_opened lg)))). rewrite closed_map_EvClose.
  rewrite (bind_nil_Forall _ (map EvRemove _)) by (apply Forall_fmap, Forall_true; done).
  by rewrite app_nil_r.
Qed.

Lemma Forall_not_in (ev : event) (l : list event) :
  Forall (λ x, x ≠ ev) l → ev ∉ l.
Proof. intros Hall Hin. rewrite Forall_forall in Hall. by apply (Hall _ Hin). Qed.

(** X1. When inline commands are configured and the temporary script is never
    flushed with success ([ioutil.TempFile], the write of a command or the
    flush failed), [PostProcess] returns an [Error preparing shell script]
    error; no script is opened, no process is started, the temporary file
    is never closed, and it is removed when it was created. *)
Theorem PostProcess_preparation_failure (ui : @Ui W) (artifact : A) (st : @state W ()) :
  config_ok (heap st) (config st) = true →
  is_nil (Inline (config st)) = false →
  (∀ tf, EvFlush tf None ∉ added st (PostProcess sys ui artifact st).2) →
  ∃ e,
    (PostProcess sys ui artifact st).1
    = Some (None, false, Some (errorString ("Error preparing shell script: " +:+ e)))
    ∧ runs (added st (PostProcess sys ui artifact st).2) = []
    ∧ opened (added st (PostProcess sys ui artifact st).2) = []
    ∧ closed (added st (PostProcess sys ui artifact st).2) = []
    ∧ removed (added st (PostProcess sys ui artifact st).2)
      = temp_files (added st (PostProcess sys ui artifact st).2).
Proof.
  intros Hok Hinl.
  destruct (PostProcess_spec sys ui artifact st Hok)
    as (p & lg & st' & -> & _ & _ & Htr & _ & Hnil & _ & Hempty & _).
  cbn [fst snd]. rewrite (added_app _ _ _ Htr). intros Hflush.
  rewrite runs_shape, opened_shape, closed_shape, removed_shape, temp_files_shape.
  assert (Herr : ∃ e, prep_error p
                      = Some (errorString ("Error preparing shell script: " +:+ e))).
  { destruct p as [|e|tf r0 wr cmd e|tf r0 e|tf r0]; simpl; eauto.
    - destruct Hnil as [Hnil _]. rewrite (Hnil eq_refl) in Hinl. done.
    - exfalso. apply (Hflush tf). apply elem_of_app. left. simpl.
      do 2 apply list_elem_of_further. apply elem_of_app. right.
      apply list_elem_of_here. }
  destruct Herr as [e He]. exists e.
  rewrite (Hempty ltac:(by rewrite He)).
  unfold final_result. rewrite He. split; [done|]. split; [done|]. split; [done|].
  split; [|done]. destruct p; simpl in *; done.
Qed.

(** X2. When [os.Open] fails on a script, [PostProcess] returns an [Error
    opening shell script] error with the cause; after the failed call
    nothing is opened and no process is started: only the deferred calls
    run, the scripts opened before being closed, latest first, and the
    temporary file removed. *)
Theorem PostProcess_open_failure (ui : @Ui W) (artifact : A) (st : @state W ())
    (before after : list event) (path e : string) :
  config_ok (heap st) (config st) = true →
  added st (PostProcess sys ui artifact st).2 = before ++ EvOpen path (Some e) :: after →
  (PostProcess sys ui artifact st).1
  = Some (None, false, Some (errorString ("Error opening shell script: " +:+ e)))
  ∧ runs after = []
  ∧ opened after = []
  ∧ after = map EvClose (reverse (opened before)) ++ map EvRemove (temp_files before).
Proof.
  intros Hok.
  destruct (PostProcess_spec sys ui artifact st Hok)
    as (p & lg & st' & -> & _ & _ & Htr & _ & _ & _ & Hempty & _).
  cbn [fst snd]. rewrite (added_app _ _ _ Htr). intros Hsplit.
  set (sb := InlineShebang (config st)) in *.
  set (inl := elems (heap st) (Inline (config st))) in *.
  set (ex := explicit_env (config st) (elems (heap st) (Vars (config st)))) in *.
  set (P := λ ev : event, match ev with EvOpen _ (Some _) => True | _ => False end).
  assert (Hfin : ∃ art, fin lg = OpenFailed art path e).
  { assert (Hin : EvOpen path (Some e)
                  ∈ prep_events sb inl p ++ log_events ex lg ++ cleanup_events lg p).
    { rewrite Hsplit. apply elem_of_app. right. apply list_elem_of_here. }
    apply elem_of_app in Hin as [Hin|Hin].
    { exfalso. revert Hin. apply Forall_not_in. by apply prep_events_Forall. }
    apply elem_of_app in Hin as [Hin|Hin].
    2:{ exfalso. revert Hin. apply Forall_not_in. by apply cleanup_events_Forall. }
    unfold log_events in Hin. apply elem_of_app in Hin as [Hin|Hin].
    - exfalso. apply list_elem_of_bind in Hin as (i & Hev & _).
      revert Hev. apply Forall_not_in. unfold success_events, invocation_events. simpl.
      repeat (apply Forall_cons; split; [done|]). apply Forall_nil_2.
    - destruct (fin lg) as [|art path' e'|i]; simpl in Hin.
      + by apply elem_of_nil in Hin.
      + unfold open_failure_events in Hin.
        rewrite !elem_of_cons in Hin. destruct Hin as [?|[?|[[= -> ->]|Hin]]]; try done.
        * by exists art.
        * by apply elem_of_nil in Hin.
      + exfalso. revert Hin. apply Forall_not_in. unfold invocation_events.
        repeat (apply Forall_cons; split; [done|]). apply Forall_nil_2. }
  destruct Hfin as [art Hfin].
  assert (Hp : prep_error p = None).
  { destruct (prep_error p) eqn:Hp; [|done].
    rewrite (Hempty ltac:(done)) in Hfin. done. }
  assert (Hshape : prep_events sb inl p ++ log_events ex lg ++ cleanup_events lg p
                   = (prep_events sb inl p ++ (done_passes lg ≫= success_events ex)
                      ++ [ EvSay ("Processing with shell script: " +:+ path);
                           EvLog ("Opening " +:+ path +:+ " for reading") ])
                     ++ EvOpen path (Some e) :: cleanup_events lg p).
  { unfold log_events. rewrite Hfin. simpl. unfold open_failure_events.
    rewrite <- !app_assoc. done. }
  rewrite Hshape in Hsplit.
  apply (split_unique P) in Hsplit as (-> & _ & ->).
  - unfold final_result. rewrite Hp, Hfin. simpl. split; [done|].
    split; [|split].
    + unfold runs. apply bind_nil_Forall. by apply cleanup_events_Forall.
    + unfold opened. apply bind_nil_Forall. by apply cleanup_events_Forall.
    + unfold cleanup_events. f_equal.
      * f_equal. f_equal. unfold opened. rewrite !bind_app.
        rewrite (bind_nil_Forall _ (prep_events _ _ _)) by (by apply prep_events_Forall).
        unfold log_opened. rewrite Hfin. simpl. rewrite !app_nil_r.
        symmetry. apply opened_passes.
      * f_equal. unfold temp_files. rewrite !bind_app.
        fold (temp_files (prep_events sb inl p)). rewrite temp_files_prep.
        rewrite (bind_nil_Forall _ (_ ≫= _)).
        -- by rewrite app_nil_r.
        -- apply Forall_forall. intros ev (i & Hev & _)%list_elem_of_bind.
           revert ev Hev. apply Forall_forall. unfold success_events, invocation_events.
           simpl. repeat (apply Forall_cons; split; [done|]). apply Forall_nil_2.
  - unfold P. apply Forall_app. split; [apply prep_events_Forall; intros; tauto|].
    apply Forall_app. split.
    + apply Forall_forall. intros ev (i & Hev & _)%list_elem_of_bind.
      revert ev Hev. apply Forall_forall. unfold success_events, invocation_events.
      simpl. repeat (apply Forall_cons; split; [tauto|]). apply Forall_nil_2.
    + repeat (apply Forall_cons; split; [tauto|]). apply Forall_nil_2.
  - unfold P. apply cleanup_events_Forall; intros; tauto.
  - done.
Qed.

(** X3. The deferred calls: a run of [PostProcess] ends by closing the scripts
    it opened, latest first, and then removing the temporary file it
    created. Before that nothing is removed, so that every process runs
    while the temporary script exists, and none of the opened scripts is
    closed before the last process has run. *)
Theorem PostProcess_deferred_calls (ui : @Ui W) (artifact : A) (st : @state W ()) :
  config_ok (heap st) (config st) = true →
  ∃ body,
    added st (PostProcess sys ui artifact st).2
    = body
      ++ map EvClose (reverse (opened (added st (PostProcess sys ui artifact st).2)))
      ++ map EvRemove (temp_files (added st (PostProcess sys ui artifact st).2))
    ∧ runs body = runs (added st (PostProcess sys ui artifact st).2)
    ∧ opened body = opened (added st (PostProcess sys ui artifact st).2)
    ∧ removed body = []
    ∧ closed body `prefix_of` temp_files body.
Proof.
  intros Hok.
  destruct (PostProcess_spec sys ui artifact st Hok)
    as (p & lg & st' & -> & _ & _ & Htr & _).
  cbn [fst snd]. rewrite (added_app _ _ _ Htr).
  set (sb := InlineShebang (config st)) in *.
  set (inl := elems (heap st) (Inline (config st))) in *.
  set (ex := explicit_env (config st) (elems (heap st) (Vars (config st)))) in *.
  rewrite opened_shape, temp_files_shape, runs_shape.
  exists (prep_events sb inl p ++ log_events ex lg).
  split; [by rewrite <- app_assoc|].
  assert (Hruns : runs (prep_events sb inl p ++ log_events ex lg) = map sh_c (log_ran lg)).
  { unfold runs. rewrite bind_app. fold (runs (log_events ex lg)). rewrite runs_log.
    by rewrite (bind_nil_Forall _ (prep_events _ _ _)) by (by apply prep_events_Forall). }
  assert (Hop : opened (prep_events sb inl p ++ log_events ex lg) = log_opened lg).
  { unfold opened. rewrite bind_app. fold (opened (log_events ex lg)). rewrite opened_log.
    by rewrite (bind_nil_Forall _ (prep_events _ _ _)) by (by apply prep_events_Forall). }
  assert (Hrm : removed (prep_events sb inl p ++ log_events ex lg) = []).
  { unfold removed. rewrite bind_app.
    rewrite (bind_nil_Forall _ (prep_events _ _ _)) by (by apply prep_events_Forall).
    by rewrite (bind_nil_Forall _ (log_events _ _)) by (by apply log_events_Forall). }
  assert (Htf : temp_files (prep_events sb inl p ++ log_events ex lg) = prep_temp p).
  { unfold temp_files. rewrite bind_app. fold (temp_files (prep_events sb inl p)).
    rewrite temp_files_prep.
    rewrite (bind_nil_Forall _ (log_events _ _)) by (by apply log_events_Forall).
    by rewrite app_nil_r. }
  assert (Hcl : closed (prep_events sb inl p ++ log_events ex lg)
                = match p with Prepared tf _ => [tf] | _ => [] end).
  { unfold closed in *. rewrite bind_app.
    rewrite (bind_nil_Forall _ (log_events _ _)) by (by apply log_events_Forall).
    rewrite app_nil_r.
    assert (Hw : ∀ tf cmds, closed (write_events tf cmds) = []).
    { intros tf cmds. apply bind_nil_Forall. by apply write_events_Forall. }
    unfold closed in Hw. destruct p; simpl; try done;
      change (?a :: ?b :: ?l ++ ?k) with ([a; b] ++ l ++ k);
      rewrite !bind_app, Hw; done. }
  rewrite Hruns, Hop, Hrm, Htf, Hcl. repeat split; try done.
  destruct p; simpl; try apply prefix_nil. done.
Qed.

(** X4. An artifact without files: no script is opened and no process is
    started; without inline commands [PostProcess] calls nothing at all
    and returns the artifact with the configured flag. *)
Theorem PostProcess_no_files (ui : @Ui W) (artifact : A) (st : @state W ()) :
  config_ok (heap st) (config st) = true →
  Files artifact = [] →
  runs (added st (PostProcess sys ui artifact st).2) = []
  ∧ opened (added st (PostProcess sys ui artifact st).2) = []
  ∧ (is_nil (Inline (config st)) = true →
     added st (PostProcess sys ui artifact st).2 = []
     ∧ (PostProcess sys ui artifact st).1
       = Some (Some artifact, KeepInputArtifact (config st), None)).
Proof.
  intros Hok Hfiles.
  destruct (PostProcess_spec sys ui artifact st Hok)
    as (p & lg & st' & -> & _ & _ & Htr & _ & Hnil & _ & _ & Hpre & _).
  cbn [fst snd]. rewrite (added_app _ _ _ Htr), runs_shape, opened_shape.
  rewrite Hfiles in Hpre. apply prefix_nil_inv in Hpre.
  unfold log_pairs in Hpre. apply app_eq_nil in Hpre as [Hdone Hfin].
  apply fmap_nil_inv in Hdone.
  assert (Hc : fin lg = Completed) by (by destruct (fin lg)).
  unfold log_ran, log_opened. rewrite Hdone, Hc. split; [done|]. split; [done|].
  intros Hn. apply Hnil in Hn. subst p.
  unfold log_events, cleanup_events, log_opened, final_result.
  rewrite Hdone, Hc. done.
Qed.

(** X5. [PostProcess] reads the configuration and never writes to it: after a
    run [p.config] is the same, and every slice that was there before the
    run (those of the configuration among them) has the same elements;
    what [PostProcess] appends or copies lands in arrays of its own. *)
Theorem PostProcess_keeps_configuration (ui : @Ui W) (artifact : A) (st : @state W ()) :
  config_ok (heap st) (config st) = true →
  config (PostProcess sys ui artifact st).2 = config st
  ∧ config_ok (heap (PostProcess sys ui artifact st).2)
              (config (PostProcess sys ui artifact st).2) = true
  ∧ ∀ s, slice_ok (heap st) s = true →
         slice_ok (heap (PostProcess sys ui artifact st).2) s = true
         ∧ elems (heap (PostProcess sys ui artifact st).2) s = elems (heap st) s.
Proof.
  intros Hok.
  destruct (PostProcess_spec sys ui artifact st Hok)
    as (p & lg & st' & -> & Hcfg & Hag & _).
  cbn [fst snd].
  assert (Hs : ∀ s, slice_ok (heap st) s = true →
                    slice_ok (heap st') s = true ∧ elems (heap st') s = elems (heap st) s).
  { intros s Hs. pose proof (slice_ok_below _ _ Hs) as Hb. split.
    - by rewrite (slice_ok_agree _ _ _ _ Hb Hag).
    - by apply (elems_agree (length (heap st))). }
  split; [done|]. split; [|done].
  rewrite Hcfg. apply config_ok_inv in Hok as (Hi & Hsc & Hv).
  unfold config_ok.
  rewrite (proj1 (Hs _ Hi)), (proj1 (Hs _ Hsc)), (proj1 (Hs _ Hv)). done.
Qed.

End PostProcessPaths.


(* ===================================================================== *)
(** ** [Configure]: the decoder's error, the single script, the entries   *)
(* ===================================================================== *)

Section StringFacts.

Lemma HasPrefix_split (s p : string) :
  Strings.HasPrefix s p = true → s = p +:+ Strings.skip (Strings.len p) s.
Proof.
  revert s. induction p as [|a p IH]; intros s Hp; [by destruct s|].
  destruct s as [|b s]; [done|]. simpl in Hp.
  destruct (Ascii.eqb a b) eqn:Hab; [|done].
  apply Ascii.eqb_eq in Hab as ->.
  change (String b s = String b (p +:+ Strings.skip (Strings.len p) s)).
  f_equal. by apply IH.
Qed.

Lemma Index_cons (a : ascii) (s sep : string) :
  Strings.Index (String a s) sep
  = if Strings.HasPrefix (String a s) sep then Some 0 else S <$> Strings.Index s sep.
Proof. done. Qed.

Lemma Index_nil (sep : string) :
  Strings.Index "" sep = if Strings.HasPrefix "" sep then Some 0 else None.
Proof. done. Qed.

(** The string is what stands before the first instance of [sep], then
    [sep], then the rest. *)
Lemma Index_Some_split (s sep : string) (m : nat) :
  Strings.Index s sep = Some m →
  s = Strings.upto m s +:+ sep +:+ Strings.skip (m + Strings.len sep) s.
Proof.
  revert m. induction s as [|a s IH]; intros m.
  - rewrite Index_nil. destruct (Strings.HasPrefix "" sep) eqn:Hp; [|done].
    intros [= <-]. apply HasPrefix_split in Hp. exact Hp.
  - rewrite Index_cons. destruct (Strings.HasPrefix (String a s) sep) eqn:Hp.
    + intros [= <-]. apply HasPrefix_split in Hp. exact Hp.
    + destruct (Strings.Index s sep) as [m'|] eqn:Hi; [|done].
      intros [= <-].
      change (String a s
              = String a (Strings.upto m' s +:+ sep
                          +:+ Strings.skip (m' + Strings.len sep) s)).
      f_equal. by apply IH.
Qed.

(** No instance of [sep] starts before the first one. *)
Lemma Index_upto (s sep : string) (m : nat) :
  sep ≠ EmptyString →
  Strings.Index s sep = Some m → Strings.Index (Strings.upto m s) sep = None.
Proof.
  intros Hsep. revert m. induction s as [|a s IH]; intros m.
  - rewrite Index_nil. destruct (Strings.HasPrefix "" sep) eqn:Hp; [|done].
    intros [= <-]. by destruct sep.
  - rewrite Index_cons. destruct (Strings.HasPrefix (String a s) sep) eqn:Hp.
    + intros [= <-]. by destruct sep.
    + destruct (Strings.Index s sep) as [m'|] eqn:Hi; [|done].
      intros [= <-]. specialize (IH m' eq_refl).
      change (Strings.upto (S m') (String a s)) with (String a (Strings.upto m' s)).
      rewrite Index_cons, IH.
      assert (Hpre : ∀ p t n b, Strings.HasPrefix (String b (Strings.upto n t)) p = true →
                                Strings.HasPrefix (String b t) p = true).
      { clear. intros p. induction p as [|c p IHp]; intros t n b; [done|].
        simpl. destruct (Ascii.eqb c b); [|done].
        destruct p as [|d p]; [by destruct (Strings.upto n t), t|].
        destruct n as [|n], t as [|b' t]; try done. apply IHp. }
      destruct (Strings.HasPrefix (String a (Strings.upto m' s)) sep) eqn:Hp'; [|done].
      apply Hpre in Hp'. congruence.
Qed.

Lemma Index_None_skip (s sep : string) (n : nat) :
  Strings.Index s sep = None → Strings.Index (Strings.skip n s) sep = None.
Proof.
  revert s. induction n as [|n IH]; intros s Hs; [by destruct s|].
  destruct s as [|a s]; [done|]. simpl. apply IH.
  rewrite Index_cons in Hs. destruct (Strings.HasPrefix (String a s) sep); [done|].
  by destruct (Strings.Index s sep).
Qed.

Lemma Index_None_app_r (s t sep : string) :
  Strings.Index (s +:+ t) sep = None → Strings.Index t sep = None.
Proof.
  induction s as [|a s IH]; [done|].
  change (String a s +:+ t) with (String a (s +:+ t)). rewrite Index_cons.
  destruct (Strings.HasPrefix (String a (s +:+ t)) sep); [done|].
  destruct (Strings.Index (s +:+ t) sep) eqn:Hi; [done|]. intros _. by apply IH.
Qed.

(** Nothing is replaced in a string without an instance of [old]. *)
Lemma replace_go_absent (fuel : nat) (s old new : string) (n : option nat) :
  Strings.Index s old = None → Strings.replace_go fuel s old new n = s.
Proof.
  revert s n. induction fuel as [|fuel IH]; intros s n Hs; [done|].
  destruct s as [|c s]; [done|].
  change (Strings.replace_go (S fuel) (String c s) old new n)
    with (match n with
          | Some 0 => String c s
          | _ =>
              if Strings.HasPrefix (String c s) old
              then new +:+ Strings.replace_go fuel
                             (Strings.skip (Strings.len old) (String c s)) old new
                             (pred <$> n)
              else String c (Strings.replace_go fuel s old new n)
          end).
  rewrite Index_cons in Hs.
  destruct (Strings.HasPrefix (String c s) old) eqn:Hp; [done|].
  destruct (Strings.Index s old) eqn:Hi; [done|].
  destruct n as [[|n]|]; [done|..]; by rewrite IH.
Qed.

Lemma Replace_absent (s old new : string) (n : Z) :
  Strings.Index s old = None → Strings.Replace s old new n = s.
Proof.
  intros Hs. unfold Strings.Replace. destruct old; [done|]. by apply replace_go_absent.
Qed.

(** What [strings.SplitN(kv, "=", 2)] gives for an entry that passes
    the check of [Configure]. *)
Lemma var_ok_split (kv : string) :
  var_ok kv = true →
  ∃ k v, Strings.SplitN kv "=" 2 = [k; v] ∧ kv = k +:+ "=" +:+ v
         ∧ k ≠ EmptyString ∧ Strings.Index k "=" = None.
Proof.
  unfold var_ok. cbn [Strings.SplitN].
  destruct (Strings.Index kv "=") as [m|] eqn:Hi; [|done].
  intros Hk. exists (Strings.upto m kv), (Strings.skip (m + Strings.len "=") kv).
  split; [done|]. split; [by apply Index_Some_split|]. split.
  - intros Hempty. rewrite Hempty in Hk. done.
  - by apply Index_upto.
Qed.

Lemma normalize_var_bad (kv : string) : var_ok kv = false → normalize_var kv = kv.
Proof.
  unfold var_ok, normalize_var.
  destruct (Strings.SplitN kv "=" 2) as [|k [|v [|]]]; try done.
  by destruct (String.eqb k "").
Qed.

Lemma normalize_var_plain (kv : string) :
  Strings.Index kv "'" = None → normalize_var kv = kv.
Proof.
  intros Hq. destruct (var_ok kv) eqn:Hok; [|by apply normalize_var_bad].
  destruct (var_ok_split kv Hok) as (k & v & Hsplit & Hkv & Hk & _).
  unfold normalize_var. rewrite Hsplit.
  destruct (String.eqb k "") eqn:Hke; [done|].
  rewrite Replace_absent; [done|].
  rewrite Hkv in Hq. apply Index_None_app_r in Hq. by apply Index_None_app_r in Hq.
Qed.

End StringFacts.

Section ConfigureMore.
Context {W Raw : Type} (sys : @Sys W Raw).

(** X6. When the decoder fails, [Configure] returns its error at once: the
    configuration and the heap are as the decoder left them (no default
    is filled in), and no script is looked up. *)
Theorem Configure_decode_error (raws : list Raw) (u : @state W ()) e c1 h1 :
  config_Decode sys raws (config u) (heap u) = (Some e, (c1, h1)) →
  (Configure sys raws u).1 = Some (Some (errorString e))
  ∧ config (Configure sys raws u).2 = c1
  ∧ heap (Configure sys raws u).2 = h1
  ∧ world (Configure sys raws u).2 = world u
  ∧ added u (Configure sys raws u).2 = [].
Proof.
  destruct u as [h c [] ds w tr]. cbn [heap config world]. intros Hdec.
  assert (Hrun : Configure sys raws (State h c () ds w tr)
                 = (Some (Some (errorString e)), State h1 c1 () [] w tr)).
  { unfold Configure, call, Configure_body.
    rewrite bind_unfold. unfold decode at 1. cbn [heap config frame defers world trace].
    rewrite Hdec. rewrite bind_unfold. unfold return_ at 1. reflexivity. }
  rewrite Hrun. cbn [fst snd heap config world].
  split_and!; try reflexivity. unfold added. cbn [trace]. apply drop_all.
Qed.

(** X7. When [script] is given, it is the only script: [Configure] looks up
    this one path and nothing else, whatever [scripts] holds, and
    [p.config.Scripts] has one element afterwards. When [scripts] is not
    empty either, the first error returned says that only one of the two
    can be specified. *)
Theorem Configure_single_script (raws : list Raw) (u : @state W ()) c1 h1 :
  config_Decode sys raws (config u) (heap u) = (None, (c1, h1)) →
  config_ok h1 c1 = true →
  Script c1 ≠ EmptyString →
  (∃ r, added u (Configure sys raws u).2 = [EvStat (Script c1) r])
  ∧ s_len (Scripts (config (Configure sys raws u).2)) = 1
  ∧ (0 < s_len (Scripts c1) →
     ∃ es, (Configure sys raws u).1
           = Some (Some (MultiError
               ("Only one of script or scripts can be specified." :: es)))).
Proof.
  intros Hdec Hok Hscript.
  destruct (Configure_spec sys raws u c1 h1 Hdec Hok)
    as (stats & u' & -> & Hst & Htr & _ & _ & _ & _ & Hlen & _).
  cbn [fst snd]. rewrite (added_app _ _ _ Htr).
  assert (Hne : String.eqb (Script c1) "" = false) by (by apply String.eqb_neq).
  unfold resolved_scripts in *. rewrite Hne in *.
  destruct stats as [|[path r] [|]]; try done. injection Hst as ->.
  split; [by exists r|]. split; [done|].
  intros Hpos. unfold validation_errors, field_errors. rewrite Hne.
  apply Nat.ltb_lt in Hpos. rewrite Hpos. simpl. by eexists.
Qed.

(** X8. [Configure] rewrites an entry of [environment_vars] only to escape
    its single quotes: an entry that fails the check (it is reported) and
    an entry without a single quote are left as they are. *)
Theorem Configure_keeps_plain_vars (raws : list Raw) (u : @state W ()) c1 h1
    (i : nat) (kv : string) :
  config_Decode sys raws (config u) (heap u) = (None, (c1, h1)) →
  config_ok h1 c1 = true →
  elems h1 (Vars c1) !! i = Some kv →
  var_ok kv = false ∨ Strings.Index kv "'" = None →
  elems (heap (Configure sys raws u).2) (Vars (config (Configure sys raws u).2)) !! i
  = Some kv.
Proof.
  intros Hdec Hok Hi Hkv.
  destruct (Configure_spec sys raws u c1 h1 Hdec Hok)
    as (stats & u' & -> & _ & _ & _ & _ & _ & _ & _ & Hvars & _).
  cbn [snd]. rewrite Hvars, list_lookup_fmap, Hi. simpl. f_equal.
  destruct Hkv as [Hbad|Hplain].
  - by apply normalize_var_bad.
  - by apply normalize_var_plain.
Qed.

(** X9. An entry of [environment_vars] that passes the check is a non-empty
    key without [=], then [=], then a value; [Configure] puts in its place
    the same key, [=], and the value with every single quote replaced by
    the five bytes of [quote_escape]. The key is not touched, and an [=]
    in the value does not split it. *)
Theorem Configure_escapes_value (raws : list Raw) (u : @state W ()) c1 h1
    (i : nat) (kv : string) :
  config_Decode sys raws (config u) (heap u) = (None, (c1, h1)) →
  config_ok h1 c1 = true →
  elems h1 (Vars c1) !! i = Some kv →
  var_ok kv = true →
  ∃ k v,
    kv = k +:+ "=" +:+ v
    ∧ k ≠ EmptyString
    ∧ Strings.Index k "=" = None
    ∧ elems (heap (Configure sys raws u).2) (Vars (config (Configure sys raws u).2)) !! i
      = Some (k +:+ "=" +:+ Strings.Replace v "'" quote_escape (-1)).
Proof.
  intros Hdec Hok Hi Hkv.
  destruct (Configure_spec sys raws u c1 h1 Hdec Hok)
    as (stats & u' & -> & _ & _ & _ & _ & _ & _ & _ & Hvars & _).
  cbn [snd]. rewrite Hvars, list_lookup_fmap, Hi. simpl.
  destruct (var_ok_split kv Hkv) as (k & v & Hsplit & Heq & Hk & Hnone).
  exists k, v. split; [done|]. split; [done|]. split; [done|].
  unfold normalize_var. rewrite Hsplit.
  destruct (String.eqb k "") eqn:Hke; [|done].
  by apply String.eqb_eq in Hke.
Qed.

End ConfigureMore.


(* ===================================================================== *)
(** ** The failures and the edge cases on concrete runs                   *)
(* ===================================================================== *)

Section MoreRuns.

(** The disk is full when the script of [inline = [echo hi]] is flushed:
    the temporary file is removed and never closed. *)
Lemma PostProcess_preparation_failure_run :
  config_ok (heap Demo.ready_inline) (config Demo.ready_inline) = true
  ∧ is_nil (Inline (config Demo.ready_inline)) = false
  ∧ (∀ tf, EvFlush tf None
           ∉ added Demo.ready_inline
               (PostProcess Faults.disk_full Demo.ui ["A"] Demo.ready_inline).2)
  ∧ removed (added Demo.ready_inline
               (PostProcess Faults.disk_full Demo.ui ["A"] Demo.ready_inline).2)
    = [Demo.temp_name]
  ∧ closed (added Demo.ready_inline
              (PostProcess Faults.disk_full Demo.ui ["A"] Demo.ready_inline).2)
    = [].
Proof.
  assert (Hok : config_ok (heap Demo.ready_inline) (config Demo.ready_inline) = true)
    by (vm_compute; reflexivity).
  assert (Hinl : is_nil (Inline (config Demo.ready_inline)) = false)
    by (vm_compute; reflexivity).
  assert (Hflush : ∀ tf, EvFlush tf None
                         ∉ added Demo.ready_inline
                             (PostProcess Faults.disk_full Demo.ui ["A"]
                                Demo.ready_inline).2).
  { intros tf.
    assert (Hev : added Demo.ready_inline
                    (PostProcess Faults.disk_full Demo.ui ["A"] Demo.ready_inline).2
                  = [ EvTempFile "" "packer-shell" (inl Demo.temp_name);
                      EvWriteString Demo.temp_name ("#!/bin/sh -e" +:+ nl) None;
                      EvWriteString Demo.temp_name ("echo hi" +:+ nl) None;
                      EvFlush Demo.temp_name (Some "no space left on device");
                      EvRemove Demo.temp_name ])
      by (vm_compute; reflexivity).
    rewrite Hev. apply Forall_not_in.
    repeat (apply Forall_cons; split; [discriminate|]). apply Forall_nil_2. }
  split; [exact Hok|]. split; [exact Hinl|]. split; [exact Hflush|].
  destruct (PostProcess_preparation_failure Faults.disk_full Demo.ui ["A"]
              Demo.ready_inline Hok Hinl Hflush) as (e & _ & _ & _ & Hcl & Hrm).
  split; [|exact Hcl].
  etransitivity; [exact Hrm|]. vm_compute. reflexivity.
Defined.

(** The script [S1] is missing when [PostProcess] runs. *)
Lemma PostProcess_open_failure_run :
  config_ok (heap Faults.lost_script) (config Faults.lost_script) = true
  ∧ added Faults.lost_script
      (PostProcess (Demo.sys []) Demo.ui ["A"] Faults.lost_script).2
    = [ EvSay "Processing with shell script: S1"; EvLog "Opening S1 for reading" ]
      ++ EvOpen "S1" (Some "no such file or directory") :: []
  ∧ (PostProcess (Demo.sys []) Demo.ui ["A"] Faults.lost_script).1
    = Some (None, false,
            Some (errorString "Error opening shell script: no such file or directory")).
Proof.
  assert (Hok : config_ok (heap Faults.lost_script) (config Faults.lost_script) = true)
    by (vm_compute; reflexivity).
  assert (Hev : added Faults.lost_script
                  (PostProcess (Demo.sys []) Demo.ui ["A"] Faults.lost_script).2
                = [ EvSay "Processing with shell script: S1";
                    EvLog "Opening S1 for reading" ]
                  ++ EvOpen "S1" (Some "no such file or directory") :: [])
    by (vm_compute; reflexivity).
  split; [exact Hok|]. split; [exact Hev|].
  destruct (PostProcess_open_failure (Demo.sys []) Demo.ui ["A"] Faults.lost_script
              _ _ _ _ Hok Hev) as (Hres & _).
  etransitivity; [exact Hres|]. vm_compute. reflexivity.
Defined.

(** [inline = [echo hi]] on the artifacts [A, B]. *)
Lemma PostProcess_deferred_calls_run :
  config_ok (heap Demo.ready_inline) (config Demo.ready_inline) = true
  ∧ ∃ body,
      added Demo.ready_inline
        (PostProcess (Demo.sys []) Demo.ui ["A"; "B"] Demo.ready_inline).2
      = body
        ++ map EvClose
             (reverse (opened (added Demo.ready_inline
                (PostProcess (Demo.sys []) Demo.ui ["A"; "B"] Demo.ready_inline).2)))
        ++ map EvRemove
             (temp_files (added Demo.ready_inline
                (PostProcess (Demo.sys []) Demo.ui ["A"; "B"] Demo.ready_inline).2))
      ∧ runs body
        = runs (added Demo.ready_inline
                  (PostProcess (Demo.sys []) Demo.ui ["A"; "B"] Demo.ready_inline).2)
      ∧ opened body
        = opened (added Demo.ready_inline
                    (PostProcess (Demo.sys []) Demo.ui ["A"; "B"] Demo.ready_inline).2)
      ∧ removed body = []
      ∧ closed body `prefix_of` temp_files body.
Proof.
  assert (Hok : config_ok (heap Demo.ready_inline) (config Demo.ready_inline) = true)
    by (vm_compute; reflexivity).
  split; [exact Hok|].
  exact (PostProcess_deferred_calls (Demo.sys []) Demo.ui ["A"; "B"]
           Demo.ready_inline Hok).
Defined.

(** [scripts = [S1, S2]] on an artifact without files. *)
Lemma PostProcess_no_files_run :
  config_ok (heap Demo.ready_scripts) (config Demo.ready_scripts) = true
  ∧ Files ([] : list string) = []
  ∧ added Demo.ready_scripts
      (PostProcess (Demo.sys []) Demo.ui [] Demo.ready_scripts).2 = []
  ∧ (PostProcess (Demo.sys []) Demo.ui [] Demo.ready_scripts).1
    = Some (Some [], true, None).
Proof.
  assert (Hok : config_ok (heap Demo.ready_scripts) (config Demo.ready_scripts) = true)
    by (vm_compute; reflexivity).
  assert (Hfiles : Files ([] : list string) = []) by reflexivity.
  split; [exact Hok|]. split; [exact Hfiles|].
  destruct (PostProcess_no_files (Demo.sys []) Demo.ui [] Demo.ready_scripts Hok Hfiles)
    as (_ & _ & Hnone).
  destruct (Hnone ltac:(vm_compute; reflexivity)) as [Hev Hres].
  split; [exact Hev|]. etransitivity; [exact Hres|]. vm_compute. reflexivity.
Defined.

(** [inline = [echo hi]]: the inline list is the same after the run. *)
Lemma PostProcess_keeps_configuration_run :
  config_ok (heap Demo.ready_inline) (config Demo.ready_inline) = true
  ∧ config (PostProcess (Demo.sys []) Demo.ui ["A"] Demo.ready_inline).2
    = config Demo.ready_inline
  ∧ elems (heap (PostProcess (Demo.sys []) Demo.ui ["A"] Demo.ready_inline).2)
          (Inline (config Demo.ready_inline))
    = ["echo hi"].
Proof.
  assert (Hok : config_ok (heap Demo.ready_inline) (config Demo.ready_inline) = true)
    by (vm_compute; reflexivity).
  split; [exact Hok|].
  destruct (PostProcess_keeps_configuration (Demo.sys []) Demo.ui ["A"]
              Demo.ready_inline Hok) as (Hcfg & _ & Hkeep).
  split; [exact Hcfg|].
  destruct (Hkeep (Inline (config Demo.ready_inline)) ltac:(vm_compute; reflexivity))
    as [_ Hel].
  etransitivity; [exact Hel|]. vm_compute. reflexivity.
Defined.

(** The decoder refuses the raw configuration. *)
Lemma Configure_decode_error_run :
  config_Decode Faults.unknown_key [Demo.inline_only] (config Demo.boot) (heap Demo.boot)
  = (Some "unknown configuration key", (config Demo.boot, heap Demo.boot))
  ∧ (Configure Faults.unknown_key [Demo.inline_only] Demo.boot).1
    = Some (Some (errorString "unknown configuration key"))
  ∧ InlineShebang (config (Configure Faults.unknown_key [Demo.inline_only] Demo.boot).2)
    = EmptyString.
Proof.
  assert (Hdec : config_Decode Faults.unknown_key [Demo.inline_only]
                   (config Demo.boot) (heap Demo.boot)
                 = (Some "unknown configuration key", (config Demo.boot, heap Demo.boot)))
    by reflexivity.
  split; [exact Hdec|].
  destruct (Configure_decode_error Faults.unknown_key [Demo.inline_only] Demo.boot
              _ _ _ Hdec) as (Hres & Hcfg & _).
  split; [exact Hres|]. rewrite Hcfg. reflexivity.
Defined.

(** [script = s.sh] and [scripts = [S1, S2]]. *)
Lemma Configure_single_script_run :
  config_Decode (Demo.sys []) [Faults.script_and_scripts]
    (config Demo.boot) (heap Demo.boot)
  = (None, ((Demo.decoded Faults.script_and_scripts).1,
            (Demo.decoded Faults.script_and_scripts).2))
  ∧ config_ok (Demo.decoded Faults.script_and_scripts).2
              (Demo.decoded Faults.script_and_scripts).1 = true
  ∧ Script (Demo.decoded Faults.script_and_scripts).1 ≠ EmptyString
  ∧ added Demo.boot (Configure (Demo.sys []) [Faults.script_and_scripts] Demo.boot).2
    = [EvStat "s.sh" None]
  ∧ s_len (Scripts (config (Configure (Demo.sys []) [Faults.script_and_scripts]
                              Demo.boot).2)) = 1.
Proof.
  assert (Hdec : config_Decode (Demo.sys []) [Faults.script_and_scripts]
                   (config Demo.boot) (heap Demo.boot)
                 = (None, ((Demo.decoded Faults.script_and_scripts).1,
                           (Demo.decoded Faults.script_and_scripts).2)))
    by (vm_compute; reflexivity).
  assert (Hok : config_ok (Demo.decoded Faults.script_and_scripts).2
                          (Demo.decoded Faults.script_and_scripts).1 = true)
    by (vm_compute; reflexivity).
  assert (Hscript : Script (Demo.decoded Faults.script_and_scripts).1 ≠ EmptyString)
    by discriminate.
  split; [exact Hdec|]. split; [exact Hok|]. split; [exact Hscript|].
  destruct (Configure_single_script (Demo.sys []) [Faults.script_and_scripts] Demo.boot
              _ _ Hdec Hok Hscript) as (_ & Hlen & _).
  split; [vm_compute; reflexivity|exact Hlen].
Defined.

(** The entry [novalue] of a list of three is reported and kept. *)
Lemma Configure_keeps_plain_vars_run :
  config_Decode (Demo.sys []) [Demo.broken] (config Demo.boot) (heap Demo.boot)
  = (None, ((Demo.decoded Demo.broken).1, (Demo.decoded Demo.broken).2))
  ∧ config_ok (Demo.decoded Demo.broken).2 (Demo.decoded Demo.broken).1 = true
  ∧ elems (Demo.decoded Demo.broken).2 (Vars (Demo.decoded Demo.broken).1) !! 1
    = Some "novalue"
  ∧ (var_ok "novalue" = false ∨ Strings.Index "novalue" "'" = None)
  ∧ elems (heap (Configure (Demo.sys []) [Demo.broken] Demo.boot).2)
          (Vars (config (Configure (Demo.sys []) [Demo.broken] Demo.boot).2)) !! 1
    = Some "novalue".
Proof.
  assert (Hdec : config_Decode (Demo.sys []) [Demo.broken]
                   (config Demo.boot) (heap Demo.boot)
                 = (None, ((Demo.decoded Demo.broken).1, (Demo.decoded Demo.broken).2)))
    by (vm_compute; reflexivity).
  assert (Hok : config_ok (Demo.decoded Demo.broken).2 (Demo.decoded Demo.broken).1 = true)
    by (vm_compute; reflexivity).
  assert (Hi : elems (Demo.decoded Demo.broken).2 (Vars (Demo.decoded Demo.broken).1) !! 1
               = Some "novalue")
    by (vm_compute; reflexivity).
  assert (Hkv : var_ok "novalue" = false ∨ Strings.Index "novalue" "'" = None)
    by (left; vm_compute; reflexivity).
  split; [exact Hdec|]. split; [exact Hok|]. split; [exact Hi|]. split; [exact Hkv|].
  exact (Configure_keeps_plain_vars (Demo.sys []) [Demo.broken] Demo.boot _ _ 1 "novalue"
           Hdec Hok Hi Hkv).
Defined.

(** The entry [NAME=O'Brien]. *)
Lemma Configure_escapes_value_run :
  config_Decode (Demo.sys []) [Demo.two_scripts] (config Demo.boot) (heap Demo.boot)
  = (None, ((Demo.decoded Demo.two_scripts).1, (Demo.decoded Demo.two_scripts).2))
  ∧ config_ok (Demo.decoded Demo.two_scripts).2 (Demo.decoded Demo.two_scripts).1 = true
  ∧ elems (Demo.decoded Demo.two_scripts).2 (Vars (Demo.decoded Demo.two_scripts).1) !! 0
    = Some "NAME=O'Brien"
  ∧ var_ok "NAME=O'Brien" = true
  ∧ ∃ k v,
      "NAME=O'Brien" = k +:+ "=" +:+ v
      ∧ k ≠ EmptyString
      ∧ Strings.Index k "=" = None
      ∧ elems (heap (Configure (Demo.sys []) [Demo.two_scripts] Demo.boot).2)
              (Vars (config (Configure (Demo.sys []) [Demo.two_scripts] Demo.boot).2)) !! 0
        = Some (k +:+ "=" +:+ Strings.Replace v "'" quote_escape (-1)).
Proof.
  assert (Hdec : config_Decode (Demo.sys []) [Demo.two_scripts]
                   (config Demo.boot) (heap Demo.boot)
                 = (None, ((Demo.decoded Demo.two_scripts).1,
                           (Demo.decoded Demo.two_scripts).2)))
    by (vm_compute; reflexivity).
  assert (Hok : config_ok (Demo.decoded Demo.two_scripts).2
                          (Demo.decoded Demo.two_scripts).1 = true)
    by (vm_compute; reflexivity).
  assert (Hi : elems (Demo.decoded Demo.two_scripts).2
                     (Vars (Demo.decoded Demo.two_scripts).1) !! 0
               = Some "NAME=O'Brien")
    by (vm_compute; reflexivity).
  assert (Hkv : var_ok "NAME=O'Brien" = true) by (vm_compute; reflexivity).
  split; [exact Hdec|]. split; [exact Hok|]. split; [exact Hi|]. split; [exact Hkv|].
  exact (Configure_escapes_value (Demo.sys []) [Demo.two_scripts] Demo.boot _ _ 0
           "NAME=O'Brien" Hdec Hok Hi Hkv).
Defined.

End MoreRuns.


(* ===================================================================== *)
(** ** [Configure], then [PostProcess]                                    *)
(* ===================================================================== *)

Section Composition.
Context {W Raw : Type} (sys : @Sys W Raw) {A : Type} `{Artifact A}.

(** X18. [Configure], then [PostProcess], when the decoder gave [scripts]
    and [environment_vars] arrays of their own: the processes started for
    an artifact follow the cross product of its files and of the script
    paths that [Configure] looked up with [os.Stat], the temporary inline
    script behind them; they are all of it when [PostProcess] returns no
    error. The configuration that [Configure] leaves is well formed, so
    that every other guarantee of [PostProcess] holds for it too. *)
Theorem Configure_then_PostProcess (raws : list Raw) (u : @state W ()) c1 h1
    (ui : @Ui W) (artifact : A) :
  config_Decode sys raws (config u) (heap u) = (None, (c1, h1)) →
  config_ok h1 c1 = true →
  (∀ l, s_arr (Scripts c1) = Some l → s_arr (Vars c1) ≠ Some l) →
  let u' := (Configure sys raws u).2 in
  let looked_up :=
    ev ← added u u'; match ev with EvStat path _ => [path] | _ => [] end in
  let evs := added u' (PostProcess sys ui artifact u').2 in
  config_ok (heap u') (config u') = true
  ∧ runs evs `prefix_of`
      map sh_c (cross (Files artifact) (looked_up ++ temp_files evs))
  ∧ (∀ a k, (PostProcess sys ui artifact u').1 = Some (a, k, None) →
            runs evs = map sh_c (cross (Files artifact) (looked_up ++ temp_files evs))).
Proof.
  intros Hdec Hok Hapart.
  destruct (Configure_spec_scripts sys raws u c1 h1 Hdec Hok)
    as (stats & u' & -> & Hst & Htr & Hok' & _ & _ & _ & _ & _ & _ & _ & _ & Hscr).
  specialize (Hscr Hapart).
  cbn [fst snd]. rewrite (added_app _ _ _ Htr).
  assert (Hpaths : (stat_events stats
                    ≫= λ ev, match ev with EvStat path _ => [path] | _ => [] end)
                   = elems (heap u') (Scripts (config u'))).
  { rewrite Hscr, <- Hst. unfold stat_events. clear.
    induction stats as [|[path r] stats IH]; [done|].
    change (map ?f ((path, r) :: stats)) with (f (path, r) :: map f stats).
    cbn [mbind list_bind app map fst snd]. by rewrite <- IH. }
  rewrite Hpaths. split; [done|].
  destruct (PostProcess_spec sys ui artifact u' Hok')
    as (p & lg & st' & -> & _ & _ & Htr' & _ & _ & _ & _ & Hpre & Hall).
  cbn [fst snd]. rewrite (added_app _ _ _ Htr'), runs_shape, temp_files_shape.
  split.
  - destruct Hpre as [rest ->]. rewrite fmap_app.
    apply prefix_app_r. destruct (log_ran_prefix lg) as [rest' ->].
    rewrite fmap_app. by apply prefix_app_r.
  - intros a k [= Hres]. apply final_result_ok in Hres as (Hp & Hfin & _).
    by rewrite log_ran_completed, Hall.
Qed.

End Composition.

(** [Configure] on [scripts = [S1, S2]], then [PostProcess] on [A, B]. *)
Lemma Configure_then_PostProcess_run :
  config_Decode (Demo.sys []) [Demo.two_scripts] (config Demo.boot) (heap Demo.boot)
  = (None, ((Demo.decoded Demo.two_scripts).1, (Demo.decoded Demo.two_scripts).2))
  ∧ config_ok (Demo.decoded Demo.two_scripts).2 (Demo.decoded Demo.two_scripts).1 = true
  ∧ (∀ l, s_arr (Scripts (Demo.decoded Demo.two_scripts).1) = Some l →
          s_arr (Vars (Demo.decoded Demo.two_scripts).1) ≠ Some l)
  ∧ runs (added Demo.ready_scripts
            (PostProcess (Demo.sys []) Demo.ui ["A"; "B"] Demo.ready_scripts).2)
    = [ ("sh", ["-c"; "S1 A"]); ("sh", ["-c"; "S2 A"]);
        ("sh", ["-c"; "S1 B"]); ("sh", ["-c"; "S2 B"]) ].
Proof.
  assert (Hdec : config_Decode (Demo.sys []) [Demo.two_scripts]
                   (config Demo.boot) (heap Demo.boot)
                 = (None, ((Demo.decoded Demo.two_scripts).1,
                           (Demo.decoded Demo.two_scripts).2)))
    by (vm_compute; reflexivity).
  assert (Hok : config_ok (Demo.decoded Demo.two_scripts).2
                          (Demo.decoded Demo.two_scripts).1 = true)
    by (vm_compute; reflexivity).
  assert (Hapart : ∀ l, s_arr (Scripts (Demo.decoded Demo.two_scripts).1) = Some l →
                        s_arr (Vars (Demo.decoded Demo.two_scripts).1) ≠ Some l)
    by (intros l [= <-]; discriminate).
  split; [exact Hdec|]. split; [exact Hok|]. split; [exact Hapart|].
  pose proof (Configure_then_PostProcess (Demo.sys []) [Demo.two_scripts] Demo.boot
                _ _ Demo.ui ["A"; "B"] Hdec Hok Hapart) as Hthen.
  cbv zeta in Hthen. destruct Hthen as (_ & _ & Hall).
  etransitivity; [apply (Hall (Some ["A"; "B"]) true); vm_compute; reflexivity|].
  vm_compute. reflexivity.
Defined.


(* ===================================================================== *)
(** ** [ShellPostProcessor.PostProcess]: the loops                        *)
(* ===================================================================== *)

Module ShellPostProcessorFacts.
Import ShellPostProcessor.

Section Loops.
Context {W Raw : Type} (sys : @Sys W Raw) {A : Type}.
Implicit Types (st : @state W (Method PostProcessLocals)).

Lemma Shell_log_events_app env lg1 lg2 :
  fin lg1 = Completed →
  log_events env (log_app lg1 lg2) = log_events env lg1 ++ log_events env lg2.
Proof.
  intros Hfin. unfold log_events, log_app. simpl.
  rewrite Hfin, bind_app. simpl. by rewrite app_nil_r, app_assoc.
Qed.

Lemma Shell_log_outcome_Next {B} lg :
  fin lg = Completed ↔ @log_outcome B lg = Next ().
Proof. unfold log_outcome. destruct (fin lg); simpl; split; done. Qed.

(** One pass: the script cannot be opened, or the process fails, or the
    pass succeeds. *)
Lemma Shell_run_script_spec (ui : @Ui W) art k path st :
  ∃ lg st',
    run_script sys (A:=A) ui art k path st = (log_outcome lg, st')
    ∧ unchanged st st'
    ∧ trace st' = trace st ++ log_events (elems (heap st) (envVars (locals (frame st)))) lg
    ∧ defers st' = map DeferClose (reverse (log_opened lg)) ++ defers st
    ∧ log_ok lg
    ∧ log_pairs lg = [(art, path)].
Proof.
  destruct st as [h c [pc [scr env out err]] ds w tr].
  unfold run_script. run_method.
  destruct (os_Open sys path _) as [[e|] w1] eqn:Hopen.
  - exists {| done_passes := []; fin := OpenFailed art path e |}.
    eexists. split; [reflexivity|]. unfold unchanged, log_ok. simpl.
    rewrite <- !app_assoc. done.
  - destruct (cmd_Run sys _ _ _ _) as [res w2] eqn:Hrun.
    destruct (r_err res) as [e|] eqn:Herr.
    + exists {| done_passes := [];
                fin := RunFailed {| i_art := art; i_path := path;
                                    i_ambient := []; i_res := res |} |}.
      eexists. split; [reflexivity|]. unfold unchanged, log_ok. simpl.
      rewrite <- !app_assoc, Herr. done.
    + exists {| done_passes := [{| i_art := art; i_path := path;
                                   i_ambient := []; i_res := res |}];
                fin := Completed |}.
      eexists. split; [reflexivity|]. unfold unchanged, log_ok. simpl.
      rewrite <- !app_assoc. repeat split; try done.
      by apply Forall_singleton.
Qed.

Lemma Shell_unchanged_trans st1 st2 st3 :
  unchanged st1 st2 → unchanged st2 st3 → unchanged st1 st3.
Proof.
  intros (H1 & H2 & H3 & H4) (K1 & K2 & K3 & K4).
  unfold unchanged. by rewrite K1, K2, K3, K4.
Qed.

(** The loops as a whole: the passes succeed one after the other up to
    the first that fails. *)
Lemma Shell_for_pairs_spec (ui : @Ui W) pairs st :
  ∃ lg st',
    for_pairs pairs (λ art path, run_script sys (A:=A) ui art 0 path) st
    = (log_outcome lg, st')
    ∧ unchanged st st'
    ∧ trace st' = trace st ++ log_events (elems (heap st) (envVars (locals (frame st)))) lg
    ∧ defers st' = map DeferClose (reverse (log_opened lg)) ++ defers st
    ∧ log_ok lg
    ∧ log_pairs lg `prefix_of` pairs
    ∧ (fin lg = Completed → log_pairs lg = pairs).
Proof.
  revert st. induction pairs as [|[art path] rest IH]; intros st.
  - exists {| done_passes := []; fin := Completed |}, st.
    unfold log_events, log_ok. simpl. rewrite app_nil_r. done.
  - destruct (Shell_run_script_spec ui art 0 path st)
      as (lg1 & st1 & Hrun & Hun1 & Htr1 & Hdf1 & Hok1 & Hp1).
    simpl. rewrite bind_unfold, Hrun.
    destruct (fin lg1) eqn:Hfin.
    + replace (log_outcome lg1) with (@Next (option A * bool * option error) _ ())
        by (symmetry; by apply Shell_log_outcome_Next).
      destruct (IH st1) as (lg2 & st2 & Hrest & Hun2 & Htr2 & Hdf2 & Hok2 & Hp2 & Hall).
      exists (log_app lg1 lg2), st2.
      pose proof Hun1 as (Hh & Hc & Hs & He).
      rewrite He, Hh in Htr2.
      rewrite Shell_log_events_app, log_pairs_app, log_opened_app by done.
      rewrite Hp1, Htr2, Htr1, Hdf2, Hdf1, reverse_app, map_app, <- !app_assoc.
      split; [done|]. split; [by apply (Shell_unchanged_trans _ st1)|].
      split; [done|]. split; [done|]. split; [by apply log_ok_app|].
      split; [simpl; by apply prefix_cons|].
      simpl. intros Hf. by rewrite Hall.
    + exists lg1, st1. split.
      { destruct (log_outcome lg1) as [[]| |] eqn:Hout; [|done..].
        apply Shell_log_outcome_Next in Hout. congruence. }
      do 4 (split; [done|]). rewrite Hp1.
      split; [by apply prefix_cons, prefix_nil|congruence].
    + exists lg1, st1. split.
      { destruct (log_outcome lg1) as [[]| |] eqn:Hout; [|done..].
        apply Shell_log_outcome_Next in Hout. congruence. }
      do 4 (split; [done|]). rewrite Hp1.
      split; [by apply prefix_cons, prefix_nil|congruence].
Qed.

(** The nested loops visit the cross product of the artifacts and of the
    elements of [scripts]. *)
Lemma Shell_loops_for_pairs (ui : @Ui W) files st :
  slice_ok (heap st) (scripts (locals (frame st))) = true →
  for_each files (λ art, l ← local_; for_range (scripts l) (run_script sys (A:=A) ui art)) st
  = for_pairs (cross files (elems (heap st) (scripts (locals (frame st)))))
              (λ art path, run_script sys ui art 0 path) st.
Proof.
  revert st. induction files as [|art files IH]; intros st Hok; [done|].
  rewrite cross_cons, for_pairs_app.
  change (for_each (art :: files) ?b) with (b art;; for_each files b).
  rewrite !bind_unfold. unfold local_ at 1. cbv beta iota.
  rewrite (for_range_for_each _ _ (run_script sys ui art 0)); [|done| |done].
  2:{ intros v st'. destruct (Shell_run_script_spec ui art 0 v st')
        as (lg & st2 & -> & (Hh & _) & _). done. }
  rewrite (for_each_for_pairs art _ (λ art path, run_script sys ui art 0 path)).
  destruct (Shell_for_pairs_spec ui
              (map (pair art) (elems (heap st) (scripts (locals (frame st))))) st)
    as (lg & st1 & Hrun & (Hh & Hc & Hs & He) & _).
  rewrite Hrun. destruct (log_outcome lg) as [[]| |]; try done.
  rewrite IH; rewrite Hh, Hs; done.
Qed.

End Loops.


(* ===================================================================== *)
(** ** [ShellPostProcessor.PostProcess]: the preparation                  *)
(* ===================================================================== *)

Section Prep.
Context {W Raw : Type} (sys : @Sys W Raw) {A : Type}.
Implicit Types (st : @state W (Method PostProcessLocals)).

(** The loop that writes the inline commands. *)
Lemma Shell_write_loop_spec tf (inline : list string) st :
  let body := λ command : string,
    (err ← syscall (bufio_WriteString sys tf (command +:+ nl))
                   (EvWriteString tf (command +:+ nl));
     match err with
     | Some e => failed ("Error preparing shell script: " +:+ e)
     | None => skip
     end : @M W (Method PostProcessLocals) (option A * bool * option error) unit) in
  ∃ st', same_memory st st'
    ∧ ((for_each inline body st = (Next (), st')
        ∧ trace st' = trace st ++ write_events tf inline)
       ∨ (∃ written cmd e,
            (written ++ [cmd]) `prefix_of` inline
            ∧ for_each inline body st
              = (outcome_of (Some (errorString ("Error preparing shell script: " +:+ e))), st')
            ∧ trace st' = trace st ++ write_events tf written
                          ++ [EvWriteString tf (cmd +:+ nl) (Some e)])).
Proof.
  intros body. revert st. induction inline as [|c inline IH]; intros st.
  - exists st. split; [done|]. left. simpl. by rewrite app_nil_r.
  - change (for_each (c :: inline) body) with (body c;; for_each inline body).
    rewrite bind_unfold. destruct st as [h cf fr ds w tr].
    unfold body at 1 3. run_method.
    destruct (bufio_WriteString sys tf (c +:+ nl) w) as [[e|] w1].
    + eexists. split; [|right; exists [], c, e; split; [|split; [reflexivity|]]].
      * done.
      * by apply prefix_cons, prefix_nil.
      * done.
    + destruct (IH (State h cf fr ds w1 (tr ++ [EvWriteString tf (c +:+ nl) None])))
        as (st' & Hsame & [[Hrun Htr]|(written & cmd & e & Hpre & Hrun & Htr)]).
      * exists st'. split; [done|]. left. split; [done|].
        rewrite Htr. simpl. by rewrite <- app_assoc.
      * exists st'. split; [done|]. right. exists (c :: written), cmd, e.
        split; [by apply prefix_cons|]. split; [done|].
        rewrite Htr. simpl. by rewrite <- !app_assoc.
Qed.

(** Lines 122-146. *)
Lemma Shell_inline_script_spec n st :
  slice_ok (heap st) (Inline (cfg (frame st))) = true →
  below n (Inline (cfg (frame st))) →
  n ≤ length (heap st) →
  slice_ok (heap st) (scripts (locals (frame st))) = true →
  above n (scripts (locals (frame st))) →
  ∃ p st',
    inline_script sys (A:=A) st = (outcome_of (prep_error p), st')
    ∧ cfg (frame st') = cfg (frame st)
    ∧ trace st' = trace st ++ prep_events (InlineShebang (cfg (frame st)))
                               (elems (heap st) (Inline (cfg (frame st)))) p
    ∧ defers st' = map DeferRemove (prep_temp p) ++ defers st
    ∧ prep_ok (elems (heap st) (Inline (cfg (frame st)))) p
    ∧ (p = NoInline ↔ is_nil (Inline (cfg (frame st))) = true)
    ∧ slice_ok (heap st') (scripts (locals (frame st'))) = true
    ∧ elems (heap st') (scripts (locals (frame st')))
      = elems (heap st) (scripts (locals (frame st))) ++ prep_temp p
    ∧ agree n (heap st) (heap st')
    ∧ length (heap st) ≤ length (heap st').
Proof.
  destruct st as [h c0 [c fr] ds w tr]. cbn [heap config frame cfg locals].
  intros Hinl Hbelow Hn Hscr Habove.
  unfold inline_script. run_method.
  destruct (is_nil (Inline c)) eqn:Hnil; simpl.
  { exists NoInline. eexists. split; [reflexivity|]. simpl.
    rewrite !app_nil_r. split_and!; done. }
  destruct (ioutil_TempFile sys "" "packer-shell" w) as [[tf|e] w1]; run_method.
  2:{ exists (TempFileFailed e). eexists. split; [reflexivity|]. simpl.
      rewrite !app_nil_r. split_and!; done. }
  destruct (append_spec n h (scripts fr) [tf] Hscr Hn Habove)
    as (Hok' & Hel' & Hag & Hlen & Hab').
  destruct (append (scripts fr) [tf] h) as [s' h']. run_method.
  cbn [fst snd] in Hok', Hel', Hag, Hlen, Hab'.
  destruct (bufio_WriteString sys tf _ w1) as [r0 w2]. run_method.
  assert (Hinl' : slice_ok h' (Inline c) = true)
    by (by rewrite (slice_ok_agree n h h')).
  assert (Hel : elems h' (Inline c) = elems h (Inline c))
    by (by apply (elems_agree n)).
  match goal with
  | |- context [for_range ?s ?b ?st0] =>
      destruct (Shell_write_loop_spec tf (elems h (Inline c)) st0)
        as (st1 & (Hh & Hc & Hf & Hd) & Hloop);
      erewrite (for_range_for_each s b) by (done || (intros; reflexivity)
                  || (intros v [? ? ? ? ? ?]; run_method;
                      by destruct (bufio_WriteString sys tf _ _) as [[?|] ?]))
  end.
  cbn [heap] in *. rewrite Hel.
  destruct st1 as [h1 c1 f1 d1 w3 tr1]. cbn [heap config frame defers trace] in *.
  subst h1 c1 f1 d1.
  destruct Hloop as [[Hrun Htr]|(written & cmd & e & Hpre & Hrun & Htr)];
    run_method_in Hrun; rewrite Hrun; run_method.
  2:{ exists (WriteFailed tf r0 written cmd e). eexists. split; [reflexivity|].
      simpl. rewrite Htr, <- !app_assoc. split_and!; try done. }
  destruct (bufio_Flush sys tf w3) as [[e|] w4]; run_method.
  - exists (FlushFailed tf r0 e). eexists. split; [reflexivity|].
    simpl. rewrite Htr, <- !app_assoc. split_and!; try done.
  - exists (Prepared tf r0). eexists. split; [reflexivity|].
    simpl. rewrite Htr, <- !app_assoc. split_and!; try done.
Qed.

(** Lines 148-151: [envVars] holds the two derived variables, then the
    entries of [p.cfg.Vars]. *)
Lemma Shell_build_envVars_spec st :
  slice_ok (heap st) (Vars (cfg (frame st))) = true →
  ∃ st',
    build_envVars (A:=A) st = (Next (), st')
    ∧ cfg (frame st') = cfg (frame st)
    ∧ scripts (locals (frame st')) = scripts (locals (frame st))
    ∧ trace st' = trace st
    ∧ defers st' = defers st
    ∧ agree (length (heap st)) (heap st) (heap st')
    ∧ length (heap st) ≤ length (heap st')
    ∧ slice_ok (heap st') (envVars (locals (frame st'))) = true
    ∧ elems (heap st') (envVars (locals (frame st')))
      = explicit_env (cfg (frame st)) (elems (heap st) (Vars (cfg (frame st)))).
Proof.
  destruct st as [h c0 [c fr] ds w tr]. cbn [heap config frame defers trace cfg locals].
  intros Hvars. pose proof (slice_ok_below _ _ Hvars) as Hbelow.
  pose proof (length_elems _ _ Hvars) as Hlen.
  unfold build_envVars, make, alloc, index_assign, slice_from. run_method.
  replace (s_len (Vars c) + 2) with (S (S (s_len (Vars c)))) by lia.
  set (k := s_len (Vars c)) in *.
  set (e := Slice (Some (length h)) 0 (S (S k)) (S (S k))).
  set (h1 := h ++ [replicate (S (S k)) ""]).
  assert (Hok1 : slice_ok h1 e = true)
    by (apply slice_ok_fresh; [done|by rewrite length_replicate]).
  assert (Hel1 : elems h1 e = replicate (S (S k)) "")
    by (unfold h1, e; rewrite elems_fresh, take_ge; [done|by rewrite length_replicate]).
  destruct (store_elems h1 e 0 ("PACKER_BUILD_NAME=" +:+ PackerBuildName c)
              Hok1 ltac:(simpl; lia)) as (h2 & -> & Hel2 & Hlen2 & Hoks2 & Hag2).
  run_method.
  assert (Hok2 : slice_ok h2 e = true) by (by rewrite Hoks2).
  destruct (store_elems h2 e 1 ("PACKER_BUILDER_TYPE=" +:+ PackerBuilderType c)
              Hok2 ltac:(simpl; lia)) as (h3 & -> & Hel3 & Hlen3 & Hoks3 & Hag3).
  run_method.
  assert (Hok3 : slice_ok h3 e = true) by (by rewrite Hoks3).
  assert (Hag : agree (length h) h h3).
  { apply (agree_trans _ _ h1); [by apply agree_alloc|].
    apply (agree_trans _ _ h2); [by apply (Hag2 _ (length h))|by apply (Hag3 _ (length h))]. }
  assert (Hv3 : slice_ok h3 (Vars c) = true)
    by (by rewrite (slice_ok_agree (length h) h h3)).
  set (dst := Slice (Some (length h)) (0 + 2) (S (S k) - 2) (S (S k) - 2)).
  assert (Hre : reslice_from e 2 = Some dst) by done.
  assert (Hokd : slice_ok h3 dst = true) by (by apply (slice_ok_reslice h3 e 2)).
  pose proof (elems_copy h3 dst (Vars c) Hokd Hv3) as Hcp.
  pose proof (elems_copy_behind h3 e 2 dst (Vars c) Hok3 Hre) as Hbh.
  pose proof (length_elems _ _ Hokd) as Hlend.
  pose proof (length_copy h3 dst (Vars c)) as Hlc.
  pose proof (agree_copy (length h) h3 dst (Vars c)) as Hagc.
  pose proof (slice_ok_copy h3 dst (Vars c) e Hokd Hv3) as Hokc.
  rewrite Hre. run_method.
  destruct (copy dst (Vars c) h3) as [m h4]. cbn [fst snd] in *.
  eexists. split; [reflexivity|].
  cbn [heap config frame defers trace scripts envVars cfg locals].
  split_and!; try done.
  - apply (agree_trans _ _ h3); [done|]. apply Hagc. by intros l [= <-].
  - rewrite Hlc, Hlen3, Hlen2. unfold h1. rewrite length_app. lia.
  - by rewrite Hokc.
  - rewrite (elems_reslice h4 e 2 dst Hre), Hbh, Hcp, Hel3, Hel2, Hel1.
    rewrite (elems_agree (length h) h h3) by done.
    replace (s_len dst) with k in * by (simpl; lia). fold k.
    rewrite Nat.min_id, (take_ge (elems h (Vars c))), drop_ge, app_nil_r by lia.
    done.
Qed.

End Prep.


(* ===================================================================== *)
(** ** [ShellPostProcessor.PostProcess] as a whole                        *)
(* ===================================================================== *)

Section Spec.
Context {W Raw : Type} (sys : @Sys W Raw) {A : Type} `{Artifact A}.

Lemma Shell_run_defers_frame {F} (ds : list deferred) (st : @state W F) :
  frame (run_defers sys ds st) = frame st.
Proof.
  revert st. induction ds as [|d ds IH]; intros st; [done|].
  simpl. rewrite IH. by destruct d.
Qed.

Lemma Shell_cfg_ok_inv h c :
  cfg_ok h c = true →
  slice_ok h (Inline c) = true ∧ slice_ok h (Scripts c) = true
  ∧ slice_ok h (Vars c) = true.
Proof. unfold cfg_ok. intros [[H1 H2]%andb_prop H3]%andb_prop. done. Qed.

(** Every run of the body of [PostProcess] on a well-formed
    configuration: a preparation [p], then the loops as [lg] says. *)
Lemma Shell_PostProcess_body_spec (ui : @Ui W) (artifact : A)
    (st : @state W (Method PostProcessLocals)) :
  cfg_ok (heap st) (cfg (frame st)) = true →
  ∃ p lg st',
    PostProcess_body sys ui artifact st = (Return (final_result artifact p lg), st')
    ∧ cfg (frame st') = cfg (frame st)
    ∧ agree (length (heap st)) (heap st) (heap st')
    ∧ trace st'
      = trace st
        ++ prep_events (InlineShebang (cfg (frame st)))
             (elems (heap st) (Inline (cfg (frame st)))) p
        ++ log_events (explicit_env (cfg (frame st))
                         (elems (heap st) (Vars (cfg (frame st))))) lg
    ∧ defers st'
      = map DeferClose (reverse (log_opened lg)) ++ map DeferRemove (prep_temp p)
        ++ defers st
    ∧ elems (heap st') (scripts (locals (frame st')))
      = elems (heap st) (Scripts (cfg (frame st))) ++ prep_temp p
    ∧ prep_ok (elems (heap st) (Inline (cfg (frame st)))) p
    ∧ (p = NoInline ↔ is_nil (Inline (cfg (frame st))) = true)
    ∧ log_ok lg
    ∧ (prep_error p ≠ None → lg = empty_log)
    ∧ log_pairs lg
        `prefix_of` cross (Files artifact)
                          (elems (heap st) (Scripts (cfg (frame st))) ++ prep_temp p)
    ∧ (prep_error p = None → fin lg = Completed →
       log_pairs lg = cross (Files artifact)
                            (elems (heap st) (Scripts (cfg (frame st))) ++ prep_temp p)).
Proof.
  destruct st as [h c0 [c fr] ds w tr]. cbn [heap config trace defers frame cfg locals].
  intros (Hinl & Hscr & Hvars)%Shell_cfg_ok_inv.
  pose proof (slice_ok_below _ _ Hinl) as Bi.
  pose proof (slice_ok_below _ _ Hscr) as Bs.
  pose proof (slice_ok_below _ _ Hvars) as Bv.
  pose proof (length_elems _ _ Hscr) as Ls.
  unfold PostProcess_body, make, alloc. run_method.
  (* scripts := make(...); copy(scripts, p.cfg.Scripts) *)
  set (k := s_len (Scripts c)) in *.
  set (s0 := Slice (Some (length h)) 0 k k).
  set (h1 := h ++ [replicate k ""]).
  assert (Hok0 : slice_ok h1 s0 = true)
    by (apply slice_ok_fresh; [done|by rewrite length_replicate]).
  assert (Hag1 : agree (length h) h h1) by (by apply agree_alloc).
  assert (Hscr1 : slice_ok h1 (Scripts c) = true)
    by (by rewrite (slice_ok_agree (length h) h h1)).
  pose proof (elems_copy h1 s0 (Scripts c) Hok0 Hscr1) as Hcp.
  pose proof (agree_copy (length h) h1 s0 (Scripts c)) as Hagc.
  pose proof (slice_ok_copy h1 s0 (Scripts c) s0 Hok0 Hscr1) as Hokc.
  pose proof (length_copy h1 s0 (Scripts c)) as Hlc.
  destruct (copy s0 (Scripts c) h1) as [m h2]. cbn [fst snd] in *. run_method.
  assert (Hag2 : agree (length h) h h2).
  { apply (agree_trans _ _ h1); [done|]. apply Hagc. by intros l [= <-]. }
  assert (Hel2 : elems h2 s0 = elems h (Scripts c)).
  { rewrite Hcp, (elems_agree (length h) h h1) by done.
    replace (s_len s0) with k by done.
    rewrite Nat.min_id, take_ge, drop_ge, app_nil_r; [done| |lia].
    unfold h1, s0. rewrite elems_fresh, length_take, length_replicate. lia. }
  assert (Hlen2 : length h ≤ length h2)
    by (rewrite Hlc; unfold h1; rewrite length_app; lia).
  (* the inline script *)
  match goal with
  | |- context [inline_script sys ?st0] =>
      destruct (Shell_inline_script_spec sys (A:=A) (length h) st0)
        as (p & st3 & Hrun3 & Hc3 & Htr3 & Hd3 & Hpok & Hnil & Hok3 & Hel3 & Hag3 & Hlen3)
  end; cbn [heap config frame scripts cfg locals]; try done.
  { by rewrite (slice_ok_agree (length h) h h2). }
  { by rewrite Hokc. }
  { by intros l [= <-]. }
  cbn [heap config frame scripts trace defers cfg locals] in *.
  rewrite Hrun3. rewrite (elems_agree (length h) h h2) in Htr3, Hpok by done.
  rewrite Hel2 in Hel3.
  destruct (prep_error p) as [e|] eqn:Hperr; cbn [outcome_of]; run_method.
  { exists p, empty_log, st3. split.
    { unfold final_result. rewrite Hperr. reflexivity. }
    rewrite Hd3, Htr3. unfold log_events. simpl. rewrite !app_nil_r.
    split_and!; try done; try apply prefix_nil; try congruence.
    by apply (agree_trans _ _ h2). }
  (* envVars *)
  destruct (Shell_build_envVars_spec (A:=A) st3)
    as (st4 & Hrun4 & Hc4 & Hs4 & Htr4 & Hd4 & Hag4 & Hlen4 & Hok4 & Hel4).
  { rewrite Hc3. rewrite (slice_ok_agree (length h) h (heap st3)); [done..|].
    by apply (agree_trans _ _ h2). }
  rewrite Hrun4. run_method.
  assert (Hag04 : agree (length h) h (heap st4)).
  { apply (agree_trans _ _ (heap st3)); [by apply (agree_trans _ _ h2)|].
    intros l Hl. apply Hag4. lia. }
  (* the loops *)
  assert (Hoks4 : slice_ok (heap st4) (scripts (locals (frame st4))) = true).
  { rewrite Hs4. by rewrite (slice_ok_agree _ _ _ _ (slice_ok_below _ _ Hok3) Hag4). }
  assert (Hels4 : elems (heap st4) (scripts (locals (frame st4)))
                  = elems h (Scripts c) ++ prep_temp p).
  { rewrite Hs4, (elems_agree _ _ _ _ (slice_ok_below _ _ Hok3) Hag4).
    by rewrite Hel3. }
  match goal with
  | |- context [for_each (Files artifact) ?b st4] =>
      change (for_each (Files artifact) b st4)
        with (for_each (Files artifact)
                (λ art, l ← local_; for_range (scripts l) (run_script sys (A:=A) ui art))
                st4)
  end.
  rewrite (Shell_loops_for_pairs sys ui (Files artifact) st4 Hoks4), Hels4.
  destruct (Shell_for_pairs_spec sys (A:=A) ui
              (cross (Files artifact) (elems h (Scripts c) ++ prep_temp p)) st4)
    as (lg & st5 & Hrun5 & (Hh5 & Hc5 & Hs5 & He5) & Htr5 & Hd5 & Hlok & Hpre & Hall).
  rewrite Hrun5. rewrite Hel4, Hc3 in Htr5.
  rewrite (elems_agree (length h) h (heap st3)) in Htr5
    by (done || by apply (agree_trans _ _ h2)).
  exists p, lg, st5.
  assert (Hfacts : cfg (frame st5) = c ∧ agree (length h) h (heap st5)
            ∧ trace st5 = tr ++ prep_events (InlineShebang c) (elems h (Inline c)) p
                          ++ log_events (explicit_env c (elems h (Vars c))) lg
            ∧ defers st5 = map DeferClose (reverse (log_opened lg))
                           ++ map DeferRemove (prep_temp p) ++ ds
            ∧ elems (heap st5) (scripts (locals (frame st5)))
              = elems h (Scripts c) ++ prep_temp p).
  { rewrite Hh5, Hc5, Hs5, Hc4, Hc3, Htr5, Htr4, Htr3, Hd5, Hd4, Hd3, <- !app_assoc.
    done. }
  unfold log_outcome.
  destruct (ending_error (fin lg)) as [e|] eqn:Hend; cbn [outcome_of] in *.
  - split; [unfold final_result; by rewrite Hperr, Hend|].
    split_and!; try tauto; try done.
  - run_method. split; [unfold final_result; by rewrite Hperr, Hend|].
    split_and!; try tauto; try done.
Qed.

(** Every run of [PostProcess] on a well-formed configuration: the
    body, then the deferred calls. [p.cfg] is left as it was. *)
Lemma Shell_PostProcess_spec (ui : @Ui W) (artifact : A) (c : Config)
    (st : @state W ()) :
  cfg_ok (heap st) c = true →
  ∃ p lg st',
    PostProcess sys ui artifact c st = (Some (final_result artifact p lg), c, st')
    ∧ agree (length (heap st)) (heap st) (heap st')
    ∧ trace st'
      = trace st
        ++ prep_events (InlineShebang c) (elems (heap st) (Inline c)) p
        ++ log_events (explicit_env c (elems (heap st) (Vars c))) lg
        ++ cleanup_events lg p
    ∧ prep_ok (elems (heap st) (Inline c)) p
    ∧ (p = NoInline ↔ is_nil (Inline c) = true)
    ∧ log_ok lg
    ∧ (prep_error p ≠ None → lg = empty_log)
    ∧ log_pairs lg
        `prefix_of` cross (Files artifact) (elems (heap st) (Scripts c) ++ prep_temp p)
    ∧ (prep_error p = None → fin lg = Completed →
       log_pairs lg = cross (Files artifact) (elems (heap st) (Scripts c) ++ prep_temp p)).
Proof.
  intros Hok. unfold PostProcess, call_method.
  destruct (Shell_PostProcess_body_spec ui artifact
              (State (heap st) (config st) (Frame c zero_locals) [] (world st) (trace st))
              Hok)
    as (p & lg & st5 & -> & Hc & Hag & Htr & Hd & _ & Hrest).
  cbn [heap config trace defers frame cfg] in *. rewrite app_nil_r in Hd.
  exists p, lg. eexists. split.
  { rewrite Shell_run_defers_frame, Hc. reflexivity. }
  destruct (run_defers_spec sys (defers st5) st5) as (Hh' & Hc' & Ht').
  cbn [heap config trace]. rewrite Hh', Ht', Hd, cleanup_events_defers, Htr.
  rewrite <- !app_assoc. done.
Qed.

End Spec.


(* ===================================================================== *)
(** ** [ShellPostProcessor.Configure] as a whole                          *)
(* ===================================================================== *)

Section ConfigureSpec.
Context {W Raw : Type} (sys : @Sys W Raw)
        (Decode : list Raw → Config → Slices.heap → option string * (Config * Slices.heap)).
Implicit Types (st : @state W (Method ConfigureLocals)).

(** The loop over the script paths: one [os.Stat] per path, one error
    per failure. *)
Lemma Shell_stat_loop_spec (paths : list string) st :
  ∃ stats st',
    for_each paths (check_script sys 0) st = (Next (), st')
    ∧ map fst stats = paths
    ∧ heap st' = heap st ∧ cfg (frame st') = cfg (frame st) ∧ defers st' = defers st
    ∧ trace st' = trace st ++ stat_events stats
    ∧ errs_list (errs (locals (frame st')))
      = errs_list (errs (locals (frame st))) ++ script_errors stats.
Proof.
  revert st. induction paths as [|path paths IH]; intros st.
  - exists [], st. simpl. by rewrite !app_nil_r.
  - change (for_each (path :: paths) ?b) with (b path;; for_each paths b).
    rewrite bind_unfold. destruct st as [h c0 [c [er]] ds w tr].
    unfold check_script at 1, errs_append. run_method.
    destruct (os_Stat sys path w) as [[e|] w1] eqn:Hstat; run_method.
    + destruct (IH (State h c0 (Frame c {| errs := MultiErrorAppend er (script_error path e) |})
                       ds w1 (tr ++ [EvStat path (Some e)])))
        as (stats & st2 & Hrun & Hmap & Hh2 & Hc2 & Hd2 & Htr2 & Her2).
      exists ((path, Some e) :: stats), st2. split; [exact Hrun|].
      rewrite Hh2, Hc2, Hd2, Htr2, Her2. simpl.
      rewrite Hmap, <- !app_assoc. done.
    + destruct (IH (State h c0 (Frame c {| errs := er |}) ds w1 (tr ++ [EvStat path None])))
        as (stats & st2 & Hrun & Hmap & Hh2 & Hc2 & Hd2 & Htr2 & Her2).
      exists ((path, None) :: stats), st2. split; [exact Hrun|].
      rewrite Hh2, Hc2, Hd2, Htr2, Her2. simpl.
      rewrite Hmap, <- !app_assoc. done.
Qed.

(** The loop over the entries of [environment_vars]: they are checked,
    and nothing else happens. *)
Lemma Shell_vars_loop_spec (vars : list string) st :
  ∃ st',
    for_each vars (check_var (W:=W) 0) st = (Next (), st')
    ∧ heap st' = heap st ∧ cfg (frame st') = cfg (frame st) ∧ defers st' = defers st
    ∧ trace st' = trace st
    ∧ errs_list (errs (locals (frame st')))
      = errs_list (errs (locals (frame st))) ++ var_errors vars.
Proof.
  revert st. induction vars as [|kv vars IH]; intros st.
  - exists st. simpl. by rewrite !app_nil_r.
  - change (for_each (kv :: vars) ?b) with (b kv;; for_each vars b).
    rewrite bind_unfold. destruct st as [h c0 [c [er]] ds w tr].
    assert (Hstep : ∃ er', check_var (W:=W) 0 kv (State h c0 (Frame c {| errs := er |}) ds w tr)
                           = (Next (), State h c0 (Frame c {| errs := er' |}) ds w tr)
                           ∧ errs_list er'
                             = errs_list er ++ (if var_ok kv then [] else [var_error kv])).
    { unfold check_var, var_ok, errs_append.
      destruct (Strings.SplitN kv "=" 2) as [|k [|v [|? ?]]];
        try (eexists; split; [reflexivity|done]).
      destruct (String.eqb k ""); simpl.
      - eexists; split; [reflexivity|done].
      - exists er. split; [reflexivity|]. by rewrite app_nil_r. }
    destruct Hstep as (er' & -> & Her').
    destruct (IH (State h c0 (Frame c {| errs := er' |}) ds w tr))
      as (st2 & Hrun & Hh2 & Hc2 & Hd2 & Htr2 & Her2).
    exists st2. split; [exact Hrun|].
    rewrite Hh2, Hc2, Hd2, Htr2, Her2. cbn [heap frame cfg locals defers trace errs].
    rewrite Her'. split_and!; try done. unfold var_errors.
    change ((kv :: vars) ≫= ?f) with (f kv ++ (vars ≫= f)).
    by rewrite <- app_assoc.
Qed.

Lemma Shell_p_cfg_eq {L R} (st : @state W (Method L)) :
  (p_cfg : @M W (Method L) R Config) st = (Next (cfg (frame st)), st).
Proof. done. Qed.

Lemma Shell_when_assign_cfg {L R} (b : bool) f (st : @state W (Method L)) :
  when b (assign_cfg f : @M W (Method L) R ()) st
  = (Next (), State (heap st) (config st)
                    (Frame (if b then f (cfg (frame st)) else cfg (frame st))
                           (locals (frame st)))
                    (defers st) (world st) (trace st)).
Proof. destruct b, st as [? ? [? ?] ? ? ?]; done. Qed.

Lemma Shell_when_alloc {L R} (b : bool) (vs : list string) setf (st : @state W (Method L)) :
  when b (s ← on_heap (literal vs); (assign_cfg (setf s) : @M W (Method L) R ())) st
  = (Next (),
     if b then State (heap st ++ [vs]) (config st)
                     (Frame (setf (Slice (Some (length (heap st))) 0 (length vs) (length vs))
                                  (cfg (frame st)))
                            (locals (frame st)))
                     (defers st) (world st) (trace st)
     else st).
Proof. destruct b, st as [? ? [? ?] ? ? ?]; done. Qed.

Lemma Shell_when_errs_append (b : bool) e st :
  when b (errs_append e) st
  = (Next (), State (heap st) (config st)
                    (Frame (cfg (frame st))
                           {| errs := if b then MultiErrorAppend (errs (locals (frame st))) e
                                      else errs (locals (frame st)) |})
                    (defers st) (world st) (trace st)).
Proof. destruct b, st as [? ? [? [?]] ? ? ?]; done. Qed.

Lemma Shell_errors_result_errs (o : option (list string)) st :
  (match o with
   | Some (e :: es) => return_ (Some (MultiError (e :: es)))
   | _ => return_ None
   end : @M W (Method ConfigureLocals) (option error) ()) st
  = (Return (errors_result (errs_list o)), st).
Proof. by destruct o as [[|e es]|]. Qed.

Lemma Shell_cfg_ok_intro h c :
  slice_ok h (Inline c) = true → slice_ok h (Scripts c) = true →
  slice_ok h (Vars c) = true → cfg_ok h c = true.
Proof. intros H1 H2 H3. unfold cfg_ok. by rewrite H1, H2, H3. Qed.

Lemma Shell_tracks_refl h c : cfg_ok h c = true → tracks h c h c.
Proof. intros Hok. unfold tracks. split_and!; try done. Qed.

Lemma Shell_tracks_set_InlineShebang h1 c1 h c v :
  tracks h1 c1 h c → tracks h1 c1 h (set_InlineShebang v c).
Proof. intros (Hag & Hlen & Hok & Hrest). unfold tracks. tauto. Qed.

Lemma Shell_tracks_set_TargetPath h1 c1 h c v :
  tracks h1 c1 h c → tracks h1 c1 h (set_TargetPath v c).
Proof. intros (Hag & Hlen & Hok & Hrest). unfold tracks. tauto. Qed.

Lemma Shell_tracks_alloc h1 c1 h c vs :
  tracks h1 c1 h c →
  let s := Slice (Some (length h)) 0 (length vs) (length vs) in
  tracks h1 c1 (h ++ [vs]) (set_Scripts s c)
  ∧ (is_nil (Vars c) = true → vs = [] → tracks h1 c1 (h ++ [vs]) (set_Vars s c)).
Proof.
  intros (Hag & Hlen & (Hi & Hs & Hv)%Shell_cfg_ok_inv & HS & HI & HV & Hrest) s.
  assert (Hag' : agree (length h) h (h ++ [vs])) by (by apply agree_alloc).
  assert (Hag1 : agree (length h1) h1 (h ++ [vs])).
  { apply (agree_trans _ _ h); [done|]. intros l Hl. apply Hag'. lia. }
  assert (Hfresh : slice_ok (h ++ [vs]) s = true) by (by apply slice_ok_fresh).
  assert (Hkeep : ∀ s', slice_ok h s' = true → slice_ok (h ++ [vs]) s' = true
                        ∧ elems (h ++ [vs]) s' = elems h s').
  { intros s' Hok'. pose proof (slice_ok_below _ _ Hok') as Hb.
    by rewrite (slice_ok_agree _ _ _ _ Hb Hag'), (elems_agree _ _ _ _ Hb Hag'). }
  destruct (Hkeep _ Hi) as [Hi' _]. destruct (Hkeep _ Hs) as [Hs' _].
  destruct (Hkeep _ Hv) as [Hv' Hev].
  unfold tracks. rewrite length_app. simpl. split.
  - split_and!; try tauto; try lia; [by apply Shell_cfg_ok_intro|by rewrite Hev].
  - intros Hnil ->. split_and!; try tauto; try lia; [by apply Shell_cfg_ok_intro|].
    rewrite <- HV. change (Vars (set_Vars s c)) with s. unfold s.
    rewrite elems_fresh. simpl.
    unfold elems, is_nil in *. by destruct (s_arr (Vars c)).
Qed.

(** Every run of [Configure] whose decoding succeeds. *)
Lemma Shell_Configure_spec raws (c : Config) (u : @state W ()) c1 h1 :
  Decode raws c (heap u) = (None, (c1, h1)) →
  cfg_ok h1 c1 = true →
  ∃ stats c' u',
    Configure sys Decode raws c u
    = (Some (errors_result (validation_errors h1 c1 stats)), c', u')
    ∧ map fst stats = resolved_scripts h1 c1
    ∧ trace u' = trace u ++ stat_events stats
    ∧ tracks h1 c1 (heap u') c'
    ∧ InlineShebang c'
      = (if String.eqb (InlineShebang c1) "" then "/bin/sh" else InlineShebang c1)
    ∧ TargetPath c'
      = (if String.eqb (TargetPath c1) "" then "packer_{{ .BuildName }}_{{.Provider}}"
         else TargetPath c1)
    ∧ elems (heap u') (Scripts c') = resolved_scripts h1 c1.
Proof.
  destruct u as [h c0 [] ds w tr]. cbn [heap config trace].
  intros Hdec Hok1.
  pose proof (Shell_tracks_refl h1 c1 Hok1) as T1.
  unfold Configure, call_method, Configure_body.
  rewrite bind_unfold. unfold decode at 1. cbn [heap config frame defers world trace cfg locals].
  rewrite Hdec. rewrite bind_unfold. unfold skip at 1.
  change ((mret () : @M W (Method ConfigureLocals) (option error) ()) ?s)
    with (@Next (option error) _ (), s).
  cbv beta iota.
  (* errs := new(packer.MultiError) *)
  rewrite bind_unfold. unfold assign_local at 1, assign at 1.
  cbn [heap config frame defers world trace cfg locals]. cbv beta iota.
  (* the default shebang *)
  rewrite bind_unfold, Shell_p_cfg_eq; cbv beta iota.
  rewrite bind_unfold, Shell_when_assign_cfg; cbv beta iota.
  cbn [heap config frame defers world trace cfg locals].
  set (c3 := if String.eqb (InlineShebang c1) ""
             then set_InlineShebang "/bin/sh" c1 else c1).
  assert (T3 : tracks h1 c1 h1 c3 ∧ Scripts c3 = Scripts c1
               ∧ TargetPath c3 = TargetPath c1
               ∧ InlineShebang c3
                 = (if String.eqb (InlineShebang c1) "" then "/bin/sh"
                    else InlineShebang c1)).
  { unfold c3. destruct (String.eqb (InlineShebang c1) ""); simpl;
      split_and!; try done; by apply Shell_tracks_set_InlineShebang. }
  clearbody c3. destruct T3 as (T3 & S3 & P3 & B3).
  pose proof Hok1 as (Hinl & Hscr & Hvars)%Shell_cfg_ok_inv.
  (* Scripts and Vars are made non-nil *)
  rewrite bind_unfold, Shell_p_cfg_eq; cbv beta iota.
  change (make 0) with (literal []).
  rewrite bind_unfold, Shell_when_alloc; cbv beta iota.
  cbn [heap config frame defers world trace length cfg locals].
  match goal with
  | |- context [if is_nil (Scripts c3) then ?s1 else ?s2] =>
      assert (∃ h4 c4, (if is_nil (Scripts c3) then s1 else s2)
                       = State h4 c0 (Frame c4 {| errs := Some [] |}) [] w tr
                ∧ tracks h1 c1 h4 c4
                ∧ InlineShebang c4 = InlineShebang c3
                ∧ TargetPath c4 = TargetPath c3
                ∧ s_len (Scripts c4) = s_len (Scripts c1)
                ∧ elems h4 (Scripts c4) = elems h1 (Scripts c1))
        as (h4 & c4 & -> & T4 & B4 & P4 & L4 & E4)
  end.
  { destruct (is_nil (Scripts c3)) eqn:Hn.
    - do 2 eexists. split; [reflexivity|].
      destruct (Shell_tracks_alloc h1 c1 h1 c3 [] T3) as [T _].
      split_and!; try done; unfold is_nil in Hn; rewrite S3 in Hn.
      + apply slice_ok_inv in Hscr. destruct (s_arr (Scripts c1)); [done|].
        simpl. symmetry. apply Hscr.
      + simpl. rewrite elems_fresh. unfold elems.
        by destruct (s_arr (Scripts c1)).
    - do 2 eexists. split; [reflexivity|]. rewrite S3. done. }
  rewrite <- B4 in B3. rewrite <- P4 in P3. clear c3 T3 S3 B4 P4.
  rewrite bind_unfold, Shell_p_cfg_eq; cbv beta iota.
  rewrite bind_unfold, Shell_when_alloc; cbv beta iota.
  cbn [heap config frame defers world trace length cfg locals].
  match goal with
  | |- context [if is_nil (Vars c4) then ?s1 else ?s2] =>
      assert (∃ h5 c5, (if is_nil (Vars c4) then s1 else s2)
                       = State h5 c0 (Frame c5 {| errs := Some [] |}) [] w tr
                ∧ tracks h1 c1 h5 c5
                ∧ InlineShebang c5 = InlineShebang c4
                ∧ TargetPath c5 = TargetPath c4
                ∧ s_len (Scripts c5) = s_len (Scripts c1)
                ∧ elems h5 (Scripts c5) = elems h1 (Scripts c1))
        as (h5 & c5 & -> & T5 & B5 & P5 & L5 & E5)
  end.
  { destruct (is_nil (Vars c4)) eqn:Hn.
    - do 2 eexists. split; [reflexivity|].
      destruct (Shell_tracks_alloc h1 c1 h4 c4 [] T4) as [_ T].
      split_and!; try done; [by apply T|].
      destruct T4 as (_ & _ & (_ & Hs4 & _)%Shell_cfg_ok_inv & _).
      simpl. rewrite <- E4.
      apply (elems_agree (length h4)); [by apply slice_ok_below|by apply agree_alloc].
    - do 2 eexists. split; [reflexivity|]. done. }
  rewrite <- B5 in B3. rewrite <- P5 in P3. clear h4 c4 T4 L4 E4 B5 P5.
  (* script and scripts together *)
  pose proof T5 as (_ & _ & _ & HS5 & _).
  rewrite bind_unfold, Shell_p_cfg_eq; cbv beta iota.
  rewrite bind_unfold, Shell_when_errs_append; cbv beta iota.
  cbn [heap config frame defers world trace errs cfg locals]. rewrite HS5, L5.
  match goal with
  | |- context [State h5 c0 (Frame c5 {| errs := ?e |}) _ _ _] => set (e6 := e)
  end.
  assert (R6 : errs_list e6 = field_errors c1).
  { unfold e6, field_errors.
    by destruct (negb (String.eqb (Script c1) "") && (0 <? s_len (Scripts c1))). }
  clearbody e6.
  (* the single script becomes the sequence *)
  rewrite bind_unfold, Shell_p_cfg_eq; cbv beta iota.
  rewrite bind_unfold, Shell_when_alloc; cbv beta iota.
  cbn [heap config frame defers world trace length cfg locals]. rewrite HS5.
  match goal with
  | |- context [if negb (String.eqb (Script c1) "") then ?s1 else ?s2] =>
      assert (∃ h7 c7, (if negb (String.eqb (Script c1) "") then s1 else s2)
                       = State h7 c0 (Frame c7 {| errs := e6 |}) [] w tr
                ∧ tracks h1 c1 h7 c7
                ∧ InlineShebang c7 = InlineShebang c5
                ∧ TargetPath c7 = TargetPath c5
                ∧ elems h7 (Scripts c7) = resolved_scripts h1 c1)
        as (h7 & c7 & -> & T7 & B7 & P7 & E7)
  end.
  { unfold resolved_scripts. destruct (String.eqb (Script c1) "") eqn:Hn; simpl.
    - do 2 eexists. split; [reflexivity|]. done.
    - do 2 eexists. split; [reflexivity|].
      destruct (Shell_tracks_alloc h1 c1 h5 c5 [Script c1] T5) as [T _].
      split_and!; try done. simpl. by rewrite elems_fresh. }
  rewrite <- B7 in B3. rewrite <- P7 in P3. clear h5 c5 T5 L5 E5 HS5 B7 P7.
  (* the default target *)
  rewrite bind_unfold, Shell_p_cfg_eq; cbv beta iota.
  rewrite bind_unfold, Shell_when_assign_cfg; cbv beta iota.
  cbn [heap config frame defers world trace cfg locals].
  set (c8 := if String.eqb (TargetPath c7) ""
             then set_TargetPath "packer_{{ .BuildName }}_{{.Provider}}" c7 else c7).
  assert (T8 : tracks h1 c1 h7 c8 ∧ Scripts c8 = Scripts c7
               ∧ InlineShebang c8 = InlineShebang c7
               ∧ TargetPath c8
                 = (if String.eqb (TargetPath c1) ""
                    then "packer_{{ .BuildName }}_{{.Provider}}" else TargetPath c1)).
  { unfold c8. rewrite P3. destruct (String.eqb (TargetPath c1) ""); simpl;
      split_and!; try done; by apply Shell_tracks_set_TargetPath. }
  clearbody c8. destruct T8 as (T8 & S8 & B8 & P8).
  rewrite <- S8 in E7. rewrite <- B8 in B3. clear c7 T7 P3 S8 B8.
  pose proof T8 as (_ & _ & (Hi8 & Hs8 & Hv8)%Shell_cfg_ok_inv & _ & I8 & V8 & _).
  pose proof (length_elems _ _ Hs8) as L8. rewrite E7 in L8.
  (* neither, or both *)
  rewrite bind_unfold, Shell_p_cfg_eq; cbv beta iota.
  rewrite bind_unfold. cbn [heap config frame defers world trace cfg locals].
  match goal with
  | |- context [(if ?a then ?m1 else ?m2) ?s0] =>
      assert (∃ e9, (if a then m1 else m2) s0
                    = (Next (), State h7 c0 (Frame c8 {| errs := e9 |}) [] w tr)
                ∧ errs_list e9
                  = errs_list e6 ++ kind_errors (resolved_scripts h1 c1) (inline_present c1))
        as (e9 & -> & R9)
  end.
  { unfold inline_present. rewrite I8, <- L8.
    destruct (resolved_scripts h1 c1) as [|x xs];
      destruct (is_nil (Inline c1)); simpl; eexists; (split; [reflexivity|]);
      simpl; rewrite ?app_nil_r; done. }
  cbv beta iota.
  (* the scripts exist *)
  rewrite bind_unfold, Shell_p_cfg_eq; cbv beta iota.
  rewrite bind_unfold. cbn [heap config frame defers world trace cfg locals].
  rewrite (for_range_for_each _ _ (check_script sys 0)); [|done| |done].
  2:{ intros v st'. destruct (Shell_stat_loop_spec [v] st') as (? & st2 & Hrun & _ & Hh & _).
      revert Hrun.
      change (for_each [v] ?b)
        with (b v;; (skip : @M W (Method ConfigureLocals) (option error) ())).
      rewrite bind_unfold. destruct (check_script sys 0 v st') as [[[]| |] st3]; try done.
      intros [= <-]. done. }
  cbn [heap]. rewrite E7.
  match goal with
  | |- context [for_each _ _ ?s0] =>
      destruct (Shell_stat_loop_spec (resolved_scripts h1 c1) s0)
        as (stats & st10 & -> & Hmap & Hh10 & Hc10 & Hd10 & Htr10 & R10)
  end.
  cbn [heap config frame defers world trace errs cfg locals] in *. cbv beta iota.
  (* the environment variables *)
  rewrite bind_unfold, Shell_p_cfg_eq; cbv beta iota.
  rewrite bind_unfold.
  rewrite (for_range_for_each _ _ (check_var 0)); [|done| |by rewrite Hh10, Hc10].
  2:{ intros v st'. destruct (Shell_vars_loop_spec [v] st') as (st2 & Hrun & Hh & _).
      revert Hrun.
      change (for_each [v] ?b)
        with (b v;; (skip : @M W (Method ConfigureLocals) (option error) ())).
      rewrite bind_unfold. destruct (check_var 0 v st') as [[[]| |] st3]; try done.
      intros [= <-]. done. }
  rewrite Hh10, Hc10, V8.
  destruct (Shell_vars_loop_spec (elems h1 (Vars c1)) st10)
    as (st11 & -> & Hh11 & Hc11 & Hd11 & Htr11 & R11).
  cbv beta iota.
  rewrite bind_unfold. unfold local_ at 1. cbv beta iota.
  rewrite Shell_errors_result_errs.
  exists stats. do 2 eexists. split.
  { rewrite Hd11, Hd10. cbn [run_defers]. rewrite R11, R10, R9, R6.
    unfold validation_errors. rewrite <- !app_assoc. reflexivity. }
  cbn [run_defers heap config trace frame].
  rewrite Hc11, Hc10, Hh11, Hh10, Htr11, Htr10.
  split_and!; done.
Qed.

End ConfigureSpec.


(* ===================================================================== *)
(** ** [ShellPostProcessor]: what its methods guarantee                   *)
(* ===================================================================== *)

Section Traces.

Lemma Shell_log_events_Forall (P : event → Prop) env lg :
  (∀ m, P (EvSay m)) → (∀ m, P (EvLog m)) → (∀ f r, P (EvOpen f r)) →
  (∀ m, P (EvMessage m)) →
  (∀ i, i ∈ done_passes lg ∨ fin lg = RunFailed i →
        P (EvRun "/bin/sh" [i_path i; i_art i] env (i_res i))) →
  Forall P (log_events env lg).
Proof.
  intros Hs Hl Ho Hm Hr. unfold log_events. apply Forall_app. split.
  - apply Forall_forall. intros ev (i & Hev & Hi)%list_elem_of_bind.
    revert ev Hev. apply Forall_forall. unfold success_events, invocation_events.
    simpl. repeat (apply Forall_cons; split; [done || (apply Hr; by left)|]).
    apply Forall_nil_2.
  - destruct (fin lg) as [|art path e|i] eqn:Hfin; simpl.
    + apply Forall_nil_2.
    + unfold open_failure_events. repeat (apply Forall_cons; split; [done|]).
      apply Forall_nil_2.
    + unfold invocation_events.
      repeat (apply Forall_cons; split; [done || (apply Hr; by right)|]).
      apply Forall_nil_2.
Qed.

Lemma Shell_runs_log env lg : runs (log_events env lg) = map sh_argv (log_ran lg).
Proof.
  unfold runs, log_events, log_ran. rewrite bind_app, map_app. f_equal.
  - induction (done_passes lg) as [|i l IH]; [done|].
    change ((i :: l) ≫= success_events env)
      with (success_events env i ++ (l ≫= success_events env)).
    rewrite bind_app, IH. done.
  - by destruct (fin lg).
Qed.

Lemma Shell_run_envs_log env lg :
  run_envs (log_events env lg) = replicate (length (log_ran lg)) env.
Proof.
  unfold run_envs, log_events, log_ran.
  rewrite bind_app, length_app, replicate_add. f_equal.
  - induction (done_passes lg) as [|i l IH]; [done|].
    change ((i :: l) ≫= success_events env)
      with (success_events env i ++ (l ≫= success_events env)).
    rewrite bind_app, IH. done.
  - by destruct (fin lg).
Qed.

Lemma Shell_runs_shape shebang inline p env lg :
  runs (prep_events shebang inline p ++ log_events env lg ++ cleanup_events lg p)
  = map sh_argv (log_ran lg).
Proof.
  unfold runs. rewrite !bind_app. fold (runs (log_events env lg)).
  rewrite Shell_runs_log.
  rewrite (bind_nil_Forall _ (prep_events _ _ _)) by (by apply prep_events_Forall).
  rewrite (bind_nil_Forall _ (cleanup_events _ _)) by (by apply cleanup_events_Forall).
  by rewrite app_nil_r.
Qed.

Lemma Shell_run_envs_shape shebang inline p env lg :
  run_envs (prep_events shebang inline p ++ log_events env lg ++ cleanup_events lg p)
  = replicate (length (log_ran lg)) env.
Proof.
  unfold run_envs. rewrite !bind_app. fold (run_envs (log_events env lg)).
  rewrite Shell_run_envs_log.
  rewrite (bind_nil_Forall _ (prep_events _ _ _)) by (by apply prep_events_Forall).
  rewrite (bind_nil_Forall _ (cleanup_events _ _)) by (by apply cleanup_events_Forall).
  by rewrite app_nil_r.
Qed.

Lemma Shell_temp_files_shape shebang inline p env lg :
  temp_files (prep_events shebang inline p ++ log_events env lg ++ cleanup_events lg p)
  = prep_temp p.
Proof.
  unfold temp_files. rewrite !bind_app. fold (temp_files (prep_events shebang inline p)).
  rewrite temp_files_prep.
  rewrite (bind_nil_Forall _ (log_events _ _)) by (by apply Shell_log_events_Forall).
  rewrite (bind_nil_Forall _ (cleanup_events _ _)) by (by apply cleanup_events_Forall).
  by rewrite app_nil_r.
Qed.

Lemma Shell_final_result_ok {A} (artifact : A) p lg a k :
  final_result artifact p lg = (a, k, None) →
  prep_error p = None ∧ fin lg = Completed ∧ a = Some artifact ∧ k = false.
Proof.
  unfold final_result. destruct (prep_error p); [done|].
  destruct (fin lg); simpl; [|done..]. by intros [= <- <-].
Qed.

Lemma Shell_final_result_error {A} (artifact : A) p lg a k e :
  final_result artifact p lg = (a, k, Some e) → a = None ∧ k = false.
Proof.
  unfold final_result. destruct (prep_error p); [by intros [= <- <- _]|].
  destruct (ending_error (fin lg)); [by intros [= <- <- _]|done].
Qed.

End Traces.

Section Properties.
Context {W Raw : Type} (sys : @Sys W Raw)
        (Decode : list Raw → Config → Slices.heap → option string * (Config * Slices.heap))
        {A : Type} `{Artifact A}.

(** The processes of a run, against the cross product. *)
Lemma Shell_runs_cross (ui : @Ui W) (artifact : A) (c : Config) (st : @state W ()) :
  cfg_ok (heap st) c = true →
  runs (added st (PostProcess sys ui artifact c st).2)
    `prefix_of`
    map sh_argv
        (cross (Files artifact)
               (elems (heap st) (Scripts c)
                ++ temp_files (added st (PostProcess sys ui artifact c st).2)))
  ∧ (∀ a k, (PostProcess sys ui artifact c st).1.1 = Some (a, k, None) →
            runs (added st (PostProcess sys ui artifact c st).2)
            = map sh_argv
                  (cross (Files artifact)
                         (elems (heap st) (Scripts c)
                          ++ temp_files (added st (PostProcess sys ui artifact c st).2)))).
Proof.
  intros Hok.
  destruct (Shell_PostProcess_spec sys ui artifact c st Hok)
    as (p & lg & st' & -> & _ & Htr & _ & _ & _ & _ & Hpre & Hall).
  cbn [fst snd].
  rewrite (added_app _ _ _ Htr), Shell_runs_shape, Shell_temp_files_shape.
  split.
  - destruct Hpre as [rest ->]. rewrite fmap_app.
    apply prefix_app_r. destruct (log_ran_prefix lg) as [rest' ->].
    rewrite fmap_app. by apply prefix_app_r.
  - intros a k [= Hres]. apply Shell_final_result_ok in Hres as (Hp & Hfin & _).
    by rewrite log_ran_completed, Hall.
Qed.

(** X10. [ShellPostProcessor.PostProcess] starts every script as
    [/bin/sh script artifact]: the artifact path is one argument of its
    own, whatever it holds. The processes follow the cross product of the
    files (outer loop) and of the working scripts (inner loop), all of it
    when no error is returned. Every process gets as its whole environment
    [PACKER_BUILD_NAME=] and [PACKER_BUILDER_TYPE=] with their values as
    they are, then the entries of [p.cfg.Vars]: nothing of the
    environment of the post-processor itself. *)
Theorem Shell_PostProcess_argv (ui : @Ui W) (artifact : A) (c : Config)
    (st : @state W ()) :
  cfg_ok (heap st) c = true →
  let evs := added st (PostProcess sys ui artifact c st).2 in
  let working := elems (heap st) (Scripts c) ++ temp_files evs in
  runs evs `prefix_of`
    map (λ p, ("/bin/sh", [p.2; p.1])) (cross (Files artifact) working)
  ∧ (∀ a k, (PostProcess sys ui artifact c st).1.1 = Some (a, k, None) →
            runs evs
            = map (λ p, ("/bin/sh", [p.2; p.1])) (cross (Files artifact) working))
  ∧ run_envs evs
    = replicate (length (runs evs))
        ([ "PACKER_BUILD_NAME=" +:+ PackerBuildName c;
           "PACKER_BUILDER_TYPE=" +:+ PackerBuilderType c ]
         ++ elems (heap st) (Vars c)).
Proof.
  intros Hok. cbv zeta.
  change (λ p : string * string, ("/bin/sh", [p.2; p.1])) with sh_argv.
  destruct (Shell_runs_cross ui artifact c st Hok) as [Hpre Hall].
  split; [done|]. split; [done|].
  destruct (Shell_PostProcess_spec sys ui artifact c st Hok)
    as (p & lg & st' & -> & _ & Htr & _).
  cbn [fst snd].
  rewrite (added_app _ _ _ Htr), Shell_runs_shape, Shell_run_envs_shape.
  by rewrite length_map.
Qed.

(** X11. [ShellPostProcessor.PostProcess] never asks to keep the input
    artifact: it returns the artifact it was given with [false], or an
    error with a nil artifact and [false]. It leaves [p.cfg] as it was. *)
Theorem Shell_PostProcess_result (ui : @Ui W) (artifact : A) (c : Config)
    (st : @state W ()) :
  cfg_ok (heap st) c = true →
  (PostProcess sys ui artifact c st).1.2 = c
  ∧ ∃ a e,
      (PostProcess sys ui artifact c st).1.1 = Some (a, false, e)
      ∧ match e with
        | None => a = Some artifact
        | Some _ => a = None
        end.
Proof.
  intros Hok.
  destruct (Shell_PostProcess_spec sys ui artifact c st Hok) as (p & lg & st' & -> & _).
  cbn [fst snd]. split; [done|].
  destruct (final_result artifact p lg) as [[a k] [e|]] eqn:Hres.
  - exists a, (Some e). apply Shell_final_result_error in Hres as [-> ->]. done.
  - exists a, None. apply Shell_final_result_ok in Hres as (_ & _ & -> & ->). done.
Qed.

(** X12. When a process fails, [ShellPostProcessor.PostProcess] returns
    [Unable to execute script: ] followed by what the process wrote on its
    standard error, byte for byte, and starts no other process. *)
Theorem Shell_PostProcess_first_failure (ui : @Ui W) (artifact : A) (c : Config)
    (st : @state W ()) (before after : list event) name args env res e :
  cfg_ok (heap st) c = true →
  added st (PostProcess sys ui artifact c st).2
  = before ++ EvRun name args env res :: after →
  r_err res = Some e →
  (PostProcess sys ui artifact c st).1.1
  = Some (None, false, Some (errorString ("Unable to execute script: " +:+ r_stderr res)))
  ∧ runs after = [].
Proof.
  intros Hok.
  destruct (Shell_PostProcess_spec sys ui artifact c st Hok)
    as (p & lg & st' & -> & _ & Htr & _ & _ & [Hdone Hfin] & Hempty & _).
  cbn [fst snd]. rewrite (added_app _ _ _ Htr). intros Hsplit Herr.
  set (sb := InlineShebang c) in *.
  set (inl := elems (heap st) (Inline c)) in *.
  set (ex := explicit_env c (elems (heap st) (Vars c))) in *.
  set (P := λ ev : event, match ev with
                          | EvRun _ _ _ r => r_err r ≠ None
                          | _ => False
                          end).
  assert (Hin : EvRun name args env res
                ∈ prep_events sb inl p ++ log_events ex lg ++ cleanup_events lg p).
  { rewrite Hsplit. apply elem_of_app. right. apply list_elem_of_here. }
  assert (Hfail : ∃ i, fin lg = RunFailed i ∧ i_res i = res).
  { apply elem_of_app in Hin as [Hin|Hin].
    { exfalso. revert Hin. apply Forall_not_in. by apply prep_events_Forall. }
    apply elem_of_app in Hin as [Hin|Hin].
    2:{ exfalso. revert Hin. apply Forall_not_in. by apply cleanup_events_Forall. }
    unfold log_events in Hin. apply elem_of_app in Hin as [Hin|Hin].
    - exfalso. apply list_elem_of_bind in Hin as (i & Hev & Hi).
      rewrite Forall_forall in Hdone. specialize (Hdone i Hi).
      unfold success_events, invocation_events in Hev. simpl in Hev.
      rewrite !elem_of_cons in Hev.
      destruct Hev as [?|[?|[?|[?|[Hev|[?|Hev]]]]]]; try done.
      + injection Hev as _ _ _ ->. congruence.
      + by apply elem_of_nil in Hev.
    - destruct (fin lg) as [|art path e'|i]; simpl in Hin.
      + by apply elem_of_nil in Hin.
      + unfold open_failure_events in Hin. rewrite !elem_of_cons in Hin.
        destruct Hin as [?|[?|[?|Hin]]]; try done. by apply elem_of_nil in Hin.
      + exists i. split; [done|]. unfold invocation_events in Hin.
        rewrite !elem_of_cons in Hin.
        destruct Hin as [?|[?|[?|[?|[Hev|Hev]]]]]; try done.
        * by injection Hev as _ _ _ ->.
        * by apply elem_of_nil in Hev. }
  destruct Hfail as (i & Hfi & <-).
  assert (Hp : prep_error p = None).
  { destruct (prep_error p) eqn:Hp; [|done].
    rewrite (Hempty ltac:(done)) in Hfi. done. }
  split.
  { unfold final_result. rewrite Hp, Hfi. done. }
  assert (Hshape : prep_events sb inl p ++ log_events ex lg ++ cleanup_events lg p
                   = (prep_events sb inl p ++ (done_passes lg ≫= success_events ex)
                      ++ [ EvSay ("Process with shell script: " +:+ i_path i);
                           EvLog ("Opening " +:+ i_path i +:+ " for reading");
                           EvOpen (i_path i) None;
                           EvMessage ("Executing script with artifact: " +:+ i_art i) ])
                     ++ EvRun "/bin/sh" [i_path i; i_art i] ex (i_res i)
                        :: cleanup_events lg p).
  { unfold log_events. rewrite Hfi. simpl. unfold invocation_events.
    rewrite <- !app_assoc. done. }
  rewrite Hshape in Hsplit.
  apply (split_unique P) in Hsplit as (_ & _ & ->).
  - unfold runs. apply bind_nil_Forall. by apply cleanup_events_Forall.
  - unfold P. apply Forall_app. split; [apply prep_events_Forall; intros; tauto|].
    apply Forall_app. split.
    + apply Forall_forall. intros ev (j & Hev & Hj)%list_elem_of_bind.
      rewrite Forall_forall in Hdone. specialize (Hdone j Hj).
      revert ev Hev. apply Forall_forall. unfold success_events, invocation_events.
      simpl. repeat (apply Forall_cons; split; [tauto || (intros Hne; by apply Hne)|]).
      apply Forall_nil_2.
    + repeat (apply Forall_cons; split; [tauto|]). apply Forall_nil_2.
  - unfold P. apply cleanup_events_Forall; intros; tauto.
  - unfold P. rewrite Herr. done.
Qed.


(** X14. [ShellPostProcessor.Configure] looks up every script and checks every
    entry of [environment_vars], and returns all the errors together, in
    the order they were found; it returns an error exactly when there is
    one. *)
Theorem Shell_Configure_aggregates_errors (raws : list Raw) (c : Config)
    (u : @state W ()) c1 h1 :
  Decode raws c (heap u) = (None, (c1, h1)) →
  cfg_ok h1 c1 = true →
  ∃ stats es,
    map fst stats = resolved_scripts h1 c1
    ∧ added u (Configure sys Decode raws c u).2 = map (λ s, EvStat s.1 s.2) stats
    ∧ es = validation_errors h1 c1 stats
    ∧ (Configure sys Decode raws c u).1.1
      = Some (match es with [] => None | _ :: _ => Some (MultiError es) end)
    ∧ (∀ path e, (path, Some e) ∈ stats →
         ("Bad script '" +:+ path +:+ "': " +:+ e) ∈ es)
    ∧ (∀ kv, kv ∈ elems h1 (Vars c1) → var_ok kv = false →
         ("Environment variable not in format 'key=value': " +:+ kv) ∈ es)
    ∧ ((Configure sys Decode raws c u).1.1 = Some None ↔ es = []).
Proof.
  intros Hdec Hok.
  destruct (Shell_Configure_spec sys Decode raws c u c1 h1 Hdec Hok)
    as (stats & c' & u' & -> & Hst & Htr & _).
  cbn [fst snd]. exists stats, (validation_errors h1 c1 stats).
  split; [done|]. split; [by apply added_app|]. split; [done|]. split; [done|].
  split; [|split].
  - intros path e Hin. unfold validation_errors.
    apply elem_of_app. right. apply elem_of_app. right. apply elem_of_app. left.
    unfold script_errors. apply list_elem_of_bind. exists (path, Some e).
    split; [|done]. apply list_elem_of_here.
  - intros kv Hin Hbad. unfold validation_errors.
    apply elem_of_app. right. apply elem_of_app. right. apply elem_of_app. right.
    unfold var_errors. apply list_elem_of_bind. exists kv.
    split; [|done]. rewrite Hbad. apply list_elem_of_here.
  - split.
    + intros [= Hres]. by apply errors_result_None.
    + by intros ->.
Qed.

(** X15. For [ShellPostProcessor.Configure] an inline list is there as soon as
    it is not nil, empty or not. No error is returned only when exactly
    one of the script sequence and the inline list is there; an inline list
    that is given but empty is accepted alone, and refused beside
    scripts. *)
Theorem Shell_Configure_kinds (raws : list Raw) (c : Config) (u : @state W ()) c1 h1 :
  Decode raws c (heap u) = (None, (c1, h1)) →
  cfg_ok h1 c1 = true →
  let r := (Configure sys Decode raws c u).1.1 in
  let scripts_given := negb (length (resolved_scripts h1 c1) =? 0) in
  let inline_there := negb (is_nil (Inline c1)) in
  (r = Some None → xorb scripts_given inline_there = true)
  ∧ (scripts_given = false → inline_there = false →
     ∃ es, r = Some (Some (MultiError es))
           ∧ "Either a script file or inline script must be specified." ∈ es)
  ∧ (scripts_given = true → inline_there = true →
     ∃ es, r = Some (Some (MultiError es))
           ∧ "Only a script file or an inline script can be specified, not both." ∈ es).
Proof.
  intros Hdec Hok.
  destruct (Shell_Configure_spec sys Decode raws c u c1 h1 Hdec Hok)
    as (stats & c' & u' & -> & _).
  cbn [fst snd]. unfold validation_errors, inline_present. rewrite kind_errors_spec.
  set (n := length (resolved_scripts h1 c1)).
  set (i := negb (is_nil (Inline c1))).
  set (fe := field_errors c1). set (rest := script_errors stats ++ _).
  split; [|split].
  - intros [= Hres]. apply errors_result_None in Hres.
    destruct (n =? 0), i; simpl in *; try done.
    + apply app_eq_nil in Hres as [_ Hres]. done.
    + apply app_eq_nil in Hres as [_ Hres]. done.
  - intros ->%negb_false_iff ->. simpl.
    exists (fe ++ [err_missing] ++ rest). split.
    + destruct fe; done.
    + apply elem_of_app. right. apply list_elem_of_here.
  - intros ->%negb_true_iff ->. simpl.
    exists (fe ++ [err_both] ++ rest). split.
    + destruct fe; done.
    + apply elem_of_app. right. apply list_elem_of_here.
Qed.

(** X16. What [ShellPostProcessor.Configure] leaves in [p.cfg]: the shebang
    and the target with their defaults ([/bin/sh], and the template with
    the build name and the provider), the script sequence, the inline list
    as decoded. It never rewrites an entry of [environment_vars], and
    every slice the decoder made keeps its elements. *)
Theorem Shell_Configure_result (raws : list Raw) (c : Config) (u : @state W ()) c1 h1 :
  Decode raws c (heap u) = (None, (c1, h1)) →
  cfg_ok h1 c1 = true →
  let c' := (Configure sys Decode raws c u).1.2 in
  let u' := (Configure sys Decode raws c u).2 in
  InlineShebang c'
  = (if String.eqb (InlineShebang c1) EmptyString then "/bin/sh" else InlineShebang c1)
  ∧ TargetPath c'
    = (if String.eqb (TargetPath c1) EmptyString
       then "packer_{{ .BuildName }}_{{.Provider}}" else TargetPath c1)
  ∧ elems (heap u') (Scripts c')
    = (if String.eqb (Script c1) EmptyString then elems h1 (Scripts c1) else [Script c1])
  ∧ Inline c' = Inline c1
  ∧ elems (heap u') (Vars c') = elems h1 (Vars c1)
  ∧ cfg_ok (heap u') c' = true
  ∧ ∀ s, slice_ok h1 s = true → elems (heap u') s = elems h1 s.
Proof.
  intros Hdec Hok.
  destruct (Shell_Configure_spec sys Decode raws c u c1 h1 Hdec Hok)
    as (stats & c' & u' & -> & _ & _ & Htracks & Hsb & Htp & Hscr).
  cbn [fst snd]. destruct Htracks as (Hag & _ & Hok' & _ & Hinl & Hvars & _).
  split_and!; try done.
  intros s Hs. apply (elems_agree (length h1)); [by apply slice_ok_below|done].
Qed.

(** X17. [Configure], then [PostProcess]: when [Configure] returns no error,
    the processes that [PostProcess] starts for an artifact follow the
    cross product of its files and of the scripts [Configure] looked up,
    the temporary script behind them, and they are all of it when
    [PostProcess] returns no error. *)
Theorem Shell_Configure_then_PostProcess (raws : list Raw) (c : Config)
    (u : @state W ()) c1 h1 (ui : @Ui W) (artifact : A) :
  Decode raws c (heap u) = (None, (c1, h1)) →
  cfg_ok h1 c1 = true →
  let c' := (Configure sys Decode raws c u).1.2 in
  let u' := (Configure sys Decode raws c u).2 in
  let looked_up :=
    ev ← added u u'; match ev with EvStat path _ => [path] | _ => [] end in
  let evs := added u' (PostProcess sys ui artifact c' u').2 in
  runs evs `prefix_of`
    map (λ p, ("/bin/sh", [p.2; p.1]))
        (cross (Files artifact) (looked_up ++ temp_files evs))
  ∧ (∀ a k, (PostProcess sys ui artifact c' u').1.1 = Some (a, k, None) →
            runs evs
            = map (λ p, ("/bin/sh", [p.2; p.1]))
                  (cross (Files artifact) (looked_up ++ temp_files evs))).
Proof.
  intros Hdec Hok.
  destruct (Shell_Configure_spec sys Decode raws c u c1 h1 Hdec Hok)
    as (stats & c' & u' & Hrun & Hst & Htr & Htracks & _ & _ & Hscr).
  rewrite Hrun. cbn [fst snd]. rewrite (added_app _ _ _ Htr).
  destruct Htracks as (_ & _ & Hok' & _).
  change (λ p : string * string, ("/bin/sh", [p.2; p.1])) with sh_argv.
  destruct (Shell_runs_cross ui artifact c' u' Hok') as [Hpre Hall].
  assert (Hpaths : (stat_events stats
                    ≫= λ ev, match ev with EvStat path _ => [path] | _ => [] end)
                   = elems (heap u') (Scripts c')).
  { rewrite Hscr, <- Hst. unfold stat_events. clear.
    induction stats as [|[path r] stats IH]; [done|].
    change (map ?f ((path, r) :: stats)) with (f (path, r) :: map f stats).
    cbn [mbind list_bind app map fst snd]. by rewrite <- IH. }
  rewrite Hpaths. done.
Qed.

End Properties.


(* ===================================================================== *)
(** ** [ShellPostProcessor] on concrete runs                              *)
(* ===================================================================== *)

Section ShellRuns.

(** [scripts = [S1, S2]] on an artifact whose path has a space. *)
Lemma Shell_PostProcess_argv_run :
  cfg_ok (heap (ShellDemo.ready Demo.two_scripts)) (ShellDemo.ready_cfg Demo.two_scripts)
  = true
  ∧ runs (added (ShellDemo.ready Demo.two_scripts)
            (PostProcess (Demo.sys []) Demo.ui ["my file"]
               (ShellDemo.ready_cfg Demo.two_scripts)
               (ShellDemo.ready Demo.two_scripts)).2)
    = [ ("/bin/sh", ["S1"; "my file"]); ("/bin/sh", ["S2"; "my file"]) ]
  ∧ run_envs (added (ShellDemo.ready Demo.two_scripts)
                (PostProcess (Demo.sys []) Demo.ui ["my file"]
                   (ShellDemo.ready_cfg Demo.two_scripts)
                   (ShellDemo.ready Demo.two_scripts)).2)
    = replicate 2 ["PACKER_BUILD_NAME=b"; "PACKER_BUILDER_TYPE=t"; "NAME=O'Brien"].
Proof.
  assert (Hok : cfg_ok (heap (ShellDemo.ready Demo.two_scripts))
                       (ShellDemo.ready_cfg Demo.two_scripts) = true)
    by (vm_compute; reflexivity).
  split; [exact Hok|].
  pose proof (Shell_PostProcess_argv (Demo.sys []) Demo.ui ["my file"]
                (ShellDemo.ready_cfg Demo.two_scripts)
                (ShellDemo.ready Demo.two_scripts) Hok) as Hargv.
  cbv zeta in Hargv. destruct Hargv as (_ & Hall & Henv).
  split.
  - rewrite (Hall (Some ["my file"]) false); vm_compute; reflexivity.
  - etransitivity; [exact Henv|]. vm_compute. reflexivity.
Defined.

(** [keep_input_artifact] plays no part: the flag returned is [false]. *)
Lemma Shell_PostProcess_result_run :
  cfg_ok (heap (ShellDemo.ready Demo.two_scripts)) (ShellDemo.ready_cfg Demo.two_scripts)
  = true
  ∧ (PostProcess (Demo.sys []) Demo.ui ["A"]
       (ShellDemo.ready_cfg Demo.two_scripts) (ShellDemo.ready Demo.two_scripts)).1.1
    = Some (Some ["A"], false, None)
  ∧ (PostProcess (Demo.sys []) Demo.ui ["A"]
       (ShellDemo.ready_cfg Demo.two_scripts) (ShellDemo.ready Demo.two_scripts)).1.2
    = ShellDemo.ready_cfg Demo.two_scripts.
Proof.
  assert (Hok : cfg_ok (heap (ShellDemo.ready Demo.two_scripts))
                       (ShellDemo.ready_cfg Demo.two_scripts) = true)
    by (vm_compute; reflexivity).
  split; [exact Hok|]. split; [vm_compute; reflexivity|].
  exact (proj1 (Shell_PostProcess_result (Demo.sys []) Demo.ui ["A"]
                  (ShellDemo.ready_cfg Demo.two_scripts)
                  (ShellDemo.ready Demo.two_scripts) Hok)).
Defined.

(** The run of [S1] on [A] fails after writing a line. *)
Lemma Shell_PostProcess_first_failure_run :
  cfg_ok (heap (ShellDemo.ready Demo.two_scripts)) (ShellDemo.ready_cfg Demo.two_scripts)
  = true
  ∧ added (ShellDemo.ready Demo.two_scripts)
      (PostProcess (Demo.sys ["A"]) Demo.ui ["A"; "B"]
         (ShellDemo.ready_cfg Demo.two_scripts) (ShellDemo.ready Demo.two_scripts)).2
    = [ EvSay "Process with shell script: S1"; EvLog "Opening S1 for reading";
        EvOpen "S1" None; EvMessage "Executing script with artifact: A" ]
      ++ EvRun "/bin/sh" ["S1"; "A"]
           ["PACKER_BUILD_NAME=b"; "PACKER_BUILDER_TYPE=t"; "NAME=O'Brien"] Demo.boom
         :: [EvClose "S1"]
  ∧ r_err Demo.boom = Some "exit status 1"
  ∧ (PostProcess (Demo.sys ["A"]) Demo.ui ["A"; "B"]
       (ShellDemo.ready_cfg Demo.two_scripts) (ShellDemo.ready Demo.two_scripts)).1.1
    = Some (None, false, Some (errorString ("Unable to execute script: boom" +:+ nl))).
Proof.
  assert (Hok : cfg_ok (heap (ShellDemo.ready Demo.two_scripts))
                       (ShellDemo.ready_cfg Demo.two_scripts) = true)
    by (vm_compute; reflexivity).
  assert (Hev : added (ShellDemo.ready Demo.two_scripts)
      (PostProcess (Demo.sys ["A"]) Demo.ui ["A"; "B"]
         (ShellDemo.ready_cfg Demo.two_scripts) (ShellDemo.ready Demo.two_scripts)).2
    = [ EvSay "Process with shell script: S1"; EvLog "Opening S1 for reading";
        EvOpen "S1" None; EvMessage "Executing script with artifact: A" ]
      ++ EvRun "/bin/sh" ["S1"; "A"]
           ["PACKER_BUILD_NAME=b"; "PACKER_BUILDER_TYPE=t"; "NAME=O'Brien"] Demo.boom
         :: [EvClose "S1"])
    by (vm_compute; reflexivity).
  assert (Herr : r_err Demo.boom = Some "exit status 1") by reflexivity.
  split; [exact Hok|]. split; [exact Hev|]. split; [exact Herr|].
  destruct (Shell_PostProcess_first_failure (Demo.sys ["A"]) Demo.ui ["A"; "B"]
              (ShellDemo.ready_cfg Demo.two_scripts) (ShellDemo.ready Demo.two_scripts)
              _ _ _ _ _ _ _ Hok Hev Herr) as [Hres _].
  etransitivity; [exact Hres|]. vm_compute. reflexivity.
Defined.


(** A missing script and two malformed variables: three errors. *)
Lemma Shell_Configure_aggregates_errors_run :
  ShellDemo.decode [Demo.broken] ShellDemo.zero_config (heap Demo.boot)
  = (None, ((ShellDemo.decoded Demo.broken).1, (ShellDemo.decoded Demo.broken).2))
  ∧ cfg_ok (ShellDemo.decoded Demo.broken).2 (ShellDemo.decoded Demo.broken).1 = true
  ∧ (Configure (Demo.sys []) ShellDemo.decode [Demo.broken] ShellDemo.zero_config
       Demo.boot).1.1
    = Some (Some (MultiError
        [ "Bad script 'missing.sh': no such file or directory";
          "Environment variable not in format 'key=value': novalue";
          "Environment variable not in format 'key=value': =nokey" ]))
  ∧ ∃ stats es,
      map fst stats
      = resolved_scripts (ShellDemo.decoded Demo.broken).2 (ShellDemo.decoded Demo.broken).1
      ∧ added Demo.boot
          (Configure (Demo.sys []) ShellDemo.decode [Demo.broken] ShellDemo.zero_config
             Demo.boot).2
        = map (λ s, EvStat s.1 s.2) stats
      ∧ es = validation_errors (ShellDemo.decoded Demo.broken).2
               (ShellDemo.decoded Demo.broken).1 stats
      ∧ (Configure (Demo.sys []) ShellDemo.decode [Demo.broken] ShellDemo.zero_config
           Demo.boot).1.1
        = Some (match es with [] => None | _ :: _ => Some (MultiError es) end)
      ∧ (∀ path e, (path, Some e) ∈ stats →
           ("Bad script '" +:+ path +:+ "': " +:+ e) ∈ es)
      ∧ (∀ kv, kv ∈ elems (ShellDemo.decoded Demo.broken).2
                      (Vars (ShellDemo.decoded Demo.broken).1) →
           var_ok kv = false →
           ("Environment variable not in format 'key=value': " +:+ kv) ∈ es)
      ∧ ((Configure (Demo.sys []) ShellDemo.decode [Demo.broken] ShellDemo.zero_config
            Demo.boot).1.1 = Some None ↔ es = []).
Proof.
  assert (Hdec : ShellDemo.decode [Demo.broken] ShellDemo.zero_config (heap Demo.boot)
                 = (None, ((ShellDemo.decoded Demo.broken).1,
                           (ShellDemo.decoded Demo.broken).2)))
    by (vm_compute; reflexivity).
  assert (Hok : cfg_ok (ShellDemo.decoded Demo.broken).2
                       (ShellDemo.decoded Demo.broken).1 = true)
    by (vm_compute; reflexivity).
  split; [exact Hdec|]. split; [exact Hok|]. split; [vm_compute; reflexivity|].
  exact (Shell_Configure_aggregates_errors (Demo.sys []) ShellDemo.decode [Demo.broken]
           ShellDemo.zero_config Demo.boot _ _ Hdec Hok).
Defined.

(** [inline = []] beside [scripts = [S1]]: refused. *)
Lemma Shell_Configure_kinds_run :
  ShellDemo.decode [ShellDemo.empty_inline] ShellDemo.zero_config (heap Demo.boot)
  = (None, ((ShellDemo.decoded ShellDemo.empty_inline).1,
            (ShellDemo.decoded ShellDemo.empty_inline).2))
  ∧ cfg_ok (ShellDemo.decoded ShellDemo.empty_inline).2
           (ShellDemo.decoded ShellDemo.empty_inline).1 = true
  ∧ s_len (Inline (ShellDemo.decoded ShellDemo.empty_inline).1) = 0
  ∧ ∃ es,
      (Configure (Demo.sys []) ShellDemo.decode [ShellDemo.empty_inline]
         ShellDemo.zero_config Demo.boot).1.1
      = Some (Some (MultiError es))
      ∧ "Only a script file or an inline script can be specified, not both." ∈ es.
Proof.
  assert (Hdec : ShellDemo.decode [ShellDemo.empty_inline] ShellDemo.zero_config
                   (heap Demo.boot)
                 = (None, ((ShellDemo.decoded ShellDemo.empty_inline).1,
                           (ShellDemo.decoded ShellDemo.empty_inline).2)))
    by (vm_compute; reflexivity).
  assert (Hok : cfg_ok (ShellDemo.decoded ShellDemo.empty_inline).2
                       (ShellDemo.decoded ShellDemo.empty_inline).1 = true)
    by (vm_compute; reflexivity).
  split; [exact Hdec|]. split; [exact Hok|]. split; [vm_compute; reflexivity|].
  pose proof (Shell_Configure_kinds (Demo.sys []) ShellDemo.decode
                [ShellDemo.empty_inline] ShellDemo.zero_config Demo.boot _ _ Hdec Hok)
    as Hkinds.
  cbv zeta in Hkinds. destruct Hkinds as (_ & _ & Hboth).
  apply Hboth; vm_compute; reflexivity.
Defined.

(** [scripts = [S1, S2]], [environment_vars = [NAME=O'Brien]]. *)
Lemma Shell_Configure_result_run :
  ShellDemo.decode [Demo.two_scripts] ShellDemo.zero_config (heap Demo.boot)
  = (None, ((ShellDemo.decoded Demo.two_scripts).1,
            (ShellDemo.decoded Demo.two_scripts).2))
  ∧ cfg_ok (ShellDemo.decoded Demo.two_scripts).2
           (ShellDemo.decoded Demo.two_scripts).1 = true
  ∧ InlineShebang (ShellDemo.ready_cfg Demo.two_scripts) = "/bin/sh"
  ∧ elems (heap (ShellDemo.ready Demo.two_scripts))
          (Vars (ShellDemo.ready_cfg Demo.two_scripts))
    = ["NAME=O'Brien"].
Proof.
  assert (Hdec : ShellDemo.decode [Demo.two_scripts] ShellDemo.zero_config
                   (heap Demo.boot)
                 = (None, ((ShellDemo.decoded Demo.two_scripts).1,
                           (ShellDemo.decoded Demo.two_scripts).2)))
    by (vm_compute; reflexivity).
  assert (Hok : cfg_ok (ShellDemo.decoded Demo.two_scripts).2
                       (ShellDemo.decoded Demo.two_scripts).1 = true)
    by (vm_compute; reflexivity).
  split; [exact Hdec|]. split; [exact Hok|].
  pose proof (Shell_Configure_result (Demo.sys []) ShellDemo.decode [Demo.two_scripts]
                ShellDemo.zero_config Demo.boot _ _ Hdec Hok) as Hres.
  cbv zeta in Hres. destruct Hres as (Hsb & _ & _ & _ & Hvars & _).
  split.
  - etransitivity; [exact Hsb|]. vm_compute. reflexivity.
  - etransitivity; [exact Hvars|]. vm_compute. reflexivity.
Defined.

(** [Configure] on [scripts = [S1, S2]], then [PostProcess] on [A]. *)
Lemma Shell_Configure_then_PostProcess_run :
  ShellDemo.decode [Demo.two_scripts] ShellDemo.zero_config (heap Demo.boot)
  = (None, ((ShellDemo.decoded Demo.two_scripts).1,
            (ShellDemo.decoded Demo.two_scripts).2))
  ∧ cfg_ok (ShellDemo.decoded Demo.two_scripts).2
           (ShellDemo.decoded Demo.two_scripts).1 = true
  ∧ runs (added (ShellDemo.ready Demo.two_scripts)
            (PostProcess (Demo.sys []) Demo.ui ["A"]
               (ShellDemo.ready_cfg Demo.two_scripts)
               (ShellDemo.ready Demo.two_scripts)).2)
    = [ ("/bin/sh", ["S1"; "A"]); ("/bin/sh", ["S2"; "A"]) ].
Proof.
  assert (Hdec : ShellDemo.decode [Demo.two_scripts] ShellDemo.zero_config
                   (heap Demo.boot)
                 = (None, ((ShellDemo.decoded Demo.two_scripts).1,
                           (ShellDemo.decoded Demo.two_scripts).2)))
    by (vm_compute; reflexivity).
  assert (Hok : cfg_ok (ShellDemo.decoded Demo.two_scripts).2
                       (ShellDemo.decoded Demo.two_scripts).1 = true)
    by (vm_compute; reflexivity).
  split; [exact Hdec|]. split; [exact Hok|].
  pose proof (Shell_Configure_then_PostProcess (Demo.sys []) ShellDemo.decode
                [Demo.two_scripts] ShellDemo.zero_config Demo.boot _ _ Demo.ui ["A"]
                Hdec Hok) as Hthen.
  cbv zeta in Hthen. destruct Hthen as [_ Hall].
  etransitivity; [apply (Hall (Some ["A"]) false); vm_compute; reflexivity|].
  vm_compute. reflexivity.
Defined.

End ShellRuns.


End ShellPostProcessorFacts.
